(** * Job-application coordination over a key-value store

    A shallow embedding of [src/lib/entities.ts]: the Redis commands the
    module issues, the key helpers [K], the entity store (boards, jobs,
    users), the application coordinator ([createRun], [updateRun]) and the
    query layer ([listJobs], [listJobsForUser], [listRuns]); and of the
    branches of [netlify/functions/crawler-jobs.mts] that await them: POST
    of a single job, PATCH and DELETE.

    The store is passed explicitly: every operation takes the store it
    reads and returns the store it leaves behind together with its result.
    [new Date().toISOString()] is the argument [now]; the clock of the
    store, against which a lock's time-to-live runs, is the argument
    [clock] (seconds). *)

From stdpp Require Import gmap strings list fin_maps.
From Stdlib Require Import ZArith Ascii String.

Open Scope string_scope.
Open Scope list_scope.

#[local] Set Warnings "-clear-no-such-hyp".

(** ** JavaScript values read from a hash *)

(** A field of [hgetall]'s result is a string or [undefined]. *)
Definition truthy (v : option string) : bool :=
  match v with
  | Some s => negb (bool_decide (s = ""))
  | None => false
  end.

(** A value inside a template literal: [undefined] prints as its name. *)
Definition interp (v : option string) : string := default "undefined" v.

(** [s.split(sep)] for a one-character separator. *)
Fixpoint split (sep : ascii) (s : string) : list string :=
  match s with
  | EmptyString => [""]
  | String c rest =>
      if bool_decide (c = sep) then "" :: split sep rest
      else match split sep rest with
           | [] => [String c ""]
           | h :: t => String c h :: t
           end
  end.

(** [l.join(sep)]. *)
Definition join (sep : string) (l : list string) : string := String.concat sep l.

(** [s.startsWith(p)]. *)
Definition startsWith (s p : string) : bool := String.prefix p s.

Definition colon : ascii := ":"%char.
Definition comma : ascii := ","%char.

(** ** Key helpers *)

Module K.
Definition board (id : string) : string := "board:" +:+ id.
Definition boardsIdx : string := "idx:boards".
Definition job (board jobId : string) : string := "job:" +:+ board +:+ ":" +:+ jobId.
Definition boardJobsIdx (board : string) : string := "idx:board_jobs:" +:+ board.
Definition jobStatusIdx (status : string) : string := "idx:job_status:" +:+ status.
Definition tagIdx (tag : string) : string := "idx:tag:" +:+ tag.
Definition run (runId : string) : string := "run:" +:+ runId.
Definition jobRunsIdx (jobId : string) : string := "idx:job_runs:" +:+ jobId.
Definition runsAll : string := "idx:runs".
Definition applyLock (board jobId : string) : string :=
  "lock:apply:" +:+ board +:+ ":" +:+ jobId.
Definition user (id : string) : string := "user:" +:+ id.
Definition usersIdx : string := "idx:users".
End K.

(** The composite key [`${board}:${jobId}`] that the status and tag index
    sets hold. *)
Definition compositeKey (board jobId : string) : string := board +:+ ":" +:+ jobId.

(** ** Types of [types.ts] *)

Inductive JobStatus := discovered | queued | applied | found | rejected | expired.

Definition job_status_str (s : JobStatus) : string :=
  match s with
  | discovered => "discovered"
  | queued => "queued"
  | applied => "applied"
  | found => "found"
  | rejected => "rejected"
  | expired => "expired"
  end.

Inductive RunStatus := pending | submitted | success | failed.

Definition run_status_str (s : RunStatus) : string :=
  match s with
  | pending => "pending"
  | submitted => "submitted"
  | success => "success"
  | failed => "failed"
  end.

(** The interface [RunArtifacts] of [types.ts]: five optional fields,
    [answers] a [Record<string, string>]. *)
Record RunArtifacts := mkArtifacts {
  resume_url : option string;
  cover_letter : option string;
  answers : option (gmap string string);
  confirmation_url : option string;
  notes : option string
}.

(** The argument of [addJob] and the elements of [addJobsBulk]'s argument:
    [Omit<Job, "discovered_at" | "updated_at" | "status" | "tags">]. *)
Record JobInput := mkJobInput {
  job_id : string;
  board : string;
  title : string;
  url : string;
  location : string;
  department : string
}.

(** A job object as the module returns it: the string-valued properties and
    the array [tags]. *)
Record Job := mkJob {
  job_fields : gmap string string;
  job_tags : list string
}.

(** [job.status], a string or [undefined]. *)
Definition job_status (j : Job) : option string := job_fields j !! "status".

(** The argument of [createRun]:
    [Omit<JobRun, "started_at" | "completed_at" | "error" | "status" | "artifacts">]. *)
Record RunInput := mkRunInput {
  run_id : string;
  run_job_id : string;
  run_board : string;
  variant_id : string
}.

(** A run object as the module returns it; [None] is [null] or [undefined]. *)
Record JobRun := mkJobRun {
  jr_run_id : option string;
  jr_job_id : option string;
  jr_board : option string;
  jr_variant_id : option string;
  jr_status : option string;
  jr_started_at : option string;
  jr_completed_at : option string;
  jr_error : option string;
  jr_artifacts : option RunArtifacts
}.

Record User := mkUser {
  user_id : string;
  user_resumes : list string;
  user_answers : gmap string string;
  user_tags : list string;
  user_updated_at : option string
}.

(** The argument [update] of [updateRun]. *)
Record RunUpdate := mkRunUpdate {
  upd_status : RunStatus;
  upd_error : option string;
  upd_artifacts : option RunArtifacts
}.

(** The result of [createRun]: [{ run }] or [{ error, code }]. *)
Inductive CreateRunResult :=
| RunCreated (run : JobRun)
| RunRejected (error : string) (code : Z).

(** How a call ends: it returns, or it throws. *)
Inductive Completion (A : Type) :=
| Return (a : A)
| Throw (e : string).
Arguments Return {A} a.
Arguments Throw {A} e.

(** ** The store *)

(** A run hash. The field [artifacts] holds [JSON.stringify] of [null] or of
    an artifacts object and is read back with [JSON.parse]; the text is
    represented by the value it encodes ([Some None] is the text of [null]). *)
Record RunHash := mkRunHash {
  h_run_id : option string;
  h_job_id : option string;
  h_board : option string;
  h_variant_id : option string;
  h_status : option string;
  h_started_at : option string;
  h_completed_at : option string;
  h_error : option string;
  h_artifacts : option (option RunArtifacts)
}.

(** A user hash; [resumes], [answers] and [tags] hold JSON text, represented
    by the values they encode. *)
Record UserHash := mkUserHash {
  uh_id : option string;
  uh_resumes : option (list string);
  uh_answers : option (gmap string string);
  uh_tags : option (list string);
  uh_updated_at : option string
}.

(** The keys built by [K] fall into families told apart by their first
    characters ([board:], [job:], [run:], [user:], [idx:], [lock:]), and a
    family holds one type of value, so the store is split by family; every
    map is keyed by the full key. A lock is kept with the time at which it
    expires. *)
Record Store := mkStore {
  hashes : gmap string (gmap string string);
  runs : gmap string RunHash;
  users : gmap string UserHash;
  sets : gmap string (gset string);
  locks : gmap string (string * nat)
}.

Definition set_hashes (f : gmap string (gmap string string) → gmap string (gmap string string))
    (r : Store) : Store :=
  mkStore (f (hashes r)) (runs r) (users r) (sets r) (locks r).
Definition set_runs (f : gmap string RunHash → gmap string RunHash) (r : Store) : Store :=
  mkStore (hashes r) (f (runs r)) (users r) (sets r) (locks r).
Definition set_users (f : gmap string UserHash → gmap string UserHash) (r : Store) : Store :=
  mkStore (hashes r) (runs r) (f (users r)) (sets r) (locks r).
Definition set_sets (f : gmap string (gset string) → gmap string (gset string))
    (r : Store) : Store :=
  mkStore (hashes r) (runs r) (users r) (f (sets r)) (locks r).
Definition set_locks (f : gmap string (string * nat) → gmap string (string * nat))
    (r : Store) : Store :=
  mkStore (hashes r) (runs r) (users r) (sets r) (f (locks r)).

Definition empty_store : Store := mkStore ∅ ∅ ∅ ∅ ∅.

(** ** Redis commands *)

(** HGETALL: the fields of the hash, none when the key is absent. *)
Definition hgetall (r : Store) (key : string) : gmap string string :=
  default ∅ (hashes r !! key).

(** EXISTS on the key of a hash. *)
Definition exists_ (r : Store) (key : string) : bool :=
  bool_decide (hgetall r key ≠ ∅).

Definition no_run_hash : RunHash :=
  mkRunHash None None None None None None None None None.

Definition hgetall_run (r : Store) (key : string) : RunHash :=
  default no_run_hash (runs r !! key).

Definition no_user_hash : UserHash := mkUserHash None None None None None.

Definition hgetall_user (r : Store) (key : string) : UserHash :=
  default no_user_hash (users r !! key).

(** SMEMBERS, as a set and as the array the client receives. *)
Definition smembers_set (r : Store) (key : string) : gset string :=
  default ∅ (sets r !! key).

Definition smembers (r : Store) (key : string) : list string :=
  elements (smembers_set r key).

(** SINTER and SUNION over several keys. *)
Definition sinter (r : Store) (keys : list string) : list string :=
  match keys with
  | [] => []
  | k :: ks => elements (foldl (λ acc k', acc ∩ smembers_set r k') (smembers_set r k) ks)
  end.

Definition sunion (r : Store) (keys : list string) : list string :=
  elements (foldl (λ acc k', acc ∪ smembers_set r k') ∅ keys).

(** A field given to HSET replaces the stored one, the others stay. *)
Definition over {A} (new old : option A) : option A :=
  match new with
  | Some x => Some x
  | None => old
  end.

Definition hset_run_fields (f old : RunHash) : RunHash :=
  mkRunHash (over (h_run_id f) (h_run_id old)) (over (h_job_id f) (h_job_id old))
    (over (h_board f) (h_board old)) (over (h_variant_id f) (h_variant_id old))
    (over (h_status f) (h_status old)) (over (h_started_at f) (h_started_at old))
    (over (h_completed_at f) (h_completed_at old)) (over (h_error f) (h_error old))
    (over (h_artifacts f) (h_artifacts old)).

Definition hset_user_fields (f old : UserHash) : UserHash :=
  mkUserHash (over (uh_id f) (uh_id old)) (over (uh_resumes f) (uh_resumes old))
    (over (uh_answers f) (uh_answers old)) (over (uh_tags f) (uh_tags old))
    (over (uh_updated_at f) (uh_updated_at old)).

(** The commands a pipeline queues. HSET and DEL come once per family of
    keys they are used on: [HSET] and [DEL] on the hash of a board or of a
    job, [HSET_run] and [HSET_user] on the hash of a run and of a user,
    [DEL_set] on an index set. *)
Inductive Cmd :=
| HSET (key : string) (fields : gmap string string)
| HSET_run (key : string) (fields : RunHash)
| HSET_user (key : string) (fields : UserHash)
| SADD (key member : string)
| SREM (key member : string)
| DEL (key : string)
| DEL_set (key : string).

(** A set that loses its last member is removed with its key. *)
Definition store_set (key : string) (members : gset string)
    (m : gmap string (gset string)) : gmap string (gset string) :=
  if decide (members = ∅) then delete key m else <[key := members]> m.

Definition exec (c : Cmd) (r : Store) : Store :=
  match c with
  | HSET key fields => set_hashes (insert key (fields ∪ hgetall r key)) r
  | HSET_run key fields =>
      set_runs (insert key (hset_run_fields fields (hgetall_run r key))) r
  | HSET_user key fields =>
      set_users (insert key (hset_user_fields fields (hgetall_user r key))) r
  | SADD key member => set_sets (insert key ({[member]} ∪ smembers_set r key)) r
  | SREM key member => set_sets (store_set key (smembers_set r key ∖ {[member]})) r
  | DEL key => set_hashes (delete key) r
  | DEL_set key => set_sets (delete key) r
  end.

(** [execPipe]: the queued commands run in the order they were queued. *)
Definition execPipe (pipe : list Cmd) (r : Store) : Store :=
  foldl (λ acc c, exec c acc) r pipe.

(** The lock a key holds at time [clock], if it has not expired. *)
Definition live_lock (r : Store) (key : string) (clock : nat) : option string :=
  match locks r !! key with
  | Some (v, deadline) => if decide (clock < deadline) then Some v else None
  | None => None
  end.

(** [SET key value EX ttl NX]: sets the key only when it holds nothing, and
    says whether it did. *)
Definition set_ex_nx (r : Store) (clock : nat) (key value : string) (ttl : nat)
    : Store * bool :=
  match live_lock r key clock with
  | Some _ => (r, false)
  | None => (set_locks (insert key (value, clock + ttl)) r, true)
  end.

(** DEL on the key of a lock. *)
Definition del_lock (r : Store) (key : string) : Store := set_locks (delete key) r.

(** [if (v) ...]: the commands queued when the field [v] is truthy. *)
Definition when_truthy {A} (v : option string) (f : string → list A) : list A :=
  match v with
  | Some s => if truthy (Some s) then f s else []
  | None => []
  end.

(** ** Boards *)

Record Board := mkBoard {
  board_id : string;
  company : string;
  ats : string;
  created_at : string
}.

Definition addBoard (r : Store) (now : string) (id company ats : string) : Store * Board :=
  let board := mkBoard id company ats now in
  let pipe :=
    [ HSET (K.board id)
        (list_to_map [("id", id); ("company", company); ("ats", ats);
                      ("created_at", created_at board)]);
      SADD K.boardsIdx id ] in
  (execPipe pipe r, board).

(** The commands [removeBoard] queues for one job id of the board; the
    job's hash is read from the store as it is before the pipeline runs. *)
Definition removeBoard_job (r : Store) (id jobId : string) : list Cmd :=
  let jobKey := K.job id jobId in
  let jobData := hgetall r jobKey in
  when_truthy (jobData !! "status")
    (λ status, [SREM (K.jobStatusIdx status) (compositeKey id jobId)])
  ++ when_truthy (jobData !! "tags")
       (λ tags, map (λ tag, SREM (K.tagIdx tag) (compositeKey id jobId)) (split comma tags))
  ++ [DEL jobKey].

Definition removeBoard (r : Store) (id : string) : Store * bool :=
  if negb (exists_ r (K.board id)) then (r, false)
  else
    let jobIds := smembers r (K.boardJobsIdx id) in
    let pipe :=
      flat_map (removeBoard_job r id) jobIds
      ++ [DEL_set (K.boardJobsIdx id); DEL (K.board id); SREM K.boardsIdx id] in
    (execPipe pipe r, true).

(** ** Jobs *)

Section Jobs.

(** The tag classifier [extractTags] of [tags.ts], a pure function of
    title and department. It is kept as a parameter: what is proved below
    holds for every classifier, and where the tags must survive
    [join(",")] and [split(",")] this is a hypothesis ([plain_tags]), which
    the eleven tag names of [TAG_KEYWORDS] meet. *)
Variable extractTags : string → string → list string.

(** [full] of [addJob] and [addJobsBulk]. *)
Definition full_job (now : string) (job : JobInput) : Job :=
  mkJob
    (list_to_map [("job_id", job_id job); ("board", board job); ("title", title job);
                  ("url", url job); ("location", location job);
                  ("department", department job); ("status", "discovered");
                  ("discovered_at", now); ("updated_at", now)])
    (extractTags (title job) (department job)).

(** The commands queued for one job: the hash, the board's job index, the
    status index and the tag indexes. *)
Definition addJob_cmds (now : string) (job : JobInput) : list Cmd :=
  let full := full_job now job in
  let ck := compositeKey (board job) (job_id job) in
  [ HSET (K.job (board job) (job_id job))
      (<["tags" := join "," (job_tags full)]> (job_fields full));
    SADD (K.boardJobsIdx (board job)) (job_id job);
    SADD (K.jobStatusIdx "discovered") ck ]
  ++ map (λ tag, SADD (K.tagIdx tag) ck) (job_tags full).

Definition addJob (r : Store) (now : string) (job : JobInput) : Store * Job :=
  (execPipe (addJob_cmds now job) r, full_job now job).

Definition addJobsBulk (r : Store) (now : string) (jobs : list JobInput)
    : Store * list Job :=
  match jobs with
  | [] => (r, [])
  | _ =>
      let newJobs :=
        List.filter (λ j, negb (exists_ r (K.job (board j) (job_id j)))) jobs in
      match newJobs with
      | [] => (r, [])
      | _ => (execPipe (flat_map (addJob_cmds now) newJobs) r, map (full_job now) newJobs)
      end
  end.

End Jobs.

Definition removeJob (r : Store) (board jobId : string) : Store * bool :=
  let key := K.job board jobId in
  let data := hgetall r key in
  if negb (truthy (data !! "job_id")) then (r, false)
  else
    let ck := compositeKey board jobId in
    let pipe :=
      when_truthy (data !! "status") (λ status, [SREM (K.jobStatusIdx status) ck])
      ++ when_truthy (data !! "tags")
           (λ tags, map (λ tag, SREM (K.tagIdx tag) ck) (split comma tags))
      ++ [SREM (K.boardJobsIdx board) jobId; DEL key] in
    (execPipe pipe r, true).

(** [data.tags ? data.tags.split(",") : []]. *)
Definition tags_of (data : gmap string string) : list string :=
  match data !! "tags" with
  | Some s => if truthy (Some s) then split comma s else []
  | None => []
  end.

(** [{ ...data, tags: ... }]: the property [tags] becomes the array. *)
Definition parseJobHash (data : gmap string string) : option Job :=
  if negb (truthy (data !! "job_id")) then None
  else Some (mkJob (delete "tags" data) (tags_of data)).

Definition updateJobStatus (r : Store) (now : string) (board jobId : string)
    (newStatus : JobStatus) : Store * option Job :=
  let key := K.job board jobId in
  let data := hgetall r key in
  if negb (truthy (data !! "job_id")) then (r, None)
  else
    let oldStatus := data !! "status" in
    let ck := compositeKey board jobId in
    let pipe :=
      [HSET key (list_to_map [("status", job_status_str newStatus); ("updated_at", now)])]
      ++ when_truthy oldStatus (λ old, [SREM (K.jobStatusIdx old) ck])
      ++ [SADD (K.jobStatusIdx (job_status_str newStatus)) ck] in
    (execPipe pipe r,
     Some (mkJob
             (<["updated_at" := now]>
                (<["status" := job_status_str newStatus]> (delete "tags" data)))
             (tags_of data))).

Definition getJob (r : Store) (board jobId : string) : option Job :=
  parseJobHash (hgetall r (K.job board jobId)).

Record ListOpts := mkListOpts {
  opt_board : option string;
  opt_status : option string;
  opt_tag : option string
}.

(** [const [board, jobId] = ck.split(":")] followed by
    [hgetall(K.job(board, jobId))] and [parseJobHash]. *)
Definition hydrate (r : Store) (ck : string) : option Job :=
  let parts := split colon ck in
  parseJobHash (hgetall r (K.job (interp (parts !! 0%nat)) (interp (parts !! 1%nat)))).

Definition listJobs (r : Store) (opts : ListOpts) : list Job :=
  let sets :=
    when_truthy (opt_board opts) (λ b, [K.boardJobsIdx b])
    ++ when_truthy (opt_status opts) (λ s, [K.jobStatusIdx s])
    ++ when_truthy (opt_tag opts) (λ t, [K.tagIdx t]) in
  let compositeKeys :=
    match sets with
    | [] =>
        flat_map (λ bid, map (λ jid, compositeKey bid jid) (smembers r (K.boardJobsIdx bid)))
          (smembers r K.boardsIdx)
    | _ =>
        if truthy (opt_board opts) then
          let b := interp (opt_board opts) in
          let boardCKs := map (λ jid, compositeKey b jid) (smembers r (K.boardJobsIdx b)) in
          if bool_decide (List.length sets = 1%nat) then boardCKs
          else
            let otherSets :=
              List.filter (λ s, negb (bool_decide (s = K.boardJobsIdx b))) sets in
            let members :=
              match otherSets with
              | [s] => smembers r s
              | _ => sinter r otherSets
              end in
            List.filter (λ ck, bool_decide (ck ∈ boardCKs)) members
        else
          match sets with
          | [s] => smembers r s
          | _ => sinter r sets
          end
    end in
  omap (hydrate r) compositeKeys.

(** ** Users *)

Definition upsertUser (r : Store) (now : string) (id : string) (resumes : list string)
    (answers : gmap string string) (tags : list string) : Store * User :=
  let pipe :=
    [ HSET_user (K.user id)
        (mkUserHash (Some id) (Some resumes) (Some answers) (Some tags) (Some now));
      SADD K.usersIdx id ] in
  (execPipe pipe r, mkUser id resumes answers tags (Some now)).

(** [JSON.parse(data.x || "[]")] and [JSON.parse(data.x || "{}")]: the
    value stored, the empty one when the field is absent. *)
Definition getUser (r : Store) (id : string) : option User :=
  let data := hgetall_user r (K.user id) in
  match uh_id data with
  | Some uid =>
      if truthy (Some uid) then
        Some (mkUser uid (default [] (uh_resumes data)) (default ∅ (uh_answers data))
                (default [] (uh_tags data)) (uh_updated_at data))
      else None
  | None => None
  end.

Definition listUsers (r : Store) : list User :=
  omap (getUser r) (smembers r K.usersIdx).

Record UserListOpts := mkUserListOpts {
  uopt_board : option string;
  uopt_status : option string
}.

Definition listJobsForUser (r : Store) (userId : string) (opts : UserListOpts) : list Job :=
  match getUser r userId with
  | None => []
  | Some user =>
      match user_tags user with
      | [] => []
      | _ =>
          let status :=
            if truthy (uopt_status opts) then interp (uopt_status opts) else "discovered" in
          let tagSets := map K.tagIdx (user_tags user) in
          let candidateKeys :=
            match tagSets with
            | [s] => smembers r s
            | _ => sunion r tagSets
            end in
          let statusMembers := smembers r (K.jobStatusIdx status) in
          let filtered :=
            List.filter (λ ck, bool_decide (ck ∈ statusMembers)) candidateKeys in
          let filtered :=
            if truthy (uopt_board opts) then
              List.filter (λ ck, startsWith ck (interp (uopt_board opts) +:+ ":")) filtered
            else filtered in
          omap (hydrate r) filtered
      end
  end.

(** ** Job runs *)

Definition LOCK_TTL_SECONDS : nat := 300.

Definition APPLICABLE_STATUSES : list string := ["discovered"; "queued"].

(** [APPLICABLE_STATUSES.has(status)]. *)
Definition applicable (status : option string) : bool :=
  match status with
  | Some s => bool_decide (s ∈ APPLICABLE_STATUSES)
  | None => false
  end.

(** [x || null] for a string field of a hash. *)
Definition or_null (v : option string) : option string :=
  if truthy v then v else None.

Definition parseRunHash (data : RunHash) : option JobRun :=
  if negb (truthy (h_run_id data)) then None
  else
    Some (mkJobRun (h_run_id data) (h_job_id data) (h_board data) (h_variant_id data)
            (h_status data) (h_started_at data) (or_null (h_completed_at data))
            (or_null (h_error data))
            (match h_artifacts data with
             | Some a => a
             | None => None
             end)).

Definition listRuns (r : Store) (jobId : option string) : list JobRun :=
  let runIds :=
    if truthy jobId then smembers r (K.jobRunsIdx (interp jobId))
    else smembers r K.runsAll in
  omap (λ rid, parseRunHash (hgetall_run r (K.run rid))) runIds.

(** [createRun]; [now] is the time it reads itself, [now2] the time the
    nested [updateJobStatus] reads. *)
Definition createRun (r : Store) (clock : nat) (now now2 : string) (run : RunInput)
    (artifacts : option RunArtifacts) : Store * CreateRunResult :=
  let lockKey := K.applyLock (run_board run) (run_job_id run) in
  let '(r1, locked) := set_ex_nx r clock lockKey (run_id run) LOCK_TTL_SECONDS in
  if negb locked then
    (r1, RunRejected "Job already has an active application in progress" 409)
  else
    match getJob r1 (run_board run) (run_job_id run) with
    | None => (del_lock r1 lockKey, RunRejected "Job not found" 404)
    | Some job =>
        if negb (applicable (job_status job)) then
          (del_lock r1 lockKey,
           RunRejected
             ("Job is in '" +:+ interp (job_status job)
              +:+ "' status — only discovered/queued jobs can be applied to") 400)
        else
          let full :=
            mkJobRun (Some (run_id run)) (Some (run_job_id run)) (Some (run_board run))
              (Some (variant_id run)) (Some "pending") (Some now) None None artifacts in
          let pipe :=
            [ HSET_run (K.run (run_id run))
                (mkRunHash (jr_run_id full) (jr_job_id full) (jr_board full)
                   (jr_variant_id full) (jr_status full) (jr_started_at full)
                   (Some "") (Some "") (Some (jr_artifacts full)));
              SADD (K.jobRunsIdx (run_job_id run)) (run_id run);
              SADD K.runsAll (run_id run) ] in
          let r2 := execPipe pipe r1 in
          let r3 :=
            if bool_decide (job_status job = Some "discovered") then
              fst (updateJobStatus r2 now2 (run_board run) (run_job_id run) queued)
            else r2 in
          (r3, RunCreated full)
    end.

Definition no_artifacts : RunArtifacts := mkArtifacts None None None None None.

(** [{ ...existing, ...update }] on artifacts; [existing] may be [null]. *)
Definition spread_artifacts (existing : option RunArtifacts) (update : RunArtifacts)
    : RunArtifacts :=
  match existing with
  | None => update
  | Some e =>
      mkArtifacts (over (resume_url update) (resume_url e))
        (over (cover_letter update) (cover_letter e))
        (over (answers update) (answers e))
        (over (confirmation_url update) (confirmation_url e))
        (over (notes update) (notes e))
  end.

Definition with_answers (a : RunArtifacts) (ans : gmap string string) : RunArtifacts :=
  mkArtifacts (resume_url a) (cover_letter a) (Some ans) (confirmation_url a) (notes a).

(** The merge of [updateRun]. Reading [existing.answers] when [existing] is
    [null] throws a TypeError; it is read only when the update carries
    [answers]. *)
Definition merge_artifacts (stored : option (option RunArtifacts)) (update : RunArtifacts)
    : Completion RunArtifacts :=
  let existing :=
    match stored with
    | Some e => e
    | None => Some no_artifacts
    end in
  let merged := spread_artifacts existing update in
  match answers update with
  | None => Return merged
  | Some ua =>
      match existing with
      | None => Throw "TypeError: Cannot read properties of null (reading 'answers')"
      | Some e =>
          match answers e with
          | Some ea => Return (with_answers merged (ua ∪ ea))
          | None => Return merged
          end
      end
  end.

Definition is_active (status : option string) : bool :=
  bool_decide (status = Some "pending") || bool_decide (status = Some "submitted").

(** [updateRun]; [now] is the time it reads itself, [now2] the time the
    nested [updateJobStatus] reads. *)
Definition updateRun (r : Store) (now now2 : string) (runId : string) (update : RunUpdate)
    : Store * Completion (option JobRun) :=
  let key := K.run runId in
  let data := hgetall_run r key in
  if negb (truthy (h_run_id data)) then (r, Return None)
  else
    let completed :=
      match upd_status update with
      | success | failed => Some now
      | _ => None
      end in
    let merged :=
      match upd_artifacts update with
      | Some ua =>
          match merge_artifacts (h_artifacts data) ua with
          | Return m => Return (Some (Some m))
          | Throw e => Throw e
          end
      | None => Return None
      end in
    match merged with
    | Throw e => (r, Throw e)
    | Return artifacts =>
        let fields :=
          mkRunHash None None None None (Some (run_status_str (upd_status update)))
            None completed (or_null (upd_error update)) artifacts in
        let r1 := exec (HSET_run key fields) r in
        let board := interp (h_board data) in
        let jobId := interp (h_job_id data) in
        let lockKey := K.applyLock board jobId in
        let r2 :=
          match upd_status update with
          | success => del_lock (fst (updateJobStatus r1 now2 board jobId applied)) lockKey
          | failed =>
              let siblingRuns := listRuns r1 (h_job_id data) in
              let hasActiveRun :=
                existsb
                  (λ sr, negb (bool_decide (jr_run_id sr = Some runId))
                         && is_active (jr_status sr))
                  siblingRuns in
              del_lock
                (if negb hasActiveRun then
                   fst (updateJobStatus r1 now2 board jobId discovered)
                 else r1)
                lockKey
          | _ => r1
          end in
        (r2, Return (parseRunHash (hgetall_run r2 key)))
    end.

(** ** Predicates of the specification *)

(** The job [(board, jobId)] has a hash in the store. *)
Definition job_exists (r : Store) (board jobId : string) : Prop :=
  truthy (hgetall r (K.job board jobId) !! "job_id") = true.

(** The run [runId] has a hash in the store. *)
Definition run_exists (r : Store) (runId : string) : Prop :=
  truthy (h_run_id (hgetall_run r (K.run runId))) = true.

(** The test [hasActiveRun] of [updateRun], as the code makes it: a run that
    [listRuns] returns for [jobId], other than [runId], is pending or
    submitted. [listRuns] reads [idx:job_runs:<job_id>], a key made of the
    job id alone, so the runs of every board that has a job of this id are
    among those listed. *)
Definition listed_active_run (r : Store) (jobId : option string) (runId : string) : Prop :=
  ∃ sr, sr ∈ listRuns r jobId ∧ jr_run_id sr ≠ Some runId
        ∧ (jr_status sr = Some "pending" ∨ jr_status sr = Some "submitted").

(** The sibling of the specification: a run of the same job, that is of
    the same board and job id, other than [runId], is pending or submitted.
    The runs are those of the index of all runs. *)
Definition sibling_active_run (r : Store) (board jobId : option string) (runId : string)
    : Prop :=
  ∃ sr, sr ∈ listRuns r None ∧ jr_run_id sr ≠ Some runId
        ∧ jr_board sr = board ∧ jr_job_id sr = jobId
        ∧ (jr_status sr = Some "pending" ∨ jr_status sr = Some "submitted").

(** The merge of the artifacts of [update] into those of the run does not
    throw: the update carries no artifacts, or artifacts without answers, or
    the run's stored artifacts are not [null]. *)
Definition merge_defined (r : Store) (runId : string) (update : RunUpdate) : Prop :=
  match upd_artifacts update with
  | None => True
  | Some ua =>
      answers ua = None ∨ h_artifacts (hgetall_run r (K.run runId)) ≠ Some None
  end.

(** The commands that write no run hash. *)
Definition not_run_cmd (c : Cmd) : Prop :=
  match c with
  | HSET_run _ _ => False
  | _ => True
  end.

(** The commands that write no hash of a board or of a job. *)
Definition not_hash_cmd (c : Cmd) : Prop :=
  match c with
  | HSET _ _ | DEL _ => False
  | _ => True
  end.

(** The commands that leave the hash at [key] as it is. *)
Definition keeps_hash (key : string) (c : Cmd) : Prop :=
  match c with
  | HSET k _ | DEL k => k ≠ key
  | _ => True
  end.

(** The commands that neither add [member] to the set at [key] nor take it
    out. *)
Definition keeps_member (key member : string) (c : Cmd) : Prop :=
  match c with
  | SADD k m | SREM k m => ¬ (k = key ∧ m = member)
  | DEL_set k => k ≠ key
  | _ => True
  end.

(** The commands that take nothing away. *)
Definition adds_only (c : Cmd) : Prop :=
  match c with
  | SREM _ _ | DEL _ | DEL_set _ => False
  | _ => True
  end.

(** The commands that write nothing: they delete, or take out a member. *)
Definition removes_only (c : Cmd) : Prop :=
  match c with
  | SREM _ _ | DEL _ | DEL_set _ => True
  | _ => False
  end.

(** The commands that leave the set at [key] as it is. *)
Definition keeps_set (key : string) (c : Cmd) : Prop :=
  match c with
  | SADD k _ | SREM k _ | DEL_set k => k ≠ key
  | _ => True
  end.

(** The commands that, when they write the hash at [key], write [status]
    into it, and that do not delete it. *)
Definition writes_status (key status : string) (c : Cmd) : Prop :=
  match c with
  | HSET k f => k = key → f !! "status" = Some status
  | DEL k => k ≠ key
  | _ => True
  end.

(** The answer of [createRun] when the lock is held. *)
Definition conflict : CreateRunResult :=
  RunRejected "Job already has an active application in progress" 409.

(** ** Sample data *)

(** A classifier to run the operations on: a tag per keyword found. *)
Definition sample_tags (title department : string) : list string :=
  (if String.prefix "Quant" title then ["quant"] else [])
  ++ (if bool_decide (department = "Trading") then ["trading"] else []).

Definition job42 : JobInput :=
  mkJobInput "42" "ramp" "Quant Trader" "https://ramp.com/jobs/42" "New York" "Trading".

Definition run_r1 : RunInput := mkRunInput "r1" "42" "ramp" "v1".
Definition run_r2 : RunInput := mkRunInput "r2" "42" "ramp" "v2".

(** One board. *)
Definition st_board : Store := fst (addBoard empty_store "t0" "ramp" "Ramp" "ashby").

(** The board with one discovered job. *)
Definition st_job : Store := fst (addJob sample_tags st_board "t1" job42).

(** The job claimed by run [r1] at time 100. *)
Definition st_claimed : Store := fst (createRun st_job 100 "t2" "t3" run_r1 None).

(** The artifacts of the scenario of §8. *)
Definition art_resume : RunArtifacts := mkArtifacts (Some "a") None None None None.
Definition art_notes : RunArtifacts := mkArtifacts None None None None (Some "b").
Definition art_answer_x : RunArtifacts :=
  mkArtifacts None None (Some {["x" := "1"]}) None None.
Definition art_answer_y : RunArtifacts :=
  mkArtifacts None None (Some {["y" := "2"]}) None None.

(** The job claimed by run [r1] with the resume as its first artifact. *)
Definition st_resume : Store :=
  fst (createRun st_job 100 "t2" "t3" run_r1 (Some art_resume)).

(** A user without interest tags beside the discovered job. *)
Definition st_user : Store := fst (upsertUser st_job "t2" "u1" ["cv.pdf"] ∅ []).

(** The applied job under another title, and a job not seen before. *)
Definition job42_retitled : JobInput :=
  mkJobInput "42" "ramp" "Quant Researcher" "https://ramp.com/jobs/42" "Remote" "Research".
Definition job43 : JobInput :=
  mkJobInput "43" "ramp" "Engineer" "https://ramp.com/jobs/43" "New York" "Platform".

(** The claimed job is added once more. *)
Definition st_readded : Store := fst (addJob sample_tags st_claimed "t8" job42).

(** The lock of [r1] has expired and run [r2] has claimed the job too. *)
Definition st_two_runs : Store :=
  fst (createRun st_claimed 500 "t6" "t7" run_r2 None).

(** Run [r1] has succeeded. *)
Definition st_applied : Store :=
  fst (updateRun st_claimed "t4" "t5" "r1" (mkRunUpdate success None None)).

(** ** The handler of [/api/crawler/jobs] *)

(** The fields of the JSON body that the branches below read, each a string
    or absent. *)
Record Body := mkBody {
  b_run_id : option string;
  b_job_id : option string;
  b_board : option string;
  b_status : option string;
  b_error : option string
}.

(** What [json(data, status)] is given. *)
Inductive Payload :=
| PError (error : string)
| PRun (run : JobRun)
| PJob (job : Job)
| PRemoved (board jobId : string).

Record Response := mkResponse {
  resp_data : Payload;
  resp_status : Z
}.

(** [json(data, status = 200)]. *)
Definition json (data : Payload) (status : Z) : Response := mkResponse data status.

Definition validRunStatuses : list string := ["pending"; "submitted"; "success"; "failed"].

Definition validStatuses : list string :=
  ["discovered"; "queued"; "applied"; "found"; "rejected"; "expired"].

(** A string that [validRunStatuses.includes] accepts, as the status it
    names. *)
Definition run_status_of (s : string) : option RunStatus :=
  if bool_decide (s = "pending") then Some pending
  else if bool_decide (s = "submitted") then Some submitted
  else if bool_decide (s = "success") then Some success
  else if bool_decide (s = "failed") then Some failed
  else None.

(** A string that [validStatuses.includes] accepts, as the status it names. *)
Definition job_status_of (s : string) : option JobStatus :=
  if bool_decide (s = "discovered") then Some discovered
  else if bool_decide (s = "queued") then Some queued
  else if bool_decide (s = "applied") then Some applied
  else if bool_decide (s = "found") then Some found
  else if bool_decide (s = "rejected") then Some rejected
  else if bool_decide (s = "expired") then Some expired
  else None.

(** The branch of the handler for the method PATCH; an error thrown inside
    is caught and answered with the status 500. *)
Definition handle_PATCH (r : Store) (now now2 : string) (body : Body) : Store * Response :=
  if truthy (b_run_id body) then
    if negb (truthy (b_status body)) then (r, json (PError "status is required") 400)
    else
      match run_status_of (interp (b_status body)) with
      | None =>
          (r, json (PError ("run status must be one of: " +:+ join ", " validRunStatuses))
                400)
      | Some status =>
          match updateRun r now now2 (interp (b_run_id body))
                  (mkRunUpdate status (b_error body) None) with
          | (r', Return None) => (r', json (PError "Run not found") 404)
          | (r', Return (Some updated)) => (r', json (PRun updated) 200)
          | (r', Throw e) => (r', json (PError e) 500)
          end
      end
  else if negb (truthy (b_board body)) || negb (truthy (b_job_id body))
          || negb (truthy (b_status body)) then
    (r, json (PError "board, job_id, and status are required (or run_id for runs)") 400)
  else
    match job_status_of (interp (b_status body)) with
    | None =>
        (r, json (PError ("job status must be one of: " +:+ join ", " validStatuses)) 400)
    | Some status =>
        match updateJobStatus r now (interp (b_board body)) (interp (b_job_id body))
                status with
        | (r', None) => (r', json (PError "Job not found") 404)
        | (r', Some updated) => (r', json (PJob updated) 200)
        end
    end.

(** The branch of the handler for the method DELETE. *)
Definition handle_DELETE (r : Store) (body : Body) : Store * Response :=
  if negb (truthy (b_board body)) || negb (truthy (b_job_id body)) then
    (r, json (PError "board and job_id are required") 400)
  else
    match removeJob r (interp (b_board body)) (interp (b_job_id body)) with
    | (r', false) => (r', json (PError "Job not found") 404)
    | (r', true) =>
        (r', json (PRemoved (interp (b_board body)) (interp (b_job_id body))) 200)
    end.

(** The fields of the JSON body that the POST of a single job reads. *)
Record JobBody := mkJobBody {
  jb_job_id : option string;
  jb_board : option string;
  jb_title : option string;
  jb_url : option string;
  jb_location : option string;
  jb_department : option string
}.

(** [v || ""] for a string field of the body. *)
Definition or_empty (v : option string) : string := if truthy v then interp v else "".

(** The job the POST of a single job hands to [addJob]. *)
Definition posted_job (body : JobBody) : JobInput :=
  mkJobInput (interp (jb_job_id body)) (interp (jb_board body)) (or_empty (jb_title body))
    (or_empty (jb_url body)) (or_empty (jb_location body)) (or_empty (jb_department body)).

(** The branch of the handler for the method POST, for a body with no
    action and no array of jobs. *)
Definition handle_POST_job (extractTags : string → string → list string) (r : Store)
    (now : string) (body : JobBody) : Store * Response :=
  if negb (truthy (jb_job_id body)) || negb (truthy (jb_board body)) then
    (r, json (PError "job_id and board are required (or provide action/jobs)") 400)
  else
    let '(r', job) := addJob extractTags r now (posted_job body) in
    (r', json (PJob job) 201).

(** ** Further predicates *)

(** The character [c] occurs in [s]. *)
Fixpoint contains (c : ascii) (s : string) : bool :=
  match s with
  | EmptyString => false
  | String c' rest => bool_decide (c' = c) || contains c rest
  end.

(** Tags that survive [tags.join(",")] followed by [split(",")]: none is
    empty and none holds a comma. *)
Definition plain_tags (tags : list string) : Prop :=
  Forall (λ t, t ≠ "" ∧ contains comma t = false) tags.

(** The code of a rejection, none for a created run. *)
Definition rejection_code (res : CreateRunResult) : option Z :=
  match res with
  | RunCreated _ => None
  | RunRejected _ code => Some code
  end.

(** The composite keys [listJobs] hydrates for the filters [opts]: those of
    the board's job index when a board is given, of every board when no
    filter is given, within the status index and the tag index given. *)
Definition listed_key (r : Store) (opts : ListOpts) (ck : string) : Prop :=
  (if truthy (opt_board opts) then
     ∃ jid, jid ∈ smembers_set r (K.boardJobsIdx (interp (opt_board opts)))
            ∧ ck = compositeKey (interp (opt_board opts)) jid
   else if truthy (opt_status opts) || truthy (opt_tag opts) then True
   else ∃ bid jid, bid ∈ smembers_set r K.boardsIdx
                   ∧ jid ∈ smembers_set r (K.boardJobsIdx bid)
                   ∧ ck = compositeKey bid jid)
  ∧ (truthy (opt_status opts) = true →
     ck ∈ smembers_set r (K.jobStatusIdx (interp (opt_status opts))))
  ∧ (truthy (opt_tag opts) = true →
     ck ∈ smembers_set r (K.tagIdx (interp (opt_tag opts)))).

(** The composite keys [listJobsForUser] hydrates: in the tag index of one
    of the user's tags, in the index of the status asked for, discovered by
    default, and starting with the board asked for, if any. *)
Definition user_key (r : Store) (tags : list string) (opts : UserListOpts) (ck : string)
    : Prop :=
  (∃ t, t ∈ tags ∧ ck ∈ smembers_set r (K.tagIdx t))
  ∧ ck ∈ smembers_set r
           (K.jobStatusIdx
              (if truthy (uopt_status opts) then interp (uopt_status opts)
               else "discovered"))
  ∧ (truthy (uopt_board opts) = true →
     startsWith ck (interp (uopt_board opts) +:+ ":") = true).

(** The hash of the job of composite key [ck]. *)
Definition job_hash (r : Store) (ck : string) : gmap string string :=
  hgetall r ("job:" +:+ ck).

(** The status indexes agree with the hashes: a composite key in the index
    of a status is that of a job with this status in its hash, and every
    job has a non-empty status and its composite key in the index of it. *)
Definition status_index_consistent (r : Store) : Prop :=
  (∀ ck s, ck ∈ smembers_set r (K.jobStatusIdx s) →
           truthy (job_hash r ck !! "job_id") = true ∧ job_hash r ck !! "status" = Some s)
  ∧ (∀ ck, truthy (job_hash r ck !! "job_id") = true →
           ∃ s, job_hash r ck !! "status" = Some s ∧ s ≠ ""
                ∧ ck ∈ smembers_set r (K.jobStatusIdx s)).


Section Reachable.

(** The tag classifier, as for [addJob]. *)
Variable extractTags : string → string → list string.

(** The stores the operations of the module lead to from the empty store,
    [addJob] being used on jobs without a hash and [addJob] and
    [addJobsBulk] on jobs with a non-empty id. *)
Inductive reachable : Store → Prop :=
| reach_empty : reachable empty_store
| reach_addBoard r now id company ats :
    reachable r → reachable (fst (addBoard r now id company ats))
| reach_removeBoard r id :
    reachable r → reachable (fst (removeBoard r id))
| reach_addJob r now job :
    reachable r → job_id job ≠ "" →
    exists_ r (K.job (board job) (job_id job)) = false →
    reachable (fst (addJob extractTags r now job))
| reach_addJobsBulk r now jobs :
    reachable r → Forall (λ job, job_id job ≠ "") jobs →
    reachable (fst (addJobsBulk extractTags r now jobs))
| reach_removeJob r b j :
    reachable r → reachable (fst (removeJob r b j))
| reach_updateJobStatus r now b j st :
    reachable r → reachable (fst (updateJobStatus r now b j st))
| reach_createRun r clock now now2 run a :
    reachable r → reachable (fst (createRun r clock now now2 run a))
| reach_updateRun r now now2 runId update :
    reachable r → reachable (fst (updateRun r now now2 runId update))
| reach_upsertUser r now id resumes answers tags :
    reachable r → reachable (fst (upsertUser r now id resumes answers tags)).

End Reachable.

(** ** Reading boards *)

(** [data.id ? data : null]: the hash itself is handed out as the board. *)
Definition getBoard (r : Store) (id : string) : option (gmap string string) :=
  let data := hgetall r (K.board id) in
  if truthy (data !! "id") then Some data else None.

Definition listBoards (r : Store) : list (gmap string string) :=
  let ids := smembers r K.boardsIdx in
  match ids with
  | [] => []
  | _ =>
      omap (λ id, let data := hgetall r (K.board id) in
                  if truthy (data !! "id") then Some data else None) ids
  end.

(** ** Sequences of operations *)

(** A call of one of the writing functions of the module, with the times
    it reads. *)
Inductive Op :=
| OpAddBoard (now id company ats : string)
| OpRemoveBoard (id : string)
| OpAddJob (now : string) (job : JobInput)
| OpAddJobsBulk (now : string) (jobs : list JobInput)
| OpRemoveJob (board jobId : string)
| OpUpdateJobStatus (now board jobId : string) (status : JobStatus)
| OpCreateRun (clock : nat) (now now2 : string) (run : RunInput)
    (artifacts : option RunArtifacts)
| OpUpdateRun (now now2 runId : string) (update : RunUpdate)
| OpUpsertUser (now id : string) (resumes : list string) (answers : gmap string string)
    (tags : list string).

(** The store a call leaves. *)
Definition apply_op (extractTags : string → string → list string) (o : Op) (r : Store)
    : Store :=
  match o with
  | OpAddBoard now id company ats => fst (addBoard r now id company ats)
  | OpRemoveBoard id => fst (removeBoard r id)
  | OpAddJob now job => fst (addJob extractTags r now job)
  | OpAddJobsBulk now jobs => fst (addJobsBulk extractTags r now jobs)
  | OpRemoveJob b j => fst (removeJob r b j)
  | OpUpdateJobStatus now b j st => fst (updateJobStatus r now b j st)
  | OpCreateRun clock now now2 run a => fst (createRun r clock now now2 run a)
  | OpUpdateRun now now2 runId update => fst (updateRun r now now2 runId update)
  | OpUpsertUser now id resumes answers tags =>
      fst (upsertUser r now id resumes answers tags)
  end.

(** The store after the calls [ops], made one after the other. *)
Definition run_ops (extractTags : string → string → list string) (ops : list Op)
    (r : Store) : Store :=
  foldl (λ acc o, apply_op extractTags o acc) r ops.

(** Every run with a hash carries its own id and a job id, and is in the
    index of all runs and in the run index of that job id. *)
Definition runs_indexed (r : Store) : Prop :=
  ∀ rid, truthy (h_run_id (hgetall_run r (K.run rid))) = true →
    h_run_id (hgetall_run r (K.run rid)) = Some rid
    ∧ rid ∈ smembers_set r K.runsAll
    ∧ ∃ j, h_job_id (hgetall_run r (K.run rid)) = Some j
           ∧ rid ∈ smembers_set r (K.jobRunsIdx j).

(** The commands that write no run hash and take nothing out of a run
    index. *)
Definition keeps_runs (c : Cmd) : Prop :=
  match c with
  | HSET_run _ _ => False
  | SREM k _ | DEL_set k => k ≠ K.runsAll ∧ ∀ j, k ≠ K.jobRunsIdx j
  | _ => True
  end.

(** A step from [r] to [r'] that keeps the runs: the invariant goes over,
    and so does every run with a hash. *)
Definition runs_kept (r r' : Store) : Prop :=
  runs_indexed r →
  runs_indexed r'
  ∧ ∀ rid, truthy (h_run_id (hgetall_run r (K.run rid))) = true →
           truthy (h_run_id (hgetall_run r' (K.run rid))) = true.

(** Every job with a hash is stored under the composite key of a board and
    a job id without colons. *)
Definition plain_keys (r : Store) : Prop :=
  ∀ ck, truthy (job_hash r ck !! "job_id") = true →
        ∃ b j, ck = compositeKey b j
               ∧ contains colon b = false ∧ contains colon j = false.

(** Every job with a hash carries the board and the job id of the
    composite key it is stored under. *)
Definition fields_match (r : Store) : Prop :=
  ∀ ck, truthy (job_hash r ck !! "job_id") = true →
        ∃ b j, ck = compositeKey b j
               ∧ job_hash r ck !! "board" = Some b
               ∧ job_hash r ck !! "job_id" = Some j.

(** A step that leaves the board and the job id in every job hash. *)
Definition same_job_ids (r r' : Store) : Prop :=
  ∀ ck, job_hash r' ck !! "board" = job_hash r ck !! "board"
        ∧ job_hash r' ck !! "job_id" = job_hash r ck !! "job_id".

(** ** Further sample data *)

(** Run [r1] has failed, with no other run of the job. *)
Definition st_failed : Store :=
  fst (updateRun st_claimed "t4" "t5" "r1" (mkRunUpdate failed (Some "timeout") None)).

(** A user interested in quantitative jobs beside the discovered job. *)
Definition st_quant_user : Store :=
  fst (upsertUser st_job "t2" "u2" ["cv.pdf"] ∅ ["quant"; "ml"]).

(** A board with a job is registered, the job is claimed by run [r1], and
    the board is removed. *)
Definition ops_claimed : list Op :=
  [ OpAddBoard "t0" "ramp" "Ramp" "ashby"; OpAddJob "t1" job42;
    OpCreateRun 100 "t2" "t3" run_r1 None ].

Definition ops_board_removed : list Op := ops_claimed ++ [OpRemoveBoard "ramp"].

(** Two boards list a job under the same id [42]; run [r1] has claimed the
    job of the board [ramp], run [v1] that of the board [vercel]. *)
Definition job42_vercel : JobInput :=
  mkJobInput "42" "vercel" "Engineer" "https://vercel.com/jobs/42" "Remote" "Platform".

Definition run_v1 : RunInput := mkRunInput "v1" "42" "vercel" "v1".

Definition st_two_boards : Store :=
  fst (createRun
         (fst (addJob sample_tags
                 (fst (addBoard st_claimed "t4" "vercel" "Vercel" "greenhouse"))
                 "t5" job42_vercel))
         110 "t6" "t7" run_v1 None).



(** ** Key families *)

(** Two keys of different families differ in their first characters. *)
Ltac distinct_keys :=
  unfold K.board, K.boardsIdx, K.job, K.boardJobsIdx, K.jobStatusIdx, K.tagIdx, K.run,
    K.jobRunsIdx, K.runsAll, K.applyLock, K.user, K.usersIdx;
  simpl; repeat intro;
  match goal with
  | H : _ = _ |- _ => discriminate H
  end.

Lemma jobRunsIdx_not_status j s : K.jobRunsIdx j ≠ K.jobStatusIdx s.
Proof. distinct_keys. Qed.

Lemma runsAll_not_status s : K.runsAll ≠ K.jobStatusIdx s.
Proof. distinct_keys. Qed.

Lemma boardJobsIdx_not_status b s : K.boardJobsIdx b ≠ K.jobStatusIdx s.
Proof. distinct_keys. Qed.

Lemma boardJobsIdx_not_tag b t : K.boardJobsIdx b ≠ K.tagIdx t.
Proof. distinct_keys. Qed.

Lemma jobStatusIdx_inj s1 s2 : K.jobStatusIdx s1 = K.jobStatusIdx s2 → s1 = s2.
Proof. unfold K.jobStatusIdx. apply String.app_inj. Qed.

Lemma boardJobsIdx_inj b1 b2 : K.boardJobsIdx b1 = K.boardJobsIdx b2 → b1 = b2.
Proof. unfold K.boardJobsIdx. apply String.app_inj. Qed.

Lemma job_compositeKey b j : K.job b j = "job:" +:+ compositeKey b j.
Proof. reflexivity. Qed.

Lemma compositeKey_job b1 j1 b2 j2 :
  compositeKey b1 j1 = compositeKey b2 j2 → K.job b1 j1 = K.job b2 j2.
Proof. intros H. by rewrite !job_compositeKey, H. Qed.

(** ** The commands and what they leave alone *)

Lemma execPipe_cons c pipe r : execPipe (c :: pipe) r = execPipe pipe (exec c r).
Proof. reflexivity. Qed.

Lemma execPipe_app p q r : execPipe (p ++ q) r = execPipe q (execPipe p r).
Proof. unfold execPipe. apply foldl_app. Qed.

Lemma exec_locks c r : locks (exec c r) = locks r.
Proof. by destruct c. Qed.

Lemma execPipe_locks pipe r : locks (execPipe pipe r) = locks r.
Proof.
  revert r. induction pipe as [|c pipe IH]; intros r; [done|].
  rewrite execPipe_cons, IH. apply exec_locks.
Qed.

Lemma execPipe_runs pipe r : Forall not_run_cmd pipe → runs (execPipe pipe r) = runs r.
Proof.
  revert r. induction pipe as [|c pipe IH]; intros r Hp; [done|].
  inversion Hp as [|? ? Hc Hrest]; subst.
  rewrite execPipe_cons, IH by done. by destruct c.
Qed.

Lemma execPipe_hashes pipe r : Forall not_hash_cmd pipe → hashes (execPipe pipe r) = hashes r.
Proof.
  revert r. induction pipe as [|c pipe IH]; intros r Hp; [done|].
  inversion Hp as [|? ? Hc Hrest]; subst.
  rewrite execPipe_cons, IH by done. by destruct c.
Qed.

Lemma when_truthy_Forall {A} (P : A → Prop) v (f : string → list A) :
  (∀ s, Forall P (f s)) → Forall P (when_truthy v f).
Proof.
  intros Hf. unfold when_truthy. destruct v as [s|]; [|constructor].
  destruct (truthy (Some s)); [apply Hf|constructor].
Qed.

Lemma updateJobStatus_locks r now b j st :
  locks (fst (updateJobStatus r now b j st)) = locks r.
Proof.
  unfold updateJobStatus. destruct (negb _); [done|]. cbn [fst].
  apply execPipe_locks.
Qed.

Lemma updateJobStatus_runs r now b j st :
  runs (fst (updateJobStatus r now b j st)) = runs r.
Proof.
  unfold updateJobStatus. destruct (negb _); [done|]. cbn [fst].
  apply execPipe_runs. unfold when_truthy.
  destruct (_ !! "status") as [s|]; [destruct (truthy (Some s))|];
    repeat constructor.
Qed.

(** ** The apply lock *)

Lemma live_lock_lookup r key clock v deadline :
  locks r !! key = Some (v, deadline) → clock < deadline →
  live_lock r key clock = Some v.
Proof.
  intros Hl Hc. unfold live_lock. rewrite Hl. by rewrite decide_True.
Qed.

Lemma createRun_conflict r clock now now2 run a v :
  live_lock r (K.applyLock (run_board run) (run_job_id run)) clock = Some v →
  createRun r clock now now2 run a = (r, conflict).
Proof.
  intros Hl. unfold createRun, set_ex_nx. by rewrite Hl.
Qed.

Lemma createRun_created_lock r clock now now2 run a r1 full :
  createRun r clock now now2 run a = (r1, RunCreated full) →
  locks r1 !! K.applyLock (run_board run) (run_job_id run)
  = Some (run_id run, clock + LOCK_TTL_SECONDS).
Proof.
  unfold createRun, set_ex_nx.
  destruct (live_lock _ _ _); [done|]. simpl negb. cbv iota.
  destruct (getJob _ _ _) as [job|]; [|done].
  destruct (negb (applicable _)); [done|].
  intros [= <- _].
  destruct (bool_decide _); rewrite ?updateJobStatus_locks; simpl;
    apply lookup_insert_eq.
Qed.

(** C1. Mutual exclusion of the apply lock: once a [createRun] for
    [(board, job_id)] has succeeded at time [clock0], then in every store
    that still holds the lock it wrote, and at every time before
    [clock0 + 300], a [createRun] for the same [(board, job_id)] is answered
    with the conflict result, code 409, and leaves the store as it found it,
    whatever the jobs in that store are. *)
Theorem createRun_mutual_exclusion r clock0 now0 now0' run a r1 full :
  createRun r clock0 now0 now0' run a = (r1, RunCreated full) →
  ∀ r2 clock now now' run2 a2,
    run_board run2 = run_board run →
    run_job_id run2 = run_job_id run →
    locks r2 !! K.applyLock (run_board run) (run_job_id run)
    = locks r1 !! K.applyLock (run_board run) (run_job_id run) →
    clock < clock0 + 300 →
    createRun r2 clock now now' run2 a2
    = (r2, RunRejected "Job already has an active application in progress" 409).
Proof.
  intros Hc r2 clock now now' run2 a2 Hb Hj Hkeep Hclock.
  apply createRun_created_lock in Hc. rewrite Hc in Hkeep.
  apply (createRun_conflict _ _ _ _ _ _ (run_id run)).
  rewrite Hb, Hj. by eapply live_lock_lookup.
Qed.

Lemma createRun_mutual_exclusion_witness :
  createRun st_claimed 399 "t6" "t7" run_r2 None
  = (st_claimed, RunRejected "Job already has an active application in progress" 409).
Proof.
  apply (createRun_mutual_exclusion st_job 100 "t2" "t3" run_r1 None st_claimed
           (mkJobRun (Some "r1") (Some "42") (Some "ramp") (Some "v1") (Some "pending")
              (Some "t2") None None None)).
  - vm_compute. reflexivity.
  - reflexivity.
  - reflexivity.
  - reflexivity.
  - lia.
Defined.

Lemma del_lock_set_locks r key v :
  del_lock (set_locks (insert key v) r) key = del_lock r key.
Proof.
  unfold del_lock, set_locks. simpl. f_equal. apply delete_insert_eq.
Qed.

(** C2. The three rejections of [createRun]: with the lock held the answer
    is the conflict, code 409, and the store is untouched; with the lock
    taken and the job absent the answer is not-found, code 404; with the
    lock taken and the job in a status other than discovered and queued the
    answer is the bad-state one, code 400. In the last two cases the store
    returned is the given one with the lock key deleted. *)
Theorem createRun_rejections r clock now now2 run a :
  let lockKey := K.applyLock (run_board run) (run_job_id run) in
  (is_Some (live_lock r lockKey clock) →
   createRun r clock now now2 run a
   = (r, RunRejected "Job already has an active application in progress" 409))
  ∧ (live_lock r lockKey clock = None →
     getJob r (run_board run) (run_job_id run) = None →
     createRun r clock now now2 run a
     = (del_lock r lockKey, RunRejected "Job not found" 404)
     ∧ locks (del_lock r lockKey) !! lockKey = None)
  ∧ (live_lock r lockKey clock = None →
     ∀ job, getJob r (run_board run) (run_job_id run) = Some job →
     job_status job ≠ Some "discovered" → job_status job ≠ Some "queued" →
     (∃ msg, createRun r clock now now2 run a
             = (del_lock r lockKey, RunRejected msg 400))
     ∧ locks (del_lock r lockKey) !! lockKey = None).
Proof.
  intros lockKey. split; [|split].
  - intros [v Hv]. by apply (createRun_conflict _ _ _ _ _ _ v).
  - intros Hl Hj. split; [|apply lookup_delete_eq].
    unfold createRun, set_ex_nx. fold lockKey. rewrite Hl. simpl negb. cbv iota.
    change (getJob (set_locks _ r)) with (getJob r). rewrite Hj.
    by rewrite del_lock_set_locks.
  - intros Hl job Hj Hd Hq. split; [|apply lookup_delete_eq].
    unfold createRun, set_ex_nx. fold lockKey. rewrite Hl. simpl negb. cbv iota.
    change (getJob (set_locks _ r)) with (getJob r). rewrite Hj.
    assert (applicable (job_status job) = false) as ->.
    { unfold applicable, APPLICABLE_STATUSES. destruct (job_status job) as [s|]; [|done].
      apply bool_decide_eq_false. intros Hin.
      apply elem_of_cons in Hin as [->|Hin]; [done|].
      apply list_elem_of_singleton in Hin as ->. done. }
    simpl negb. cbv iota. rewrite del_lock_set_locks. eauto.
Qed.

Lemma createRun_rejections_witness :
  createRun st_claimed 200 "t6" "t7" run_r2 None
  = (st_claimed, RunRejected "Job already has an active application in progress" 409)
  ∧ createRun st_board 100 "t2" "t3" run_r1 None
    = (del_lock st_board (K.applyLock "ramp" "42"), RunRejected "Job not found" 404)
  ∧ ∃ msg, createRun st_applied 500 "t6" "t7" run_r2 None
           = (del_lock st_applied (K.applyLock "ramp" "42"), RunRejected msg 400).
Proof.
  split; [|split].
  - apply (createRun_rejections st_claimed 200 "t6" "t7" run_r2 None).
    exists "r1". vm_compute. reflexivity.
  - apply (createRun_rejections st_board 100 "t2" "t3" run_r1 None).
    + vm_compute. reflexivity.
    + vm_compute. reflexivity.
  - eapply (createRun_rejections st_applied 500 "t6" "t7" run_r2 None).
    + vm_compute. reflexivity.
    + vm_compute. reflexivity.
    + vm_compute. intros H. discriminate H.
    + vm_compute. intros H. discriminate H.
Defined.

(** ** Index sets under the commands *)

Lemma smembers_set_SADD r k m k' :
  smembers_set (exec (SADD k m) r) k'
  = if decide (k = k') then {[m]} ∪ smembers_set r k else smembers_set r k'.
Proof.
  unfold smembers_set at 1. simpl. destruct (decide (k = k')) as [->|Hne].
  - by rewrite lookup_insert_eq.
  - by rewrite lookup_insert_ne.
Qed.

Lemma smembers_set_SREM r k m k' :
  smembers_set (exec (SREM k m) r) k'
  = if decide (k = k') then smembers_set r k ∖ {[m]} else smembers_set r k'.
Proof.
  unfold smembers_set at 1. simpl. unfold store_set.
  destruct (decide (k = k')) as [->|Hne].
  - destruct (decide (_ = ∅)) as [He|He].
    + by rewrite lookup_delete_eq, He.
    + by rewrite lookup_insert_eq.
  - destruct (decide (_ = ∅)); [by rewrite lookup_delete_ne|by rewrite lookup_insert_ne].
Qed.

Lemma hgetall_HSET r k f k' :
  hgetall (exec (HSET k f) r) k'
  = if decide (k = k') then f ∪ hgetall r k else hgetall r k'.
Proof.
  unfold hgetall at 1. simpl. destruct (decide (k = k')) as [->|Hne].
  - by rewrite lookup_insert_eq.
  - by rewrite lookup_insert_ne.
Qed.

(** Membership in an index set after one command. *)
Lemma elem_of_exec c r k m :
  m ∈ smembers_set (exec c r) k ↔
  match c with
  | SADD k' m' => (k' = k ∧ m' = m) ∨ m ∈ smembers_set r k
  | SREM k' m' => m ∈ smembers_set r k ∧ ¬ (k' = k ∧ m' = m)
  | DEL_set k' => k' ≠ k ∧ m ∈ smembers_set r k
  | _ => m ∈ smembers_set r k
  end.
Proof.
  destruct c as [| | |k' m'|k' m'| |k']; try reflexivity.
  - rewrite smembers_set_SADD. destruct (decide (k' = k)) as [->|Hne].
    + rewrite elem_of_union, elem_of_singleton. naive_solver.
    + naive_solver.
  - rewrite smembers_set_SREM. destruct (decide (k' = k)) as [->|Hne].
    + rewrite elem_of_difference, elem_of_singleton. naive_solver.
    + naive_solver.
  - unfold smembers_set. simpl. destruct (decide (k' = k)) as [->|Hne].
    + rewrite lookup_delete_eq. simpl. rewrite elem_of_empty. naive_solver.
    + rewrite lookup_delete_ne by done. naive_solver.
Qed.

(** The hash of a key after one command. *)
Lemma hgetall_exec c r k :
  hgetall (exec c r) k
  = match c with
    | HSET k' f => if decide (k' = k) then f ∪ hgetall r k else hgetall r k
    | DEL k' => if decide (k' = k) then ∅ else hgetall r k
    | _ => hgetall r k
    end.
Proof.
  destruct c as [k' f| | | | |k'|]; try reflexivity.
  - rewrite hgetall_HSET. by destruct (decide (k' = k)) as [->|].
  - unfold hgetall. simpl. destruct (decide (k' = k)) as [->|Hne].
    + by rewrite lookup_delete_eq.
    + by rewrite lookup_delete_ne.
Qed.

(** [updateJobStatus] on a job that exists: the hash carries the new status. *)
Lemma updateJobStatus_status r now b j st :
  job_exists r b j →
  hgetall (fst (updateJobStatus r now b j st)) (K.job b j) !! "status"
  = Some (job_status_str st).
Proof.
  unfold job_exists. intros He. unfold updateJobStatus. rewrite He. simpl negb.
  cbv iota. cbn [fst]. rewrite execPipe_app.
  set (fields := list_to_map _).
  assert (fields !! "status" = Some (job_status_str st)) as Hf by done.
  unfold hgetall. rewrite execPipe_hashes.
  - cbn [execPipe foldl]. simpl. rewrite lookup_insert_eq. simpl.
    rewrite lookup_union, Hf. by destruct (hgetall r _ !! "status").
  - apply Forall_app. split; [|repeat constructor].
    apply when_truthy_Forall. intros s. repeat constructor.
Qed.

(** [updateJobStatus] on a job that exists, seen from the index sets: the
    composite key enters the index of the new status, after it has left the
    index of the status the hash carried. *)
Lemma updateJobStatus_member r now b j st k m :
  job_exists r b j →
  m ∈ smembers_set (fst (updateJobStatus r now b j st)) k ↔
  (k = K.jobStatusIdx (job_status_str st) ∧ m = compositeKey b j)
  ∨ (m ∈ smembers_set r k
     ∧ ¬ (∃ old, hgetall r (K.job b j) !! "status" = Some old ∧ old ≠ ""
                 ∧ k = K.jobStatusIdx old ∧ m = compositeKey b j)).
Proof.
  unfold job_exists. intros He. unfold updateJobStatus. rewrite He. simpl negb.
  cbv iota. cbn [fst]. unfold when_truthy, truthy.
  destruct (hgetall r (K.job b j) !! "status") as [old|] eqn:Hold.
  - destruct (decide (old = "")) as [->|Hne].
    + rewrite bool_decide_eq_true_2 by done. simpl negb. cbv iota. cbn [app].
      rewrite !execPipe_cons. change (execPipe [] ?x) with x.
      rewrite !elem_of_exec. naive_solver.
    + rewrite bool_decide_eq_false_2 by done. simpl negb. cbv iota. cbn [app].
      rewrite !execPipe_cons. change (execPipe [] ?x) with x.
      rewrite !elem_of_exec. naive_solver.
  - cbn [app]. rewrite !execPipe_cons. change (execPipe [] ?x) with x.
    rewrite !elem_of_exec. naive_solver.
Qed.

Lemma updateJobStatus_other_sets r now b j st k :
  (∀ s, k ≠ K.jobStatusIdx s) →
  smembers_set (fst (updateJobStatus r now b j st)) k = smembers_set r k.
Proof.
  intros Hk. destruct (truthy (hgetall r (K.job b j) !! "job_id")) eqn:He.
  - apply set_eq. intros m. rewrite updateJobStatus_member by done.
    split; [|naive_solver]. intros [[-> _]|[? _]]; [|done].
    by destruct (Hk (job_status_str st)).
  - unfold updateJobStatus. by rewrite He.
Qed.

Lemma job_status_hash r b j job :
  getJob r b j = Some job →
  job_exists r b j ∧ job_status job = hgetall r (K.job b j) !! "status".
Proof.
  unfold getJob, parseJobHash, job_exists.
  destruct (truthy (hgetall r (K.job b j) !! "job_id")); [|done].
  simpl. intros [= <-]. split; [done|].
  unfold job_status. simpl. by rewrite lookup_delete_ne.
Qed.

Lemma job_exists_hashes r r' b j :
  hashes r' = hashes r → job_exists r b j → job_exists r' b j.
Proof. unfold job_exists, hgetall. by intros ->. Qed.

(** ** Creating a run *)

(** C4. The success of [createRun]: with the lock free, the job present and
    its status discovered or queued, [createRun] answers with the run,
    pending and started at [now]; the run's hash holds that status and that
    time, the run id is in the job's run index and in the global run index;
    a discovered job has become queued, in its hash and in the status
    indexes, and a queued job is left as it was. *)
Theorem createRun_success r clock now now2 run a job :
  live_lock r (K.applyLock (run_board run) (run_job_id run)) clock = None →
  getJob r (run_board run) (run_job_id run) = Some job →
  job_status job = Some "discovered" ∨ job_status job = Some "queued" →
  ∃ r',
    createRun r clock now now2 run a
    = (r', RunCreated
             (mkJobRun (Some (run_id run)) (Some (run_job_id run)) (Some (run_board run))
                (Some (variant_id run)) (Some "pending") (Some now) None None a))
    ∧ hgetall_run r' (K.run (run_id run))
      = mkRunHash (Some (run_id run)) (Some (run_job_id run)) (Some (run_board run))
          (Some (variant_id run)) (Some "pending") (Some now) (Some "") (Some "")
          (Some a)
    ∧ run_id run ∈ smembers_set r' (K.jobRunsIdx (run_job_id run))
    ∧ run_id run ∈ smembers_set r' K.runsAll
    ∧ (job_status job = Some "discovered" →
       hgetall r' (K.job (run_board run) (run_job_id run)) !! "status" = Some "queued"
       ∧ compositeKey (run_board run) (run_job_id run)
         ∈ smembers_set r' (K.jobStatusIdx "queued")
       ∧ compositeKey (run_board run) (run_job_id run)
         ∉ smembers_set r' (K.jobStatusIdx "discovered"))
    ∧ (job_status job = Some "queued" → hashes r' = hashes r).
Proof.
  intros Hl Hj Hst.
  destruct (job_status_hash _ _ _ _ Hj) as [Hex Hstatus].
  unfold createRun, set_ex_nx. rewrite Hl. simpl negb. cbv iota.
  change (getJob (set_locks _ r)) with (getJob r). rewrite Hj.
  assert (applicable (job_status job) = true) as ->.
  { destruct Hst as [-> | ->]; reflexivity. }
  simpl negb. cbv iota.
  set (r1 := set_locks _ r).
  set (pipe := [_; _; _]).
  set (r2 := execPipe pipe r1).
  assert (hashes r2 = hashes r) as Hh by reflexivity.
  assert (hgetall_run r2 (K.run (run_id run))
          = mkRunHash (Some (run_id run)) (Some (run_job_id run)) (Some (run_board run))
              (Some (variant_id run)) (Some "pending") (Some now) (Some "") (Some "")
              (Some a)) as Hrun.
  { unfold hgetall_run, r2, pipe. simpl. by rewrite lookup_insert_eq. }
  assert (run_id run ∈ smembers_set r2 (K.jobRunsIdx (run_job_id run))) as Hidx.
  { unfold r2, pipe. rewrite !execPipe_cons. change (execPipe [] ?x) with x.
    rewrite !elem_of_exec. auto. }
  assert (run_id run ∈ smembers_set r2 K.runsAll) as Hall.
  { unfold r2, pipe. rewrite !execPipe_cons. change (execPipe [] ?x) with x.
    rewrite !elem_of_exec. auto. }
  eexists. split; [reflexivity|].
  destruct Hst as [Hd|Hq].
  - rewrite Hd. rewrite bool_decide_eq_true_2 by done.
    assert (job_exists r2 (run_board run) (run_job_id run)) as Hex2
      by (by apply (job_exists_hashes r)).
    split; [|split; [|split; [|split]]].
    + unfold hgetall_run. rewrite updateJobStatus_runs. apply Hrun.
    + rewrite updateJobStatus_other_sets; [done|]. apply jobRunsIdx_not_status.
    + rewrite updateJobStatus_other_sets; [done|]. apply runsAll_not_status.
    + intros _. split; [|split].
      * by rewrite updateJobStatus_status.
      * rewrite updateJobStatus_member by done. left. done.
      * rewrite updateJobStatus_member by done.
        intros [[Hk _]|[_ Hn]].
        -- apply jobStatusIdx_inj in Hk. discriminate Hk.
        -- apply Hn. exists "discovered". repeat split; [|done].
           unfold hgetall. rewrite Hh.
           fold (hgetall r (K.job (run_board run) (run_job_id run))).
           by rewrite <- Hstatus.
    + intros Hq. discriminate Hq.
  - rewrite Hq. rewrite bool_decide_eq_false_2 by done.
    split; [done|]. split; [done|]. split; [done|].
    split; [intros Hd; discriminate Hd|]. done.
Qed.

Lemma createRun_success_witness :
  ∃ r',
    createRun st_job 100 "t2" "t3" run_r1 None
    = (r', RunCreated
             (mkJobRun (Some "r1") (Some "42") (Some "ramp") (Some "v1") (Some "pending")
                (Some "t2") None None None))
    ∧ hgetall r' (K.job "ramp" "42") !! "status" = Some "queued".
Proof.
  destruct (getJob st_job "ramp" "42") as [job|] eqn:Hjob;
    [|vm_compute in Hjob; discriminate Hjob].
  assert (job_status job = Some "discovered") as Hd.
  { vm_compute in Hjob. injection Hjob as <-. vm_compute. reflexivity. }
  destruct (createRun_success st_job 100 "t2" "t3" run_r1 None job)
    as (r' & Hc & _ & _ & _ & Hdisc & _).
  - vm_compute. reflexivity.
  - exact Hjob.
  - left. exact Hd.
  - exists r'. split; [exact Hc|]. apply Hdisc. exact Hd.
Defined.

(** ** Updating a run *)

Lemma hgetall_del_lock r key k : hgetall (del_lock r key) k = hgetall r k.
Proof. reflexivity. Qed.

Lemma merge_defined_returns r runId ua update :
  upd_artifacts update = Some ua →
  merge_defined r runId update →
  ∃ m, merge_artifacts (h_artifacts (hgetall_run r (K.run runId))) ua = Return m.
Proof.
  unfold merge_defined. intros ->. unfold merge_artifacts.
  destruct (answers ua) as [a|]; [|eauto].
  intros [Ha|Hs]; [done|].
  destruct (h_artifacts _) as [[e|]|]; [| done |]; simpl;
    destruct (answers _); eauto.
Qed.

(** The store after the run hash is written, as [updateRun] leaves it:
    nothing but the hash of the run has changed. *)
Lemma updateRun_unfold r now now2 runId update :
  run_exists r runId →
  merge_defined r runId update →
  ∃ fields,
    h_run_id fields = None ∧ h_job_id fields = None ∧ h_board fields = None
    ∧ h_status fields = Some (run_status_str (upd_status update))
    ∧ (∀ ua, upd_artifacts update = Some ua →
         ∃ m, merge_artifacts (h_artifacts (hgetall_run r (K.run runId))) ua = Return m
              ∧ h_artifacts fields = Some (Some m))
    ∧ (upd_artifacts update = None → h_artifacts fields = None)
    ∧ let data := hgetall_run r (K.run runId) in
      let r1 := exec (HSET_run (K.run runId) fields) r in
      let board := interp (h_board data) in
      let jobId := interp (h_job_id data) in
      let r2 :=
        match upd_status update with
        | success =>
            del_lock (fst (updateJobStatus r1 now2 board jobId applied))
              (K.applyLock board jobId)
        | failed =>
            del_lock
              (if negb (existsb
                          (λ sr, negb (bool_decide (jr_run_id sr = Some runId))
                                 && is_active (jr_status sr))
                          (listRuns r1 (h_job_id data)))
               then fst (updateJobStatus r1 now2 board jobId discovered)
               else r1)
              (K.applyLock board jobId)
        | _ => r1
        end in
      updateRun r now now2 runId update
      = (r2, Return (parseRunHash (hgetall_run r2 (K.run runId)))).
Proof.
  unfold run_exists. intros He Hm. unfold updateRun. rewrite He. simpl negb. cbv iota.
  destruct (upd_artifacts update) as [ua|] eqn:Hua.
  - destruct (merge_defined_returns r runId ua update Hua Hm) as [m Hmerge].
    rewrite Hmerge. eexists. repeat split; try reflexivity.
    + intros ua' [= <-]. eauto.
    + intros H. discriminate H.
  - eexists. repeat split; try reflexivity.
    intros ua' H. discriminate H.
Qed.

Lemma hasActiveRun_spec r jobId runId :
  existsb (λ sr, negb (bool_decide (jr_run_id sr = Some runId)) && is_active (jr_status sr))
    (listRuns r jobId) = true
  ↔ listed_active_run r jobId runId.
Proof.
  rewrite existsb_exists. unfold listed_active_run, is_active.
  split.
  - intros (sr & Hin & Hsr). exists sr. apply list_elem_of_In in Hin.
    apply andb_true_iff in Hsr as [Hid Hact].
    apply negb_true_iff, bool_decide_eq_false in Hid.
    apply orb_true_iff in Hact as [Hp|Hs].
    + apply bool_decide_eq_true in Hp. auto.
    + apply bool_decide_eq_true in Hs. auto.
  - intros (sr & Hin & Hid & Hact). exists sr. split; [by apply list_elem_of_In|].
    apply andb_true_iff. split.
    + by apply negb_true_iff, bool_decide_eq_false.
    + apply orb_true_iff. destruct Hact as [Hp|Hs]; [left|right];
        by apply bool_decide_eq_true.
Qed.

(** The runs listed depend on the run hashes and on the run indexes only. *)
Lemma listRuns_ext r r' jobId :
  runs r' = runs r →
  (∀ k, (∀ s, k ≠ K.jobStatusIdx s) → smembers_set r' k = smembers_set r k) →
  listRuns r' jobId = listRuns r jobId.
Proof.
  intros Hr Hs. unfold listRuns, smembers, hgetall_run. rewrite Hr.
  rewrite !Hs; [done| |].
  - intros s. apply runsAll_not_status.
  - intros s. apply jobRunsIdx_not_status.
Qed.

Lemma listRuns_updateJobStatus r now b j st jobId :
  listRuns (fst (updateJobStatus r now b j st)) jobId = listRuns r jobId.
Proof.
  apply listRuns_ext; [apply updateJobStatus_runs|].
  intros k Hk. by apply updateJobStatus_other_sets.
Qed.

(** The effects of [updateRun] on the owning job, by the new status of the
    run and by the test the code makes. On success the apply lock of the
    job is deleted and the job, when its hash exists, is applied, in its
    hash and in the status index. On failure the apply lock is deleted
    whatever the other runs are; the job goes back to discovered when no
    run listed under the job id, other than the updated one, is pending or
    submitted, and the hashes and the index sets are left as they were when
    there is such a run, of whatever board. On pending and on submitted the
    hashes, the index sets and the locks are left as they were. *)
Lemma updateRun_job_side_effects r now now2 runId update :
  run_exists r runId →
  merge_defined r runId update →
  let data := hgetall_run r (K.run runId) in
  let b := interp (h_board data) in
  let j := interp (h_job_id data) in
  let r' := fst (updateRun r now now2 runId update) in
  (∃ run, snd (updateRun r now now2 runId update) = Return (Some run))
  ∧ match upd_status update with
    | success =>
        locks r' !! K.applyLock b j = None
        ∧ (job_exists r b j →
           hgetall r' (K.job b j) !! "status" = Some "applied"
           ∧ compositeKey b j ∈ smembers_set r' (K.jobStatusIdx "applied"))
    | failed =>
        locks r' !! K.applyLock b j = None
        ∧ (¬ listed_active_run r' (h_job_id data) runId →
           job_exists r b j →
           hgetall r' (K.job b j) !! "status" = Some "discovered"
           ∧ compositeKey b j ∈ smembers_set r' (K.jobStatusIdx "discovered"))
        ∧ (listed_active_run r' (h_job_id data) runId →
           hashes r' = hashes r ∧ sets r' = sets r)
    | pending | submitted =>
        hashes r' = hashes r ∧ sets r' = sets r ∧ locks r' = locks r
    end.
Proof.
  intros He Hm data b j r'.
  destruct (updateRun_unfold r now now2 runId update He Hm)
    as (fields & Hid & _ & _ & _ & _ & _ & Hupd).
  fold data b j in Hupd. cbv zeta in Hupd.
  set (r1 := exec (HSET_run (K.run runId) fields) r) in Hupd.
  assert (hashes r1 = hashes r) as Hh1 by reflexivity.
  assert (h_run_id (hgetall_run r1 (K.run runId)) = h_run_id data) as Hrid.
  { unfold hgetall_run at 1. unfold r1. simpl. rewrite lookup_insert_eq. simpl.
    by rewrite Hid. }
  unfold r'. rewrite Hupd. cbn [fst snd]. clear r' Hupd.
  destruct (upd_status update).
  - (* pending *)
    split; [|done].
    unfold parseRunHash. rewrite Hrid. unfold run_exists in He. fold data in He.
    rewrite He. simpl. eauto.
  - (* submitted *)
    split; [|done].
    unfold parseRunHash. rewrite Hrid. unfold run_exists in He. fold data in He.
    rewrite He. simpl. eauto.
  - (* success *)
    split.
    { unfold parseRunHash, hgetall_run. simpl runs. rewrite updateJobStatus_runs.
      fold (hgetall_run r1 (K.run runId)). rewrite Hrid.
      unfold run_exists in He. fold data in He. rewrite He. simpl. eauto. }
    split; [apply lookup_delete_eq|].
    intros Hj. apply (job_exists_hashes r r1) in Hj; [|done].
    rewrite hgetall_del_lock. split.
    + by rewrite updateJobStatus_status.
    + change (smembers_set (del_lock ?x _)) with (smembers_set x).
      rewrite updateJobStatus_member by done. by left.
  - (* failed *)
    set (active := existsb _ _).
    split.
    { unfold parseRunHash, hgetall_run. simpl runs.
      destruct (negb active); rewrite ?updateJobStatus_runs;
        fold (hgetall_run r1 (K.run runId)); rewrite Hrid;
        unfold run_exists in He; fold data in He; rewrite He; simpl; eauto. }
    split; [apply lookup_delete_eq|].
    assert (∀ x, listed_active_run (del_lock x (K.applyLock b j)) (h_job_id data) runId
                 ↔ listed_active_run x (h_job_id data) runId) as Hdel by done.
    destruct active eqn:Hact; simpl negb; cbv iota.
    + apply hasActiveRun_spec in Hact. split; [|done].
      intros Hno. destruct Hno. by apply Hdel.
    + split.
      * intros _ Hj. apply (job_exists_hashes r r1) in Hj; [|done].
        rewrite hgetall_del_lock. split.
        -- by rewrite updateJobStatus_status.
        -- change (smembers_set (del_lock ?x _)) with (smembers_set x).
           rewrite updateJobStatus_member by done. by left.
      * intros Hyes. apply (proj1 (Hdel _)) in Hyes.
        apply hasActiveRun_spec in Hyes.
        rewrite listRuns_updateJobStatus in Hyes. unfold active in Hact. congruence.
Qed.

Lemma updateRun_job_side_effects_witness :
  (locks st_applied !! K.applyLock "ramp" "42" = None
   ∧ hgetall st_applied (K.job "ramp" "42") !! "status" = Some "applied")
  ∧ (let r' := fst (updateRun st_claimed "t4" "t5" "r1"
                      (mkRunUpdate failed (Some "timeout") None)) in
     locks r' !! K.applyLock "ramp" "42" = None
     ∧ hgetall r' (K.job "ramp" "42") !! "status" = Some "discovered")
  ∧ (let r' := fst (updateRun st_two_runs "t8" "t9" "r1"
                      (mkRunUpdate failed (Some "timeout") None)) in
     locks r' !! K.applyLock "ramp" "42" = None
     ∧ hashes r' = hashes st_two_runs
     ∧ hgetall r' (K.job "ramp" "42") !! "status" = Some "queued").
Proof.
  split; [|split].
  - assert (run_exists st_claimed "r1") as He by (vm_compute; reflexivity).
    destruct (updateRun_job_side_effects st_claimed "t4" "t5" "r1"
                (mkRunUpdate success None None) He I) as [_ [Hlock Hjob]].
    split; [exact Hlock|]. apply Hjob. vm_compute. reflexivity.
  - assert (run_exists st_claimed "r1") as He by (vm_compute; reflexivity).
    destruct (updateRun_job_side_effects st_claimed "t4" "t5" "r1"
                (mkRunUpdate failed (Some "timeout") None) He I)
      as [_ (Hlock & Hrevert & _)].
    split; [exact Hlock|]. apply Hrevert.
    + intros Hact. apply hasActiveRun_spec in Hact. vm_compute in Hact.
      discriminate Hact.
    + vm_compute. reflexivity.
  - assert (run_exists st_two_runs "r1") as He by (vm_compute; reflexivity).
    destruct (updateRun_job_side_effects st_two_runs "t8" "t9" "r1"
                (mkRunUpdate failed (Some "timeout") None) He I)
      as [_ (Hlock & _ & Hkeep)].
    split; [exact Hlock|].
    destruct Hkeep as [Hh _].
    + apply hasActiveRun_spec. vm_compute. reflexivity.
    + split; [exact Hh|]. unfold hgetall. rewrite Hh. vm_compute. reflexivity.
Defined.

(** ** Pipelines and what they keep *)

Lemma execPipe_keeps_hash key pipe r :
  Forall (keeps_hash key) pipe → hgetall (execPipe pipe r) key = hgetall r key.
Proof.
  revert r. induction pipe as [|c pipe IH]; intros r Hp; [done|].
  inversion Hp as [|? ? Hc Hrest]; subst.
  rewrite execPipe_cons, IH by done. rewrite hgetall_exec.
  destruct c; try done; simpl in Hc; by rewrite decide_False.
Qed.

Lemma execPipe_keeps_member key member pipe r :
  Forall (keeps_member key member) pipe →
  member ∈ smembers_set (execPipe pipe r) key ↔ member ∈ smembers_set r key.
Proof.
  revert r. induction pipe as [|c pipe IH]; intros r Hp; [done|].
  inversion Hp as [|? ? Hc Hrest]; subst.
  rewrite execPipe_cons, IH by done. rewrite elem_of_exec.
  destruct c; try done; simpl in Hc; naive_solver.
Qed.

Lemma execPipe_adds_only pipe r key member :
  Forall adds_only pipe →
  member ∈ smembers_set r key ∨ SADD key member ∈ pipe →
  member ∈ smembers_set (execPipe pipe r) key.
Proof.
  revert r. induction pipe as [|c pipe IH]; intros r Hp Hm.
  - destruct Hm as [Hm|Hm]; [done|]. by apply elem_of_nil in Hm.
  - inversion Hp as [|? ? Hc Hrest]; subst.
    rewrite execPipe_cons. apply IH; [done|].
    destruct Hm as [Hm|Hm].
    + left. rewrite elem_of_exec. destruct c; try done; auto.
    + apply elem_of_cons in Hm as [<-|Hm]; [|by right].
      left. rewrite elem_of_exec. auto.
Qed.

Lemma addJob_cmds_adds_only extractTags now job :
  Forall adds_only (addJob_cmds extractTags now job).
Proof.
  unfold addJob_cmds. apply Forall_app. split; [repeat constructor|].
  apply Forall_forall. intros c Hc. apply list_elem_of_fmap in Hc as (t & -> & _). done.
Qed.

(** The hash of a job right after [addJob]. *)
Lemma addJob_status extractTags r now job :
  hgetall (fst (addJob extractTags r now job)) (K.job (board job) (job_id job)) !! "status"
  = Some "discovered".
Proof.
  unfold addJob, addJob_cmds. cbn [fst]. rewrite execPipe_app.
  rewrite execPipe_keeps_hash.
  - rewrite !execPipe_cons. change (execPipe [] ?x) with x.
    rewrite !hgetall_exec. rewrite decide_True by done.
    rewrite lookup_union, lookup_insert_ne by done.
    assert (job_fields (full_job extractTags now job) !! "status" = Some "discovered")
      as -> by reflexivity.
    by destruct (hgetall r _ !! "status").
  - apply Forall_forall. intros c Hc. apply list_elem_of_fmap in Hc as (t & -> & _). done.
Qed.

(** C5. Status-index consistency fails on [addJob]: when the composite key
    of a job is in the index set of a status other than discovered, as it is
    for a job that has been claimed, adding the job again writes the status
    discovered into the hash and the key into the discovered index, and
    leaves the key in the index of the former status: the key is then in two
    status index sets. *)
Theorem addJob_again_two_status_indexes extractTags r now job old :
  old ≠ "discovered" →
  compositeKey (board job) (job_id job) ∈ smembers_set r (K.jobStatusIdx old) →
  let r' := fst (addJob extractTags r now job) in
  hgetall r' (K.job (board job) (job_id job)) !! "status" = Some "discovered"
  ∧ compositeKey (board job) (job_id job) ∈ smembers_set r' (K.jobStatusIdx "discovered")
  ∧ compositeKey (board job) (job_id job) ∈ smembers_set r' (K.jobStatusIdx old).
Proof.
  intros Hold Hin r'. split; [apply addJob_status|]. split.
  - apply execPipe_adds_only; [apply addJob_cmds_adds_only|].
    right. unfold addJob_cmds. apply elem_of_app. left.
    apply elem_of_cons. right. apply elem_of_cons. right. apply elem_of_cons. by left.
  - apply execPipe_adds_only; [apply addJob_cmds_adds_only|]. by left.
Qed.

Lemma addJob_again_two_status_indexes_witness :
  hgetall st_claimed (K.job "ramp" "42") !! "status" = Some "queued"
  ∧ hgetall st_readded (K.job "ramp" "42") !! "status" = Some "discovered"
  ∧ compositeKey "ramp" "42" ∈ smembers_set st_readded (K.jobStatusIdx "discovered")
  ∧ compositeKey "ramp" "42" ∈ smembers_set st_readded (K.jobStatusIdx "queued").
Proof.
  split; [vm_compute; reflexivity|].
  apply (addJob_again_two_status_indexes sample_tags st_claimed "t8" job42 "queued").
  - intros H. discriminate H.
  - apply (bool_decide_unpack _). vm_compute. exact I.
Defined.

(** ** The hash of an updated run *)

(** After [updateRun] the hash of the run is the stored one with the fields
    of the update written over it, and the run returned is parsed from it. *)
Lemma updateRun_run_hash r now now2 runId update :
  run_exists r runId →
  merge_defined r runId update →
  ∃ fields,
    h_run_id fields = None
    ∧ h_status fields = Some (run_status_str (upd_status update))
    ∧ (∀ ua, upd_artifacts update = Some ua →
         ∃ m, merge_artifacts (h_artifacts (hgetall_run r (K.run runId))) ua = Return m
              ∧ h_artifacts fields = Some (Some m))
    ∧ (upd_artifacts update = None → h_artifacts fields = None)
    ∧ hgetall_run (fst (updateRun r now now2 runId update)) (K.run runId)
      = hset_run_fields fields (hgetall_run r (K.run runId))
    ∧ snd (updateRun r now now2 runId update)
      = Return (parseRunHash (hset_run_fields fields (hgetall_run r (K.run runId)))).
Proof.
  intros He Hm.
  destruct (updateRun_unfold r now now2 runId update He Hm)
    as (fields & Hid & _ & _ & Hst & Ha & Hna & Hupd).
  exists fields. split; [done|]. split; [done|]. split; [done|]. split; [done|].
  cbv zeta in Hupd. rewrite Hupd. cbn [fst snd].
  set (r1 := exec (HSET_run (K.run runId) fields) r).
  assert (hgetall_run r1 (K.run runId)
          = hset_run_fields fields (hgetall_run r (K.run runId))) as H1.
  { unfold hgetall_run at 1. unfold r1. simpl. by rewrite lookup_insert_eq. }
  assert (∀ x, runs x = runs r1 →
               hgetall_run x (K.run runId)
               = hset_run_fields fields (hgetall_run r (K.run runId))) as Hx.
  { intros x Hx. rewrite <- H1. unfold hgetall_run. by rewrite Hx. }
  destruct (upd_status update).
  - split; [by apply Hx|]. by rewrite Hx.
  - split; [by apply Hx|]. by rewrite Hx.
  - assert (runs (del_lock
                    (fst (updateJobStatus r1 now2
                            (interp (h_board (hgetall_run r (K.run runId))))
                            (interp (h_job_id (hgetall_run r (K.run runId)))) applied))
                    (K.applyLock (interp (h_board (hgetall_run r (K.run runId))))
                       (interp (h_job_id (hgetall_run r (K.run runId))))))
            = runs r1) as Hr by apply updateJobStatus_runs.
    split; [by apply Hx|]. by rewrite Hx.
  - match goal with
    | |- hgetall_run ?x _ = _ ∧ _ =>
        assert (runs x = runs r1) as Hr
    end.
    { simpl runs. destruct (negb _); [apply updateJobStatus_runs|done]. }
    split; [by apply Hx|]. by rewrite Hx.
Qed.

Lemma updateRun_artifacts_stored r now now2 runId update ua :
  run_exists r runId →
  upd_artifacts update = Some ua →
  merge_defined r runId update →
  ∃ m, merge_artifacts (h_artifacts (hgetall_run r (K.run runId))) ua = Return m
       ∧ run_exists (fst (updateRun r now now2 runId update)) runId
       ∧ h_artifacts (hgetall_run (fst (updateRun r now now2 runId update)) (K.run runId))
         = Some (Some m)
       ∧ ∃ run, snd (updateRun r now now2 runId update) = Return (Some run)
                ∧ jr_artifacts run = Some m.
Proof.
  intros He Hua Hm.
  destruct (updateRun_run_hash r now now2 runId update He Hm)
    as (fields & Hid & _ & Ha & _ & Hhash & Hres).
  destruct (Ha ua Hua) as (m & Hmerge & Hfa).
  exists m. split; [done|].
  assert (h_run_id (hset_run_fields fields (hgetall_run r (K.run runId)))
          = h_run_id (hgetall_run r (K.run runId))) as Hrid.
  { simpl. by rewrite Hid. }
  split; [|split].
  - unfold run_exists. rewrite Hhash, Hrid. exact He.
  - rewrite Hhash. simpl. by rewrite Hfa.
  - rewrite Hres. unfold parseRunHash. rewrite Hrid. unfold run_exists in He.
    rewrite He. simpl negb. cbv iota. eexists. split; [reflexivity|].
    simpl. by rewrite Hfa.
Qed.

Lemma merge_defined_object r runId update e :
  h_artifacts (hgetall_run r (K.run runId)) = Some (Some e) →
  merge_defined r runId update.
Proof.
  intros Hst. unfold merge_defined. destruct (upd_artifacts update); [|done].
  right. rewrite Hst. intros H. discriminate H.
Qed.

(** Where the merge returns, it is additive. When the update carries
    artifacts, and does not carry answers for a run whose stored artifacts
    are [null], every field the update gives replaces the stored one, every
    other field stays, and when both carry [answers] the stored [answers]
    are those of both, key by key, the update's answer winning on a common
    key; a run without an artifacts object counts as one with no field. In
    particular, from artifacts [{resume_url: "a"}], an update with
    [{notes: "b"}] leaves [{resume_url: "a", notes: "b"}], and two more
    updates with [{answers: {"x": "1"}}] and [{answers: {"y": "2"}}] leave
    the answers [{"x": "1", "y": "2"}] beside them. *)
Lemma updateRun_artifacts_additive :
  (∀ r now now2 runId update ua,
     run_exists r runId →
     upd_artifacts update = Some ua →
     answers ua = None ∨ h_artifacts (hgetall_run r (K.run runId)) ≠ Some None →
     let e :=
       match h_artifacts (hgetall_run r (K.run runId)) with
       | Some (Some e) => e
       | _ => no_artifacts
       end in
     ∃ m run,
       h_artifacts (hgetall_run (fst (updateRun r now now2 runId update)) (K.run runId))
       = Some (Some m)
       ∧ snd (updateRun r now now2 runId update) = Return (Some run)
       ∧ jr_artifacts run = Some m
       ∧ resume_url m = over (resume_url ua) (resume_url e)
       ∧ cover_letter m = over (cover_letter ua) (cover_letter e)
       ∧ confirmation_url m = over (confirmation_url ua) (confirmation_url e)
       ∧ notes m = over (notes ua) (notes e)
       ∧ match answers ua, answers e with
         | Some new, Some old =>
             ∃ both, answers m = Some both
                     ∧ ∀ k, both !! k = over (new !! k) (old !! k)
         | Some new, None => answers m = Some new
         | None, old => answers m = old
         end)
  ∧ (∀ r runId now1 now1' st1 err1 now2 now2' st2 err2 now3 now3' st3 err3,
       run_exists r runId →
       h_artifacts (hgetall_run r (K.run runId))
       = Some (Some (mkArtifacts (Some "a") None None None None)) →
       let r1 :=
         fst (updateRun r now1 now1' runId
                (mkRunUpdate st1 err1 (Some (mkArtifacts None None None None (Some "b"))))) in
       let r2 :=
         fst (updateRun r1 now2 now2' runId
                (mkRunUpdate st2 err2
                   (Some (mkArtifacts None None (Some {["x" := "1"]}) None None)))) in
       let r3 :=
         fst (updateRun r2 now3 now3' runId
                (mkRunUpdate st3 err3
                   (Some (mkArtifacts None None (Some {["y" := "2"]}) None None)))) in
       h_artifacts (hgetall_run r1 (K.run runId))
       = Some (Some (mkArtifacts (Some "a") None None None (Some "b")))
       ∧ h_artifacts (hgetall_run r3 (K.run runId))
         = Some (Some (mkArtifacts (Some "a") None
                         (Some (<["x" := "1"]> {["y" := "2"]})) None (Some "b")))).
Proof.
  split.
  - intros r now now2 runId update ua He Hua Hdef e.
    assert (merge_defined r runId update) as Hm.
    { unfold merge_defined. by rewrite Hua. }
    destruct (updateRun_artifacts_stored r now now2 runId update ua He Hua Hm)
      as (m & Hmerge & _ & Hstored & run & Hres & Hrun).
    exists m, run. split; [done|]. split; [done|]. split; [done|].
    clear Hstored Hres Hrun Hm. unfold merge_artifacts in Hmerge. subst e.
    destruct (h_artifacts (hgetall_run r (K.run runId))) as [[e|]|].
    + simpl in Hmerge. destruct (answers ua) as [new|].
      * destruct (answers e) as [old|].
        -- injection Hmerge as <-. simpl. repeat split; try done.
           exists (new ∪ old). split; [done|]. intros k. rewrite lookup_union.
           by destruct (new !! k), (old !! k).
        -- injection Hmerge as <-. simpl. by repeat split.
      * injection Hmerge as <-. simpl. by repeat split.
    + destruct Hdef as [Hno|Hnull]; [|done]. rewrite Hno in Hmerge.
      injection Hmerge as <-. simpl. rewrite Hno.
      by destruct (resume_url ua), (cover_letter ua), (confirmation_url ua), (notes ua).
    + simpl in Hmerge. destruct (answers ua) as [new|] eqn:Hnew.
      * injection Hmerge as <-. simpl.
        by destruct (resume_url ua), (cover_letter ua), (confirmation_url ua), (notes ua).
      * injection Hmerge as <-. simpl.
        by destruct (resume_url ua), (cover_letter ua), (confirmation_url ua), (notes ua).
  - intros r runId now1 now1' st1 err1 now2 now2' st2 err2 now3 now3' st3 err3 He Hst
      r1 r2 r3.
    destruct (updateRun_artifacts_stored r now1 now1' runId
                (mkRunUpdate st1 err1 (Some (mkArtifacts None None None None (Some "b"))))
                _ He eq_refl (merge_defined_object _ _ _ _ Hst))
      as (m1 & Hm1 & He1 & Hs1 & _).
    rewrite Hst in Hm1. injection Hm1 as <-. fold r1 in He1, Hs1. simpl in Hs1.
    split; [exact Hs1|].
    destruct (updateRun_artifacts_stored r1 now2 now2' runId
                (mkRunUpdate st2 err2
                   (Some (mkArtifacts None None (Some {["x" := "1"]}) None None)))
                _ He1 eq_refl (merge_defined_object _ _ _ _ Hs1))
      as (m2 & Hm2 & He2 & Hs2 & _).
    rewrite Hs1 in Hm2. injection Hm2 as <-. fold r2 in He2, Hs2. simpl in Hs2.
    destruct (updateRun_artifacts_stored r2 now3 now3' runId
                (mkRunUpdate st3 err3
                   (Some (mkArtifacts None None (Some {["y" := "2"]}) None None)))
                _ He2 eq_refl (merge_defined_object _ _ _ _ Hs2))
      as (m3 & Hm3 & He3 & Hs3 & _).
    rewrite Hs2 in Hm3. injection Hm3 as <-. fold r3 in Hs3. rewrite Hs3. reflexivity.
Qed.

Lemma updateRun_artifacts_additive_witness :
  let r1 := fst (updateRun st_resume "t4" "t5" "r1"
                   (mkRunUpdate pending None (Some art_notes))) in
  let r2 := fst (updateRun r1 "t6" "t7" "r1"
                   (mkRunUpdate submitted None (Some art_answer_x))) in
  let r3 := fst (updateRun r2 "t8" "t9" "r1"
                   (mkRunUpdate submitted None (Some art_answer_y))) in
  h_artifacts (hgetall_run r3 (K.run "r1"))
  = Some (Some (mkArtifacts (Some "a") None (Some (<["x" := "1"]> {["y" := "2"]})) None
                  (Some "b"))).
Proof.
  apply (proj2 updateRun_artifacts_additive st_resume "r1").
  - vm_compute. reflexivity.
  - vm_compute. reflexivity.
Defined.


(** The null case of the merge: a run created without artifacts holds the
    text of [null], and an update that carries answers throws on it, before
    anything is written. *)
Lemma updateRun_answers_on_null_throws :
  ∃ e, updateRun st_claimed "t4" "t5" "r1" (mkRunUpdate submitted None (Some art_answer_x))
       = (st_claimed, Throw e).
Proof. eexists. vm_compute. reflexivity. Qed.




(** ** Jobs for a user *)

(** C10. [listJobsForUser] answers with the empty list when the user has no
    tags, and with the same empty list when there is no user of that id. *)
Theorem listJobsForUser_no_interest r userId opts :
  (getUser r userId = None → listJobsForUser r userId opts = [])
  ∧ (∀ user, getUser r userId = Some user → user_tags user = [] →
             listJobsForUser r userId opts = []).
Proof.
  split.
  - intros Hu. unfold listJobsForUser. by rewrite Hu.
  - intros user Hu Ht. unfold listJobsForUser. by rewrite Hu, Ht.
Qed.

Lemma listJobsForUser_no_interest_witness :
  listJobsForUser st_user "nobody" (mkUserListOpts None None) = []
  ∧ listJobsForUser st_user "u1" (mkUserListOpts None None) = [].
Proof.
  split.
  - apply (proj1 (listJobsForUser_no_interest st_user "nobody" (mkUserListOpts None None))).
    vm_compute. reflexivity.
  - apply (proj2 (listJobsForUser_no_interest st_user "u1" (mkUserListOpts None None))
             (mkUser "u1" ["cv.pdf"] ∅ [] (Some "t2"))).
    + vm_compute. reflexivity.
    + reflexivity.
Defined.

(** ** Adding jobs in bulk *)

Lemma Forall_flat_map_elem {A B} (P : B → Prop) (f : A → list B) (l : list A) :
  (∀ x, x ∈ l → Forall P (f x)) → Forall P (flat_map f l).
Proof.
  induction l as [|x l IH]; intros H; [constructor|].
  simpl. apply Forall_app. split.
  - apply H. by left.
  - apply IH. intros y Hy. apply H. by right.
Qed.

Lemma elem_of_flat_map {A B} (f : A → list B) (l : list A) x y :
  x ∈ l → y ∈ f x → y ∈ flat_map f l.
Proof.
  intros Hx Hy. apply list_elem_of_In, in_flat_map. exists x.
  split; by apply list_elem_of_In.
Qed.

(** [addJobsBulk] without its shortcuts: the commands of the new jobs, run
    in one pipeline. *)
Lemma addJobsBulk_eq extractTags r now jobs :
  let newJobs := List.filter (λ j, negb (exists_ r (K.job (board j) (job_id j)))) jobs in
  addJobsBulk extractTags r now jobs
  = (execPipe (flat_map (addJob_cmds extractTags now) newJobs) r,
     map (full_job extractTags now) newJobs).
Proof.
  intros newJobs. unfold addJobsBulk. fold newJobs.
  destruct jobs as [|j0 jobs]; [done|].
  by destruct newJobs.
Qed.

(** The commands of a job keep what belongs to a job of another key. *)
Lemma addJob_cmds_keep extractTags now job b j :
  K.job (board job) (job_id job) ≠ K.job b j →
  Forall (keeps_hash (K.job b j)) (addJob_cmds extractTags now job)
  ∧ (∀ s, Forall (keeps_member (K.jobStatusIdx s) (compositeKey b j))
            (addJob_cmds extractTags now job))
  ∧ (∀ t, Forall (keeps_member (K.tagIdx t) (compositeKey b j))
            (addJob_cmds extractTags now job))
  ∧ Forall (keeps_member (K.boardJobsIdx b) j) (addJob_cmds extractTags now job).
Proof.
  intros Hne.
  assert (compositeKey (board job) (job_id job) ≠ compositeKey b j) as Hck.
  { intros H. by apply Hne, compositeKey_job. }
  unfold addJob_cmds. split; [|split; [|split]].
  - apply Forall_app. split; [repeat constructor; done|].
    apply Forall_forall. intros c Hc. by apply list_elem_of_fmap in Hc as (t & -> & _).
  - intros s. apply Forall_app. split.
    + repeat constructor; simpl.
      * intros [H _]. by apply boardJobsIdx_not_status in H.
      * intros [_ H]. done.
    + apply Forall_forall. intros c Hc. apply list_elem_of_fmap in Hc as (t & -> & _).
      simpl. intros [_ H]. done.
  - intros t. apply Forall_app. split.
    + repeat constructor; simpl.
      * intros [H _]. by apply boardJobsIdx_not_tag in H.
      * intros [_ H]. done.
    + apply Forall_forall. intros c Hc. apply list_elem_of_fmap in Hc as (t' & -> & _).
      simpl. intros [_ H]. done.
  - apply Forall_app. split.
    + repeat constructor; simpl.
      * intros [Hb Hj]. apply boardJobsIdx_inj in Hb. apply Hne. by rewrite Hb, Hj.
      * intros [H _]. symmetry in H. by apply boardJobsIdx_not_status in H.
    + apply Forall_forall. intros c Hc. apply list_elem_of_fmap in Hc as (t' & -> & _).
      simpl. intros [H _]. symmetry in H. by apply boardJobsIdx_not_tag in H.
Qed.

Lemma execPipe_writes_status key status pipe r :
  Forall (writes_status key status) pipe →
  hgetall r key !! "status" = Some status ∨ (∃ f, HSET key f ∈ pipe) →
  hgetall (execPipe pipe r) key !! "status" = Some status.
Proof.
  revert r. induction pipe as [|c pipe IH]; intros r Hp Hs.
  - destruct Hs as [Hs|[f Hf]]; [done|]. by apply elem_of_nil in Hf.
  - inversion Hp as [|? ? Hc Hrest]; subst.
    rewrite execPipe_cons. apply IH; [done|].
    assert (∀ f, c = HSET key f → hgetall (exec c r) key !! "status" = Some status)
      as Hset.
    { intros f ->. rewrite hgetall_exec, decide_True by done.
      rewrite lookup_union. simpl in Hc. rewrite Hc by done.
      by destruct (hgetall r key !! "status"). }
    destruct Hs as [Hs|[f Hf]].
    + left. destruct c as [k f| | | | |k|]; try done.
      * destruct (decide (k = key)) as [->|Hk]; [by apply (Hset f)|].
        by rewrite hgetall_exec, decide_False.
      * simpl in Hc. by rewrite hgetall_exec, decide_False.
    + apply elem_of_cons in Hf as [<-|Hf]; [|right; eauto].
      left. by apply (Hset f).
Qed.

Lemma addJob_cmds_writes_status extractTags now job key :
  Forall (writes_status key "discovered") (addJob_cmds extractTags now job).
Proof.
  unfold addJob_cmds. apply Forall_app. split.
  - repeat constructor.
  - apply Forall_forall. intros c Hc. by apply list_elem_of_fmap in Hc as (t & -> & _).
Qed.

(** C8. [addJobsBulk] skips the jobs that exist. The list it returns is
    that of the input jobs without a hash, each with the status discovered.
    For every job whose hash exists, a job of the input or not, the hash is
    left as it was, and so is the membership of its composite key in every
    status index and in every tag index, and that of its id in the job index
    of its board. Every input job without a hash has afterwards a hash with
    the status discovered, its composite key in the discovered index and its
    id in the job index of its board. *)
Theorem addJobsBulk_skips_existing extractTags r now jobs :
  let r' := fst (addJobsBulk extractTags r now jobs) in
  let is_new := λ job, negb (exists_ r (K.job (board job) (job_id job))) in
  snd (addJobsBulk extractTags r now jobs)
  = map (full_job extractTags now) (List.filter is_new jobs)
  ∧ (∀ b j,
       exists_ r (K.job b j) = true →
       hgetall r' (K.job b j) = hgetall r (K.job b j)
       ∧ (∀ s, compositeKey b j ∈ smembers_set r' (K.jobStatusIdx s)
               ↔ compositeKey b j ∈ smembers_set r (K.jobStatusIdx s))
       ∧ (∀ t, compositeKey b j ∈ smembers_set r' (K.tagIdx t)
               ↔ compositeKey b j ∈ smembers_set r (K.tagIdx t))
       ∧ (j ∈ smembers_set r' (K.boardJobsIdx b) ↔ j ∈ smembers_set r (K.boardJobsIdx b)))
  ∧ (∀ job,
       job ∈ jobs →
       exists_ r (K.job (board job) (job_id job)) = false →
       hgetall r' (K.job (board job) (job_id job)) !! "status" = Some "discovered"
       ∧ compositeKey (board job) (job_id job)
         ∈ smembers_set r' (K.jobStatusIdx "discovered")
       ∧ job_id job ∈ smembers_set r' (K.boardJobsIdx (board job))).
Proof.
  intros r' is_new. unfold r'. rewrite addJobsBulk_eq. cbn [fst snd]. fold is_new.
  split; [done|]. split.
  - intros b j Hex.
    assert (∀ job, job ∈ List.filter is_new jobs →
                   K.job (board job) (job_id job) ≠ K.job b j) as Hne.
    { intros job Hin. apply list_elem_of_In, filter_In in Hin as [_ Hnew].
      unfold is_new in Hnew. apply negb_true_iff in Hnew. congruence. }
    assert (∀ P : Cmd → Prop,
              (∀ job, K.job (board job) (job_id job) ≠ K.job b j →
                      Forall P (addJob_cmds extractTags now job)) →
              Forall P (flat_map (addJob_cmds extractTags now) (List.filter is_new jobs)))
      as Hall.
    { intros P HP. apply Forall_flat_map_elem. intros job Hin. by apply HP, Hne. }
    split; [|split; [|split]].
    + apply execPipe_keeps_hash, Hall. intros job Hj.
      by destruct (addJob_cmds_keep extractTags now job b j Hj) as (H1 & _).
    + intros s. apply execPipe_keeps_member, Hall. intros job Hj.
      by destruct (addJob_cmds_keep extractTags now job b j Hj) as (_ & H2 & _).
    + intros t. apply execPipe_keeps_member, Hall. intros job Hj.
      by destruct (addJob_cmds_keep extractTags now job b j Hj) as (_ & _ & H3 & _).
    + apply execPipe_keeps_member, Hall. intros job Hj.
      by destruct (addJob_cmds_keep extractTags now job b j Hj) as (_ & _ & _ & H4).
  - intros job Hin Hnew.
    assert (job ∈ List.filter is_new jobs) as Hf.
    { apply list_elem_of_In, filter_In. split; [by apply list_elem_of_In|].
      unfold is_new. by rewrite Hnew. }
    assert (∀ c, c ∈ addJob_cmds extractTags now job →
                 c ∈ flat_map (addJob_cmds extractTags now) (List.filter is_new jobs))
      as Hc.
    { intros c Hcin. by apply (elem_of_flat_map _ _ job). }
    assert (Forall adds_only
              (flat_map (addJob_cmds extractTags now) (List.filter is_new jobs))) as Hadd.
    { apply Forall_flat_map_elem. intros job' _. apply addJob_cmds_adds_only. }
    split; [|split].
    + apply execPipe_writes_status.
      * apply Forall_flat_map_elem. intros job' _. apply addJob_cmds_writes_status.
      * right. eexists. apply Hc. unfold addJob_cmds. apply elem_of_app. left.
        apply elem_of_cons. by left.
    + apply execPipe_adds_only; [done|]. right. apply Hc. unfold addJob_cmds.
      apply elem_of_app. left. apply elem_of_cons. right. apply elem_of_cons. right.
      apply elem_of_cons. by left.
    + apply execPipe_adds_only; [done|]. right. apply Hc. unfold addJob_cmds.
      apply elem_of_app. left. apply elem_of_cons. right. apply elem_of_cons. by left.
Qed.

Lemma addJobsBulk_skips_existing_witness :
  let r' := fst (addJobsBulk sample_tags st_applied "t9" [job42_retitled; job43]) in
  snd (addJobsBulk sample_tags st_applied "t9" [job42_retitled; job43])
  = [full_job sample_tags "t9" job43]
  ∧ hgetall r' (K.job "ramp" "42") = hgetall st_applied (K.job "ramp" "42")
  ∧ hgetall r' (K.job "ramp" "42") !! "status" = Some "applied"
  ∧ hgetall r' (K.job "ramp" "43") !! "status" = Some "discovered".
Proof.
  destruct (addJobsBulk_skips_existing sample_tags st_applied "t9" [job42_retitled; job43])
    as (Hres & Hold & Hnew).
  split; [exact Hres|].
  destruct (Hold "ramp" "42") as [Hhash _]; [vm_compute; reflexivity|].
  split; [exact Hhash|]. split.
  - rewrite Hhash. vm_compute. reflexivity.
  - apply (Hnew job43).
    + apply elem_of_cons. right. apply elem_of_cons. left. reflexivity.
    + vm_compute. reflexivity.
Defined.

(** ** Removing a board *)

Lemma execPipe_keeps_set key pipe r :
  Forall (keeps_set key) pipe → smembers_set (execPipe pipe r) key = smembers_set r key.
Proof.
  intros Hp. apply set_eq. intros m. apply execPipe_keeps_member.
  eapply Forall_impl; [exact Hp|]. intros c Hc. destruct c; try done; simpl in *; tauto.
Qed.

Lemma execPipe_removes_only pipe r key member :
  Forall removes_only pipe →
  member ∈ smembers_set (execPipe pipe r) key → member ∈ smembers_set r key.
Proof.
  revert r. induction pipe as [|c pipe IH]; intros r Hp Hm; [done|].
  inversion Hp as [|? ? Hc Hrest]; subst.
  rewrite execPipe_cons in Hm. apply IH in Hm; [|done].
  rewrite elem_of_exec in Hm. destruct c; try done; tauto.
Qed.

Lemma execPipe_removed_member pipe r key member :
  Forall removes_only pipe →
  SREM key member ∈ pipe ∨ DEL_set key ∈ pipe →
  member ∉ smembers_set (execPipe pipe r) key.
Proof.
  revert r. induction pipe as [|c pipe IH]; intros r Hp Hin.
  - destruct Hin as [Hin|Hin]; by apply elem_of_nil in Hin.
  - inversion Hp as [|? ? Hc Hrest]; subst. rewrite execPipe_cons.
    assert (c = SREM key member ∨ c = DEL_set key
            ∨ SREM key member ∈ pipe ∨ DEL_set key ∈ pipe) as [->|[->|Hrec]].
    { destruct Hin as [Hin|Hin]; apply elem_of_cons in Hin as [<-|Hin]; auto. }
    + intros Hm. apply execPipe_removes_only in Hm; [|done].
      rewrite elem_of_exec in Hm. tauto.
    + intros Hm. apply execPipe_removes_only in Hm; [|done].
      rewrite elem_of_exec in Hm. tauto.
    + by apply IH.
Qed.

Lemma execPipe_removed_hash pipe r key :
  Forall removes_only pipe →
  hgetall r key = ∅ ∨ DEL key ∈ pipe →
  hgetall (execPipe pipe r) key = ∅.
Proof.
  revert r. induction pipe as [|c pipe IH]; intros r Hp Hin.
  - destruct Hin as [Hin|Hin]; [done|]. by apply elem_of_nil in Hin.
  - inversion Hp as [|? ? Hc Hrest]; subst. rewrite execPipe_cons.
    apply IH; [done|]. destruct Hin as [Hin|Hin].
    + left. rewrite hgetall_exec. destruct c as [| | | | |k|]; try done.
      by destruct (decide (k = key)).
    + apply elem_of_cons in Hin as [<-|Hin]; [|by right].
      left. by rewrite hgetall_exec, decide_True.
Qed.

Lemma removes_only_not_run c : removes_only c → not_run_cmd c.
Proof. by destruct c. Qed.

(** The pipeline of [removeBoard]. *)
Lemma removeBoard_unfold r id :
  exists_ r (K.board id) = true →
  removeBoard r id
  = (execPipe
       (flat_map (removeBoard_job r id) (smembers r (K.boardJobsIdx id))
        ++ [DEL_set (K.boardJobsIdx id); DEL (K.board id); SREM K.boardsIdx id]) r,
     true).
Proof. intros He. unfold removeBoard. by rewrite He. Qed.

Lemma removeBoard_job_shape r id jobId c :
  c ∈ removeBoard_job r id jobId →
  (∃ status, c = SREM (K.jobStatusIdx status) (compositeKey id jobId))
  ∨ (∃ tag, c = SREM (K.tagIdx tag) (compositeKey id jobId))
  ∨ c = DEL (K.job id jobId).
Proof.
  unfold removeBoard_job, when_truthy. intros Hc.
  apply elem_of_app in Hc as [Hc|Hc]; [|apply elem_of_app in Hc as [Hc|Hc]].
  - left. destruct (_ !! "status") as [s|]; [|by apply elem_of_nil in Hc].
    destruct (truthy (Some s)); [|by apply elem_of_nil in Hc].
    apply list_elem_of_singleton in Hc. eauto.
  - right. left. destruct (_ !! "tags") as [s|]; [|by apply elem_of_nil in Hc].
    destruct (truthy (Some s)); [|by apply elem_of_nil in Hc].
    apply list_elem_of_fmap in Hc as (t & -> & _). eauto.
  - right. right. by apply list_elem_of_singleton in Hc.
Qed.

Lemma removeBoard_pipe_removes_only r id :
  Forall removes_only
    (flat_map (removeBoard_job r id) (smembers r (K.boardJobsIdx id))
     ++ [DEL_set (K.boardJobsIdx id); DEL (K.board id); SREM K.boardsIdx id]).
Proof.
  apply Forall_app. split; [|repeat constructor].
  apply Forall_flat_map_elem. intros jobId _. apply Forall_forall. intros c Hc.
  apply removeBoard_job_shape in Hc as [[s ->]|[[t ->]| ->]]; done.
Qed.





(** ** The status index under [updateJobStatus] *)

(** [updateJobStatus] keeps the status index in step with the hash: when
    the composite key of an existing job is in no status index but that of
    the status in its hash, afterwards it is in the index of the new status
    and in no other. *)
Lemma updateJobStatus_one_status_index r now b j st :
  job_exists r b j →
  (∀ s, compositeKey b j ∈ smembers_set r (K.jobStatusIdx s) →
        hgetall r (K.job b j) !! "status" = Some s ∧ s ≠ "") →
  ∀ s, compositeKey b j ∈ smembers_set (fst (updateJobStatus r now b j st)) (K.jobStatusIdx s)
       ↔ s = job_status_str st.
Proof.
  intros He Hone s. rewrite updateJobStatus_member by done. split.
  - intros [[Hk _]|[Hin Hn]].
    + by apply jobStatusIdx_inj in Hk.
    + destruct (Hone s Hin) as [Hst Hne]. destruct Hn. by exists s.
  - intros ->. by left.
Qed.

(** ** Splitting and joining *)

Lemma split_plain sep s : contains sep s = false → split sep s = [s].
Proof.
  induction s as [|c s IH]; [done|]. simpl. intros H.
  apply orb_false_iff in H as [Hc Hs]. rewrite Hc, IH by done. done.
Qed.

Lemma split_app_sep sep a b :
  contains sep a = false → split sep (a +:+ String sep b) = a :: split sep b.
Proof.
  induction a as [|c a IH]; simpl.
  - intros _. by rewrite bool_decide_eq_true_2.
  - intros H. apply orb_false_iff in H as [Hc Ha]. rewrite Hc, IH by done. done.
Qed.

Lemma join_cons x y l : join "," (x :: y :: l) = x +:+ String comma (join "," (y :: l)).
Proof. reflexivity. Qed.

Lemma split_join tags :
  Forall (λ t, contains comma t = false) tags → tags ≠ [] →
  split comma (join "," tags) = tags.
Proof.
  induction tags as [|x [|y l] IH]; intros Hp Hne; [done| |].
  - inversion Hp; subst. by apply split_plain.
  - inversion Hp as [|? ? Hx Hrest]; subst.
    rewrite join_cons, split_app_sep by done. f_equal. by apply IH.
Qed.

Lemma join_empty tags : Forall (λ t, t ≠ "") tags → join "," tags = "" → tags = [].
Proof.
  destruct tags as [|x [|y l]]; [done| |]; intros Hp; inversion Hp; subst.
  - simpl. done.
  - rewrite join_cons. by destruct x.
Qed.

(** The tags written by [addJob] are read back as they were. *)
Lemma tags_of_join tags (data : gmap string string) :
  plain_tags tags → data !! "tags" = Some (join "," tags) → tags_of data = tags.
Proof.
  intros Hp Hd. unfold tags_of. rewrite Hd. unfold truthy.
  destruct (decide (join "," tags = "")) as [He|Hne].
  - rewrite bool_decide_eq_true_2 by done. simpl. symmetry. apply join_empty; [|done].
    eapply Forall_impl; [exact Hp|]. by intros t [? _].
  - rewrite bool_decide_eq_false_2 by done. simpl. apply split_join.
    + eapply Forall_impl; [exact Hp|]. by intros t [_ ?].
    + intros ->. by apply Hne.
Qed.

Lemma split_compositeKey b j :
  contains colon b = false → contains colon j = false →
  split colon (compositeKey b j) = [b; j].
Proof.
  intros Hb Hj. unfold compositeKey.
  change (b +:+ ":" +:+ j) with (b +:+ String colon j).
  rewrite split_app_sep by done. by rewrite split_plain.
Qed.

(** A composite key of colon-free parts is hydrated from the hash of its
    own job. *)
Lemma hydrate_compositeKey r b j :
  contains colon b = false → contains colon j = false →
  hydrate r (compositeKey b j) = getJob r b j.
Proof.
  intros Hb Hj. unfold hydrate. by rewrite split_compositeKey.
Qed.

(** ** Reading back what was written *)

Lemma not_exists_empty r key : exists_ r key = false → hgetall r key = ∅.
Proof.
  unfold exists_. intros H. apply bool_decide_eq_false in H.
  destruct (decide (hgetall r key = ∅)); [done|]. by destruct H.
Qed.

(** The hash of a job right after [addJob]: the fields written, over those
    that were there. *)
Lemma addJob_hash extractTags r now job :
  hgetall (fst (addJob extractTags r now job)) (K.job (board job) (job_id job))
  = <["tags" := join "," (extractTags (title job) (department job))]>
      (job_fields (full_job extractTags now job))
    ∪ hgetall r (K.job (board job) (job_id job)).
Proof.
  unfold addJob, addJob_cmds. cbn [fst]. rewrite execPipe_app.
  rewrite execPipe_keeps_hash.
  - rewrite !execPipe_cons. change (execPipe [] ?x) with x.
    rewrite !hgetall_exec. by rewrite decide_True.
  - apply Forall_forall. intros c Hc. apply list_elem_of_fmap in Hc as (t & -> & _). done.
Qed.

Lemma full_job_no_tags_field extractTags now job :
  job_fields (full_job extractTags now job) !! "tags" = None.
Proof. reflexivity. Qed.

(** X1. [getJob] after [addJob]: for a job with a non-empty id whose tags
    are plain, [getJob] finds the job, with the tags of the classifier as an
    array again and with every field [addJob] returned; when the job had no
    hash before, [getJob] returns the very job [addJob] returned. *)
Theorem addJob_getJob extractTags r now job :
  job_id job ≠ "" →
  plain_tags (extractTags (title job) (department job)) →
  let r' := fst (addJob extractTags r now job) in
  (∃ j, getJob r' (board job) (job_id job) = Some j
        ∧ job_tags j = extractTags (title job) (department job)
        ∧ ∀ k v, job_fields (snd (addJob extractTags r now job)) !! k = Some v →
                 job_fields j !! k = Some v)
  ∧ (exists_ r (K.job (board job) (job_id job)) = false →
     getJob r' (board job) (job_id job) = Some (snd (addJob extractTags r now job))).
Proof.
  intros Hid Htags r'. unfold r', getJob, parseJobHash. rewrite addJob_hash.
  set (full := full_job extractTags now job).
  set (data := _ ∪ _).
  assert (data !! "job_id" = Some (job_id job)) as Hjid.
  { unfold data. rewrite lookup_union, lookup_insert_ne by done.
    assert (job_fields full !! "job_id" = Some (job_id job)) as -> by reflexivity.
    by destruct (hgetall r _ !! "job_id"). }
  assert (data !! "tags" = Some (join "," (extractTags (title job) (department job))))
    as Htg.
  { unfold data. rewrite lookup_union, lookup_insert_eq.
    by destruct (hgetall r _ !! "tags"). }
  rewrite Hjid. unfold truthy. rewrite bool_decide_eq_false_2 by done.
  simpl negb. cbv iota. rewrite (tags_of_join _ _ Htags Htg).
  split.
  - eexists. split; [reflexivity|]. split; [done|].
    intros k v Hk. cbn [snd addJob] in Hk. fold full in Hk. simpl job_fields.
    assert (k ≠ "tags") as Hne.
    { intros ->. assert (job_fields full !! "tags" = None) as Hn by reflexivity.
      congruence. }
    rewrite lookup_delete_ne by done. unfold data.
    rewrite lookup_union, lookup_insert_ne, Hk by done.
    by destruct (hgetall r _ !! k).
  - intros Hnew. apply not_exists_empty in Hnew. cbn [snd addJob]. fold full.
    f_equal. destruct full as [ff ft] eqn:Hfull. f_equal.
    + unfold data. rewrite Hnew, (right_id ∅ (∪)). simpl.
      apply delete_insert_id.
      change ff with (job_fields (mkJob ff ft)). rewrite <- Hfull.
      apply full_job_no_tags_field.
    + change ft with (job_tags (mkJob ff ft)). by rewrite <- Hfull.
Qed.

Lemma addJob_getJob_witness :
  getJob st_job "ramp" "42" = Some (snd (addJob sample_tags st_board "t1" job42)).
Proof.
  apply (addJob_getJob sample_tags st_board "t1" job42).
  - intros H. discriminate H.
  - repeat constructor; try (intros H; discriminate H).
  - vm_compute. reflexivity.
Defined.

(** ** Listing jobs *)

Lemma when_truthy_interp {A} v (f : string → list A) :
  when_truthy v f = if truthy v then f (interp v) else [].
Proof. by destruct v. Qed.

Lemma elem_of_smembers r key m : m ∈ smembers r key ↔ m ∈ smembers_set r key.
Proof. unfold smembers. apply elem_of_elements. Qed.

Lemma elem_of_filter_bool {A} (f : A → bool) (l : list A) x :
  x ∈ List.filter f l ↔ x ∈ l ∧ f x = true.
Proof. rewrite !list_elem_of_In. apply filter_In. Qed.

Lemma elem_of_sinter2 r k1 k2 m :
  m ∈ sinter r [k1; k2] ↔ m ∈ smembers_set r k1 ∧ m ∈ smembers_set r k2.
Proof. unfold sinter. simpl. rewrite elem_of_elements. apply elem_of_intersection. Qed.

Lemma elem_of_boardCKs r b ck :
  ck ∈ map (λ jid, compositeKey b jid) (smembers r (K.boardJobsIdx b))
  ↔ ∃ jid, jid ∈ smembers_set r (K.boardJobsIdx b) ∧ ck = compositeKey b jid.
Proof.
  rewrite list_elem_of_fmap. split.
  - intros (jid & -> & Hj). exists jid. by rewrite <- elem_of_smembers.
  - intros (jid & Hj & ->). exists jid. by rewrite elem_of_smembers.
Qed.

Lemma elem_of_all_boards r ck :
  ck ∈ flat_map (λ bid, map (λ jid, compositeKey bid jid) (smembers r (K.boardJobsIdx bid)))
         (smembers r K.boardsIdx)
  ↔ ∃ bid jid, bid ∈ smembers_set r K.boardsIdx
               ∧ jid ∈ smembers_set r (K.boardJobsIdx bid)
               ∧ ck = compositeKey bid jid.
Proof.
  rewrite list_elem_of_In, in_flat_map. split.
  - intros (bid & Hb & Hck). apply list_elem_of_In in Hb, Hck.
    apply elem_of_boardCKs in Hck as (jid & Hj & ->).
    exists bid, jid. by rewrite <- elem_of_smembers.
  - intros (bid & jid & Hb & Hj & ->). exists bid.
    rewrite <- !list_elem_of_In. split; [by rewrite elem_of_smembers|].
    apply elem_of_boardCKs. eauto.
Qed.

Lemma status_is_not_boardJobs s b :
  bool_decide (K.jobStatusIdx s = K.boardJobsIdx b) = false.
Proof. apply bool_decide_eq_false. distinct_keys. Qed.

Lemma tag_is_not_boardJobs t b :
  bool_decide (K.tagIdx t = K.boardJobsIdx b) = false.
Proof. apply bool_decide_eq_false. distinct_keys. Qed.

Lemma same_key (k : string) : bool_decide (k = k) = true.
Proof. by apply bool_decide_eq_true_2. Qed.

(** Once it is known which filters are given, the keys [listJobs] hydrates
    are read off the index sets. *)
Ltac listed_keys :=
  cbn [app orb List.length];
  try change (bool_decide (3 = 1)) with false;
  try change (bool_decide (2 = 1)) with false;
  try change (bool_decide (1 = 1)) with true;
  cbn [List.filter];
  rewrite ?same_key, ?status_is_not_boardJobs, ?tag_is_not_boardJobs;
  cbn [negb];
  rewrite ?elem_of_filter_bool, ?bool_decide_eq_true, ?elem_of_sinter2,
    ?elem_of_smembers, ?elem_of_boardCKs, ?elem_of_all_boards.

(** X2. What [listJobs] lists: a job is in the result exactly when it is
    hydrated from a composite key that passes every filter given: a key of
    the board's job index when a board is given, in the index of the status
    and in the index of the tag when they are given; with no filter the
    keys are those of the job indexes of all boards. An empty string counts
    as a filter not given. *)
Theorem listJobs_spec r opts j :
  j ∈ listJobs r opts ↔ ∃ ck, listed_key r opts ck ∧ hydrate r ck = Some j.
Proof.
  unfold listJobs. rewrite list_elem_of_omap.
  apply exist_proper. intros ck.
  apply and_iff_compat_r. unfold listed_key.
  rewrite !when_truthy_interp.
  set (b := interp (opt_board opts)). set (s := interp (opt_status opts)).
  set (t := interp (opt_tag opts)).
  destruct (truthy (opt_board opts)), (truthy (opt_status opts)),
    (truthy (opt_tag opts)); listed_keys; naive_solver.
Qed.

Lemma truthy_Some s : s ≠ "" → truthy (Some s) = true.
Proof. intros H. unfold truthy. by rewrite bool_decide_eq_false_2. Qed.

Lemma addJob_job_exists extractTags r now job :
  job_id job ≠ "" →
  job_exists (fst (addJob extractTags r now job)) (board job) (job_id job).
Proof.
  intros Hid. unfold job_exists. rewrite addJob_hash.
  rewrite lookup_union, lookup_insert_ne by done.
  assert (job_fields (full_job extractTags now job) !! "job_id" = Some (job_id job))
    as -> by reflexivity.
  destruct (hgetall r _ !! "job_id"); by apply truthy_Some.
Qed.

Lemma getJob_exists r b j : job_exists r b j → ∃ job, getJob r b j = Some job.
Proof.
  unfold job_exists, getJob, parseJobHash. intros ->. simpl. eauto.
Qed.

(** The index entries of a job right after [addJob]. *)
Lemma addJob_indexed extractTags r now job :
  let r' := fst (addJob extractTags r now job) in
  job_id job ∈ smembers_set r' (K.boardJobsIdx (board job))
  ∧ compositeKey (board job) (job_id job) ∈ smembers_set r' (K.jobStatusIdx "discovered")
  ∧ ∀ t, t ∈ extractTags (title job) (department job) →
         compositeKey (board job) (job_id job) ∈ smembers_set r' (K.tagIdx t).
Proof.
  intros r'. unfold r', addJob. cbn [fst].
  split; [|split].
  - apply execPipe_adds_only; [apply addJob_cmds_adds_only|]. right.
    unfold addJob_cmds. apply elem_of_app. left. apply elem_of_cons. right.
    apply elem_of_cons. by left.
  - apply execPipe_adds_only; [apply addJob_cmds_adds_only|]. right.
    unfold addJob_cmds. apply elem_of_app. left. apply elem_of_cons. right.
    apply elem_of_cons. right. apply elem_of_cons. by left.
  - intros t Ht. apply execPipe_adds_only; [apply addJob_cmds_adds_only|]. right.
    unfold addJob_cmds. apply elem_of_app. right. apply list_elem_of_fmap. eauto.
Qed.

(** X3. A job that was added is found by every listing it belongs to: for a
    job whose board and id are not empty and hold no colon, the job [getJob]
    finds right after [addJob] is listed by [listJobs] for its board, for
    its board and the status discovered, for the status discovered alone,
    and for each of its non-empty tags. *)
Theorem addJob_listJobs extractTags r now job :
  job_id job ≠ "" → board job ≠ "" →
  contains colon (board job) = false → contains colon (job_id job) = false →
  let r' := fst (addJob extractTags r now job) in
  ∃ j, getJob r' (board job) (job_id job) = Some j
       ∧ j ∈ listJobs r' (mkListOpts (Some (board job)) None None)
       ∧ j ∈ listJobs r' (mkListOpts (Some (board job)) (Some "discovered") None)
       ∧ j ∈ listJobs r' (mkListOpts None (Some "discovered") None)
       ∧ ∀ t, t ∈ extractTags (title job) (department job) → t ≠ "" →
              j ∈ listJobs r' (mkListOpts None None (Some t)).
Proof.
  intros Hid Hb Hcb Hcj r'.
  destruct (getJob_exists r' _ _ (addJob_job_exists extractTags r now job Hid))
    as [j Hj].
  destruct (addJob_indexed extractTags r now job) as (Hidx & Hst & Htag).
  fold r' in Hidx, Hst, Htag.
  assert (hydrate r' (compositeKey (board job) (job_id job)) = Some j) as Hh
    by (by rewrite hydrate_compositeKey).
  exists j. split; [done|].
  assert (∀ keys : list string,
            compositeKey (board job) (job_id job) ∈ keys →
            j ∈ omap (hydrate r') keys) as Hin.
  { intros keys Hk. apply list_elem_of_omap. eauto. }
  pose proof (truthy_Some _ Hb) as Htb.
  repeat split.
  - unfold listJobs. apply Hin.
    rewrite !when_truthy_interp. simpl opt_board. simpl opt_status. simpl opt_tag.
    rewrite Htb. simpl truthy. simpl interp. listed_keys. eauto.
  - unfold listJobs. apply Hin.
    rewrite !when_truthy_interp. simpl opt_board. simpl opt_status. simpl opt_tag.
    rewrite Htb. simpl truthy. simpl interp. listed_keys. eauto.
  - unfold listJobs. apply Hin.
    rewrite !when_truthy_interp. simpl opt_board. simpl opt_status. simpl opt_tag.
    simpl truthy. simpl interp. listed_keys. done.
  - intros t Ht Hne. unfold listJobs. apply Hin.
    rewrite !when_truthy_interp. simpl opt_board. simpl opt_status. simpl opt_tag.
    rewrite (truthy_Some _ Hne). simpl truthy. simpl interp. listed_keys. by apply Htag.
Qed.

Lemma addJob_listJobs_witness :
  ∃ j, getJob st_job "ramp" "42" = Some j
       ∧ j ∈ listJobs st_job (mkListOpts (Some "ramp") (Some "discovered") None)
       ∧ j ∈ listJobs st_job (mkListOpts None None (Some "quant")).
Proof.
  destruct (addJob_listJobs sample_tags st_board "t1" job42)
    as (j & Hj & _ & Hbs & _ & Ht); try reflexivity;
    try (intros H; discriminate H).
  exists j. split; [exact Hj|]. split; [exact Hbs|].
  apply Ht; [|intros H; discriminate H]. vm_compute. left.
Defined.

(** ** Jobs matching a user *)

Lemma elem_of_sunion_acc r keys (acc : gset string) m :
  m ∈ foldl (λ acc k', acc ∪ smembers_set r k') acc keys
  ↔ m ∈ acc ∨ ∃ k, k ∈ keys ∧ m ∈ smembers_set r k.
Proof.
  revert acc. induction keys as [|k keys IH]; intros acc; simpl.
  - split; [auto|]. intros [?|(k & Hk & _)]; [done|]. by apply elem_of_nil in Hk.
  - rewrite IH, elem_of_union. split.
    + intros [[?|?]|(k' & Hk' & Hm)]; [by left| |].
      * right. exists k. split; [by left|done].
      * right. exists k'. split; [by right|done].
    + intros [?|(k' & Hk' & Hm)]; [by left; left|].
      apply elem_of_cons in Hk' as [->|Hk']; [by left; right|].
      right. eauto.
Qed.

Lemma elem_of_sunion r keys m :
  m ∈ sunion r keys ↔ ∃ k, k ∈ keys ∧ m ∈ smembers_set r k.
Proof.
  unfold sunion. rewrite elem_of_elements, elem_of_sunion_acc.
  split; [|auto]. intros [H|H]; [|done]. by apply elem_of_empty in H.
Qed.

(** The candidate keys of [listJobsForUser]: SMEMBERS for one tag, SUNION
    for several. *)
Lemma candidate_keys r tags ck :
  ck ∈ match map K.tagIdx tags with
       | [s] => smembers r s
       | _ => sunion r (map K.tagIdx tags)
       end
  ↔ ∃ t, t ∈ tags ∧ ck ∈ smembers_set r (K.tagIdx t).
Proof.
  assert (ck ∈ sunion r (map K.tagIdx tags)
          ↔ ∃ t, t ∈ tags ∧ ck ∈ smembers_set r (K.tagIdx t)) as Hu.
  { rewrite elem_of_sunion. split.
    - intros (k & Hk & Hm). apply list_elem_of_fmap in Hk as (t & -> & Ht). eauto.
    - intros (t & Ht & Hm). exists (K.tagIdx t). split; [|done].
      apply list_elem_of_fmap. eauto. }
  destruct tags as [|t0 [|t1 tags]]; [exact Hu| |exact Hu].
  simpl. rewrite elem_of_smembers. split.
  - intros H. exists t0. split; [by left|done].
  - intros (t & Ht & H). by apply list_elem_of_singleton in Ht as ->.
Qed.

(** X4. What [listJobsForUser] lists: a job is in the result exactly when
    the user exists and the job is hydrated from a composite key that is in
    the tag index of one of the user's tags and in the index of the status
    asked for (discovered when none is given), and that starts with the
    board and a colon when a board is given. *)
Theorem listJobsForUser_spec r userId opts j :
  j ∈ listJobsForUser r userId opts
  ↔ ∃ user ck, getUser r userId = Some user
               ∧ user_key r (user_tags user) opts ck
               ∧ hydrate r ck = Some j.
Proof.
  unfold listJobsForUser.
  destruct (getUser r userId) as [user|].
  2: { split.
       - intros H. by apply elem_of_nil in H.
       - intros (user & ck & H & _). discriminate H. }
  transitivity (∃ ck, user_key r (user_tags user) opts ck ∧ hydrate r ck = Some j).
  2: { split.
       - intros (ck & Hk & Hh). by exists user, ck.
       - intros (user' & ck & [= <-] & Hk & Hh). eauto. }
  destruct (user_tags user) as [|t0 tl] eqn:Htags.
  - split.
    + intros H. by apply elem_of_nil in H.
    + intros (ck & ((t & Ht & _) & _) & _). by apply elem_of_nil in Ht.
  - cbv beta iota zeta. rewrite list_elem_of_omap.
    apply exist_proper. intros ck. apply and_iff_compat_r. unfold user_key.
    destruct (truthy (uopt_board opts));
      rewrite ?elem_of_filter_bool, ?bool_decide_eq_true, ?elem_of_smembers,
        candidate_keys;
      naive_solver.
Qed.

(** ** Runs after they are created *)

(** The hash of a job after [updateJobStatus]: status and time written over
    the fields that were there. *)
Lemma updateJobStatus_hash r now b j st :
  job_exists r b j →
  hgetall (fst (updateJobStatus r now b j st)) (K.job b j)
  = list_to_map [("status", job_status_str st); ("updated_at", now)]
    ∪ hgetall r (K.job b j).
Proof.
  unfold job_exists. intros He. unfold updateJobStatus. rewrite He. simpl negb.
  cbv iota. cbn [fst]. rewrite execPipe_app.
  unfold hgetall at 1. rewrite execPipe_hashes.
  - cbn [execPipe foldl]. simpl. by rewrite lookup_insert_eq.
  - apply Forall_app. split; [|repeat constructor].
    apply when_truthy_Forall. intros s. repeat constructor.
Qed.

Lemma updateJobStatus_job_exists r now b j st :
  job_exists r b j → job_exists (fst (updateJobStatus r now b j st)) b j.
Proof.
  intros He. unfold job_exists. rewrite updateJobStatus_hash by done.
  rewrite lookup_union. simpl. unfold job_exists in He.
  by destruct (hgetall r (K.job b j) !! "job_id").
Qed.

(** What a created run leaves in the store. *)
Lemma createRun_created_facts r clock now now2 run a r1 full :
  createRun r clock now now2 run a = (r1, RunCreated full) →
  full = mkJobRun (Some (run_id run)) (Some (run_job_id run)) (Some (run_board run))
           (Some (variant_id run)) (Some "pending") (Some now) None None a
  ∧ hgetall_run r1 (K.run (run_id run))
    = mkRunHash (Some (run_id run)) (Some (run_job_id run)) (Some (run_board run))
        (Some (variant_id run)) (Some "pending") (Some now) (Some "") (Some "") (Some a)
  ∧ run_id run ∈ smembers_set r1 (K.jobRunsIdx (run_job_id run))
  ∧ run_id run ∈ smembers_set r1 K.runsAll
  ∧ job_exists r1 (run_board run) (run_job_id run)
  ∧ hgetall r1 (K.job (run_board run) (run_job_id run)) !! "status" = Some "queued".
Proof.
  unfold createRun, set_ex_nx.
  destruct (live_lock _ _ _); [done|]. simpl negb. cbv iota.
  change (getJob (set_locks _ r)) with (getJob r).
  destruct (getJob r _ _) as [job|] eqn:Hj; [|done].
  destruct (applicable (job_status job)) eqn:Happ; [|done]. simpl negb. cbv iota.
  destruct (job_status_hash _ _ _ _ Hj) as [Hex Hstatus].
  set (r0 := set_locks _ r). set (pipe := [_; _; _]). set (r2 := execPipe pipe r0).
  assert (hashes r2 = hashes r) as Hh by reflexivity.
  assert (hgetall_run r2 (K.run (run_id run))
          = mkRunHash (Some (run_id run)) (Some (run_job_id run)) (Some (run_board run))
              (Some (variant_id run)) (Some "pending") (Some now) (Some "") (Some "")
              (Some a)) as Hrun.
  { unfold hgetall_run, r2, pipe. simpl. by rewrite lookup_insert_eq. }
  assert (run_id run ∈ smembers_set r2 (K.jobRunsIdx (run_job_id run))) as Hidx.
  { unfold r2, pipe. rewrite !execPipe_cons. change (execPipe [] ?x) with x.
    rewrite !elem_of_exec. auto. }
  assert (run_id run ∈ smembers_set r2 K.runsAll) as Hall.
  { unfold r2, pipe. rewrite !execPipe_cons. change (execPipe [] ?x) with x.
    rewrite !elem_of_exec. auto. }
  assert (job_exists r2 (run_board run) (run_job_id run)) as Hex2
    by (by apply (job_exists_hashes r)).
  intros [= <- <-]. split; [done|].
  destruct (bool_decide (job_status job = Some "discovered")) eqn:Hd.
  - split; [unfold hgetall_run; rewrite updateJobStatus_runs; apply Hrun|].
    split; [rewrite updateJobStatus_other_sets; [done|apply jobRunsIdx_not_status]|].
    split; [rewrite updateJobStatus_other_sets; [done|apply runsAll_not_status]|].
    split; [by apply updateJobStatus_job_exists|].
    by rewrite updateJobStatus_status.
  - split; [done|]. split; [done|]. split; [done|]. split; [done|].
    apply bool_decide_eq_false in Hd. unfold hgetall. rewrite Hh.
    fold (hgetall r (K.job (run_board run) (run_job_id run))). rewrite <- Hstatus.
    unfold applicable, APPLICABLE_STATUSES in Happ.
    destruct (job_status job) as [s|]; [|done].
    apply bool_decide_eq_true in Happ.
    apply elem_of_cons in Happ as [->|Happ]; [done|].
    by apply list_elem_of_singleton in Happ as ->.
Qed.

(** X5. A created run is listed: after [createRun] has answered with a run
    whose id is not empty, [listRuns] without a job id lists that very run,
    and so does [listRuns] for the job id of the run when it is not empty. *)
Theorem createRun_listRuns r clock now now2 run a r1 full :
  createRun r clock now now2 run a = (r1, RunCreated full) →
  run_id run ≠ "" →
  full ∈ listRuns r1 None
  ∧ (run_job_id run ≠ "" → full ∈ listRuns r1 (Some (run_job_id run))).
Proof.
  intros Hc Hid.
  destruct (createRun_created_facts _ _ _ _ _ _ _ _ Hc)
    as (-> & Hhash & Hidx & Hall & _).
  assert (parseRunHash (hgetall_run r1 (K.run (run_id run)))
          = Some (mkJobRun (Some (run_id run)) (Some (run_job_id run))
                    (Some (run_board run)) (Some (variant_id run)) (Some "pending")
                    (Some now) None None a)) as Hp.
  { rewrite Hhash. unfold parseRunHash. simpl h_run_id.
    rewrite truthy_Some by done. reflexivity. }
  split.
  - unfold listRuns. simpl truthy. cbv iota. apply list_elem_of_omap.
    exists (run_id run). split; [by apply elem_of_smembers|done].
  - intros Hj. unfold listRuns. rewrite truthy_Some by done. simpl interp.
    apply list_elem_of_omap. exists (run_id run).
    split; [by apply elem_of_smembers|done].
Qed.

Lemma createRun_listRuns_witness :
  mkJobRun (Some "r1") (Some "42") (Some "ramp") (Some "v1") (Some "pending") (Some "t2")
    None None None
  ∈ listRuns st_claimed (Some "42").
Proof.
  apply (createRun_listRuns st_job 100 "t2" "t3" run_r1 None st_claimed).
  - vm_compute. reflexivity.
  - intros H. discriminate H.
  - intros H. discriminate H.
Defined.

(** ** Claiming a job again *)

(** With the lock free and the job present and discovered or queued,
    [createRun] creates the run. *)
Lemma createRun_succeeds r clock now now2 run a :
  live_lock r (K.applyLock (run_board run) (run_job_id run)) clock = None →
  job_exists r (run_board run) (run_job_id run) →
  hgetall r (K.job (run_board run) (run_job_id run)) !! "status" = Some "discovered"
  ∨ hgetall r (K.job (run_board run) (run_job_id run)) !! "status" = Some "queued" →
  ∃ r' full, createRun r clock now now2 run a = (r', RunCreated full).
Proof.
  intros Hl Hex Hst. unfold createRun, set_ex_nx. rewrite Hl. simpl negb. cbv iota.
  change (getJob (set_locks _ r)) with (getJob r).
  destruct (getJob_exists _ _ _ Hex) as [job Hj]. rewrite Hj.
  destruct (job_status_hash _ _ _ _ Hj) as [_ Hstatus].
  assert (applicable (job_status job) = true) as ->.
  { rewrite Hstatus. by destruct Hst as [-> | ->]. }
  simpl negb. cbv iota. eauto.
Qed.

(** With the lock free, [createRun] does not answer with the conflict. *)
Lemma createRun_free_no_conflict r clock now now2 run a :
  live_lock r (K.applyLock (run_board run) (run_job_id run)) clock = None →
  rejection_code (snd (createRun r clock now now2 run a)) ≠ Some 409%Z.
Proof.
  intros Hl. unfold createRun, set_ex_nx. rewrite Hl. simpl negb. cbv iota.
  destruct (getJob _ _ _) as [job|]; [|done].
  by destruct (negb (applicable _)).
Qed.

Lemma live_lock_none r key clock : locks r !! key = None → live_lock r key clock = None.
Proof. intros H. unfold live_lock. by rewrite H. Qed.

(** After an update with a terminal status the lock of the run's job is
    gone. *)
Lemma updateRun_terminal_lock r now now2 runId update :
  run_exists r runId →
  merge_defined r runId update →
  upd_status update = success ∨ upd_status update = failed →
  locks (fst (updateRun r now now2 runId update))
  !! K.applyLock (interp (h_board (hgetall_run r (K.run runId))))
       (interp (h_job_id (hgetall_run r (K.run runId))))
  = None.
Proof.
  intros He Hm Hst.
  destruct (updateRun_unfold r now now2 runId update He Hm) as (fields & Hupd).
  destruct Hupd as (_ & _ & _ & _ & _ & _ & Hupd). cbv zeta in Hupd. rewrite Hupd.
  cbn [fst]. destruct Hst as [-> | ->]; apply lookup_delete_eq.
Qed.

(** X6. A terminal update releases the lock: after [updateRun] with the
    status success or failed on a run that exists, a [createRun] for the
    board and job id of that run is never answered with the conflict, code
    409, at whatever time it comes. *)
Theorem updateRun_terminal_no_conflict r now now2 runId update :
  run_exists r runId →
  merge_defined r runId update →
  upd_status update = success ∨ upd_status update = failed →
  ∀ clock now' now2' run a,
    run_board run = interp (h_board (hgetall_run r (K.run runId))) →
    run_job_id run = interp (h_job_id (hgetall_run r (K.run runId))) →
    rejection_code
      (snd (createRun (fst (updateRun r now now2 runId update)) clock now' now2' run a))
    ≠ Some 409%Z.
Proof.
  intros He Hm Hst clock now' now2' run a Hb Hj.
  apply createRun_free_no_conflict, live_lock_none. rewrite Hb, Hj.
  by apply updateRun_terminal_lock.
Qed.

Lemma updateRun_terminal_no_conflict_witness :
  rejection_code (snd (createRun st_applied 150 "t6" "t7" run_r2 None)) ≠ Some 409%Z.
Proof.
  apply (updateRun_terminal_no_conflict st_claimed "t4" "t5" "r1"
           (mkRunUpdate success None None)).
  - vm_compute. reflexivity.
  - exact I.
  - left. reflexivity.
  - vm_compute. reflexivity.
  - vm_compute. reflexivity.
Defined.

(** X7. A failed run frees its job for the next claim, whatever the other
    runs are: when the job of the run exists and is queued or discovered,
    then after an [updateRun] with the status failed that returns, its
    merge of artifacts not throwing, a [createRun] for that job creates a
    run, at whatever time it comes, also when another run of the job is
    pending or submitted and holds the lock. *)
Theorem updateRun_failed_reclaim r now now2 runId update :
  run_exists r runId →
  merge_defined r runId update →
  upd_status update = failed →
  let b := interp (h_board (hgetall_run r (K.run runId))) in
  let j := interp (h_job_id (hgetall_run r (K.run runId))) in
  job_exists r b j →
  hgetall r (K.job b j) !! "status" = Some "discovered"
  ∨ hgetall r (K.job b j) !! "status" = Some "queued" →
  ∀ clock now' now2' run a,
    run_board run = b → run_job_id run = j →
    ∃ r' full,
      createRun (fst (updateRun r now now2 runId update)) clock now' now2' run a
      = (r', RunCreated full).
Proof.
  intros He Hm Hf b j Hex Hst clock now' now2' run a Hb Hj.
  pose proof (updateRun_terminal_lock r now now2 runId update He Hm (or_intror Hf))
    as Hlock. fold b j in Hlock.
  destruct (updateRun_unfold r now now2 runId update He Hm) as (fields & Hupd).
  destruct Hupd as (_ & _ & _ & _ & _ & _ & Hupd). cbv zeta in Hupd.
  fold b j in Hupd. rewrite Hf in Hupd. rewrite Hupd in Hlock |- *. cbn [fst] in *.
  set (r1 := exec (HSET_run (K.run runId) fields) r) in *.
  assert (job_exists r1 b j) as Hex1 by (by apply (job_exists_hashes r)).
  assert (hgetall r1 (K.job b j) = hgetall r (K.job b j)) as Hh1 by reflexivity.
  apply createRun_succeeds; rewrite ?Hb, ?Hj.
  - by apply live_lock_none.
  - destruct (negb _); [|done].
    apply (job_exists_hashes (fst (updateJobStatus r1 now2 b j discovered))); [done|].
    by apply updateJobStatus_job_exists.
  - rewrite !hgetall_del_lock. destruct (negb _).
    + left. by apply updateJobStatus_status.
    + by rewrite Hh1.
Qed.

Lemma updateRun_failed_reclaim_witness :
  ∃ r' full,
    createRun (fst (updateRun st_two_runs "t8" "t9" "r1"
                      (mkRunUpdate failed (Some "timeout") None)))
      510 "t10" "t11" (mkRunInput "r3" "42" "ramp" "v3") None
    = (r', RunCreated full).
Proof.
  apply (updateRun_failed_reclaim st_two_runs "t8" "t9" "r1"
           (mkRunUpdate failed (Some "timeout") None)).
  - vm_compute. reflexivity.
  - exact I.
  - reflexivity.
  - vm_compute. reflexivity.
  - right. vm_compute. reflexivity.
  - vm_compute. reflexivity.
  - vm_compute. reflexivity.
Defined.

(** X8. A lock that has run out excludes no more: when [createRun] has
    created a run at time [clock0], a [createRun] for the same board and job
    id at a time from [clock0 + 300] on creates a second run, although the
    first is still pending. *)
Theorem createRun_after_expiry r clock0 now0 now0' run a r1 full :
  createRun r clock0 now0 now0' run a = (r1, RunCreated full) →
  ∀ (clock : nat) now now' run2 a2,
    run_board run2 = run_board run →
    run_job_id run2 = run_job_id run →
    (clock0 + 300 ≤ clock)%nat →
    h_status (hgetall_run r1 (K.run (run_id run))) = Some "pending"
    ∧ ∃ r2 full2, createRun r1 clock now now' run2 a2 = (r2, RunCreated full2).
Proof.
  intros Hc clock now now' run2 a2 Hb Hj Hclock.
  destruct (createRun_created_facts _ _ _ _ _ _ _ _ Hc)
    as (_ & Hhash & _ & _ & Hex & Hst).
  split; [by rewrite Hhash|].
  apply createRun_succeeds; rewrite ?Hb, ?Hj; [|done|by right].
  apply createRun_created_lock in Hc. unfold live_lock. rewrite Hc.
  rewrite decide_False; [done|]. unfold LOCK_TTL_SECONDS. lia.
Qed.

Lemma createRun_after_expiry_witness :
  ∃ r2 full2, createRun st_claimed 400 "t6" "t7" run_r2 None = (r2, RunCreated full2).
Proof.
  apply (createRun_after_expiry st_job 100 "t2" "t3" run_r1 None st_claimed
           (mkJobRun (Some "r1") (Some "42") (Some "ramp") (Some "v1") (Some "pending")
              (Some "t2") None None None)).
  - vm_compute. reflexivity.
  - reflexivity.
  - reflexivity.
  - lia.
Defined.

(** ** What an update leaves of a run *)

Lemma hgetall_run_ext r r' key : runs r' = runs r → hgetall_run r' key = hgetall_run r key.
Proof. unfold hgetall_run. by intros ->. Qed.

(** The hash of the run after [updateRun], field by field of the update. *)
Lemma updateRun_fields r now now2 runId update :
  run_exists r runId →
  merge_defined r runId update →
  ∃ arts,
    (upd_artifacts update = None → arts = None)
    ∧ hgetall_run (fst (updateRun r now now2 runId update)) (K.run runId)
      = hset_run_fields
          (mkRunHash None None None None (Some (run_status_str (upd_status update))) None
             (match upd_status update with
              | success | failed => Some now
              | _ => None
              end)
             (or_null (upd_error update)) arts)
          (hgetall_run r (K.run runId)).
Proof.
  intros He Hm. unfold updateRun. unfold run_exists in He. rewrite He. simpl negb.
  cbv iota.
  assert (∃ arts,
            (upd_artifacts update = None → arts = None)
            ∧ match upd_artifacts update with
              | Some ua =>
                  match merge_artifacts (h_artifacts (hgetall_run r (K.run runId))) ua with
                  | Return m => Return (Some (Some m))
                  | Throw e => Throw e
                  end
              | None => Return None
              end = Return arts) as (arts & Hnone & ->).
  { destruct (upd_artifacts update) as [ua|] eqn:Hua; [|by exists None].
    destruct (merge_defined_returns r runId ua update Hua Hm) as [m ->].
    eexists. split; [|reflexivity]. intros H. discriminate H. }
  exists arts. split; [done|]. cbn [fst].
  set (fields := mkRunHash _ _ _ _ _ _ _ _ _).
  set (r1 := exec (HSET_run (K.run runId) fields) r).
  assert (hgetall_run r1 (K.run runId)
          = hset_run_fields fields (hgetall_run r (K.run runId))) as H1.
  { unfold hgetall_run at 1. unfold r1. simpl. by rewrite lookup_insert_eq. }
  rewrite <- H1. apply hgetall_run_ext.
  destruct (upd_status update); try done.
  - apply updateJobStatus_runs.
  - simpl runs. destruct (negb _); [apply updateJobStatus_runs|done].
Qed.

(** X9. What an [updateRun] that returns, its merge of artifacts not
    throwing, leaves of a run: the run id, job id, board, variant and
    start time in the hash are never changed; the completion
    time is set to [now] by success and failed and kept by pending and
    submitted; the error is replaced only by a non-empty error; the
    artifacts are kept when the update carries none. *)
Theorem updateRun_keeps_identity r now now2 runId update :
  run_exists r runId →
  merge_defined r runId update →
  let old := hgetall_run r (K.run runId) in
  let new := hgetall_run (fst (updateRun r now now2 runId update)) (K.run runId) in
  h_run_id new = h_run_id old
  ∧ h_job_id new = h_job_id old
  ∧ h_board new = h_board old
  ∧ h_variant_id new = h_variant_id old
  ∧ h_started_at new = h_started_at old
  ∧ h_completed_at new
    = match upd_status update with
      | success | failed => Some now
      | pending | submitted => h_completed_at old
      end
  ∧ h_error new = (if truthy (upd_error update) then upd_error update else h_error old)
  ∧ (upd_artifacts update = None → h_artifacts new = h_artifacts old).
Proof.
  intros He Hm old new.
  destruct (updateRun_fields r now now2 runId update He Hm) as (arts & Hnone & Hhash).
  unfold new. rewrite Hhash. fold old. simpl.
  repeat split; try done.
  - by destruct (upd_status update).
  - unfold or_null. destruct (upd_error update) as [e|]; [|done].
    by destruct (truthy (Some e)).
  - intros Hn. by rewrite (Hnone Hn).
Qed.

Lemma updateRun_keeps_identity_witness :
  let new := hgetall_run
               (fst (updateRun st_applied "t6" "t7" "r1" (mkRunUpdate submitted None None)))
               (K.run "r1") in
  h_started_at new = Some "t2" ∧ h_completed_at new = Some "t4".
Proof.
  destruct (updateRun_keeps_identity st_applied "t6" "t7" "r1"
              (mkRunUpdate submitted None None))
    as (_ & _ & _ & _ & Hs & Hc & _).
  - vm_compute. reflexivity.
  - exact I.
  - split.
    + rewrite Hs. vm_compute. reflexivity.
    + rewrite Hc. vm_compute. reflexivity.
Defined.

(** ** Removing a job *)

(** The pipeline of [removeJob]. *)
Lemma removeJob_unfold r b j :
  job_exists r b j →
  removeJob r b j
  = (execPipe
       (when_truthy (hgetall r (K.job b j) !! "status")
          (λ status, [SREM (K.jobStatusIdx status) (compositeKey b j)])
        ++ when_truthy (hgetall r (K.job b j) !! "tags")
             (λ tags, map (λ tag, SREM (K.tagIdx tag) (compositeKey b j))
                        (split comma tags))
        ++ [SREM (K.boardJobsIdx b) j; DEL (K.job b j)]) r,
     true).
Proof. unfold job_exists. intros He. unfold removeJob. by rewrite He. Qed.

Lemma removeJob_cmd_shape r b j c :
  c ∈ when_truthy (hgetall r (K.job b j) !! "status")
        (λ status, [SREM (K.jobStatusIdx status) (compositeKey b j)])
      ++ when_truthy (hgetall r (K.job b j) !! "tags")
           (λ tags, map (λ tag, SREM (K.tagIdx tag) (compositeKey b j))
                      (split comma tags))
      ++ [SREM (K.boardJobsIdx b) j; DEL (K.job b j)] →
  (∃ key, c = SREM key (compositeKey b j) ∧ key ≠ K.boardJobsIdx b)
  ∨ c = SREM (K.boardJobsIdx b) j
  ∨ c = DEL (K.job b j).
Proof.
  unfold when_truthy. intros Hc.
  apply elem_of_app in Hc as [Hc|Hc]; [|apply elem_of_app in Hc as [Hc|Hc]].
  - left. destruct (_ !! "status") as [s|]; [|by apply elem_of_nil in Hc].
    destruct (truthy (Some s)); [|by apply elem_of_nil in Hc].
    apply list_elem_of_singleton in Hc. eexists. split; [done|].
    intros H. symmetry in H. by apply boardJobsIdx_not_status in H.
  - left. destruct (_ !! "tags") as [s|]; [|by apply elem_of_nil in Hc].
    destruct (truthy (Some s)); [|by apply elem_of_nil in Hc].
    apply list_elem_of_fmap in Hc as (t & -> & _). eexists. split; [done|].
    intros H. symmetry in H. by apply boardJobsIdx_not_tag in H.
  - apply elem_of_cons in Hc as [->|Hc]; [by right; left|].
    apply list_elem_of_singleton in Hc. by right; right.
Qed.

(** X10. [removeJob]: on a job without a job id in its hash it answers
    false and changes nothing. On a job that exists it answers true; the
    hash is gone and [getJob] finds nothing; the job id is out of the job
    index of the board and the composite key out of the index of the status
    and of every tag in the hash; every other hash, every other member of an
    index set, the runs and the locks are as they were. *)
Theorem removeJob_spec r b j :
  (¬ job_exists r b j → removeJob r b j = (r, false))
  ∧ (job_exists r b j →
     let r' := fst (removeJob r b j) in
     snd (removeJob r b j) = true
     ∧ hgetall r' (K.job b j) = ∅
     ∧ getJob r' b j = None
     ∧ (j ∉ smembers_set r' (K.boardJobsIdx b))
     ∧ (∀ status, hgetall r (K.job b j) !! "status" = Some status → status ≠ "" →
                  compositeKey b j ∉ smembers_set r' (K.jobStatusIdx status))
     ∧ (∀ tag, tag ∈ tags_of (hgetall r (K.job b j)) →
               compositeKey b j ∉ smembers_set r' (K.tagIdx tag))
     ∧ (∀ key, key ≠ K.job b j → hgetall r' key = hgetall r key)
     ∧ (∀ key member,
          member ≠ compositeKey b j → ¬ (key = K.boardJobsIdx b ∧ member = j) →
          member ∈ smembers_set r' key ↔ member ∈ smembers_set r key)
     ∧ (∀ key member, member ∈ smembers_set r' key → member ∈ smembers_set r key)
     ∧ runs r' = runs r
     ∧ locks r' = locks r).
Proof.
  split.
  - unfold job_exists, removeJob. intros He. by destruct (truthy _).
  - intros He r'. unfold r'. rewrite removeJob_unfold by done. cbn [fst snd].
    clear r'. set (pipe := _ ++ _).
    assert (∀ c, c ∈ pipe →
                 (∃ key, c = SREM key (compositeKey b j) ∧ key ≠ K.boardJobsIdx b)
                 ∨ c = SREM (K.boardJobsIdx b) j ∨ c = DEL (K.job b j)) as Hshape
      by apply removeJob_cmd_shape.
    assert (Forall removes_only pipe) as Hrem.
    { apply Forall_forall. intros c Hc.
      by destruct (Hshape c Hc) as [(key & -> & _)|[-> | ->]]. }
    assert (hgetall (execPipe pipe r) (K.job b j) = ∅) as Hgone.
    { apply execPipe_removed_hash; [done|]. right. unfold pipe.
      apply elem_of_app. right. apply elem_of_app. right. apply elem_of_cons. right.
      by left. }
    split; [done|]. split; [done|]. split.
    { unfold getJob, parseJobHash. by rewrite Hgone. }
    split.
    { apply execPipe_removed_member; [done|]. left. unfold pipe.
      apply elem_of_app. right. apply elem_of_app. right. by left. }
    split.
    { intros status Hst Hne. apply execPipe_removed_member; [done|]. left. unfold pipe.
      apply elem_of_app. left. rewrite Hst. unfold when_truthy.
      rewrite truthy_Some by done. by left. }
    split.
    { intros tag Ht. apply execPipe_removed_member; [done|]. left. unfold pipe.
      apply elem_of_app. right. apply elem_of_app. left.
      unfold tags_of in Ht. unfold when_truthy.
      destruct (hgetall r (K.job b j) !! "tags") as [s|]; [|by apply elem_of_nil in Ht].
      destruct (truthy (Some s)); [|by apply elem_of_nil in Ht].
      apply list_elem_of_fmap. eauto. }
    split.
    { intros key Hkey. apply execPipe_keeps_hash. apply Forall_forall. intros c Hc.
      destruct (Hshape c Hc) as [(key' & -> & _)|[-> | ->]]; simpl; done. }
    split.
    { intros key member Hm Hk. apply execPipe_keeps_member. apply Forall_forall.
      intros c Hc.
      destruct (Hshape c Hc) as [(key' & -> & _)|[-> | ->]]; simpl; try done.
      - intros [_ H]. by apply Hm.
      - intros [H1 H2]. apply Hk. by split. }
    split.
    { intros key member. by apply execPipe_removes_only. }
    split; [|apply execPipe_locks].
    apply execPipe_runs. eapply Forall_impl; [exact Hrem|]. apply removes_only_not_run.
Qed.

Lemma removeJob_spec_witness :
  getJob (fst (removeJob st_claimed "ramp" "42")) "ramp" "42" = None
  ∧ runs (fst (removeJob st_claimed "ramp" "42")) = runs st_claimed
  ∧ removeJob st_claimed "ramp" "43" = (st_claimed, false).
Proof.
  destruct (removeJob_spec st_claimed "ramp" "42") as [_ Hyes].
  destruct Hyes as (_ & _ & Hget & _ & _ & _ & _ & _ & _ & Hruns & _);
    [vm_compute; reflexivity|].
  destruct (removeJob_spec st_claimed "ramp" "43") as [Hno _].
  split; [exact Hget|]. split; [exact Hruns|].
  apply Hno. unfold job_exists. vm_compute. intros H. discriminate H.
Defined.

(** X11. A job added and then removed leaves no entry of its own: for a job
    with a non-empty id and plain tags, [removeJob] right after [addJob]
    answers true, after which [getJob] finds nothing, the job id is out of
    the job index of its board, and the composite key is out of the
    discovered index and of the index of every tag the classifier gave. *)
Theorem addJob_removeJob extractTags r now job :
  job_id job ≠ "" →
  plain_tags (extractTags (title job) (department job)) →
  let r1 := fst (addJob extractTags r now job) in
  let r2 := fst (removeJob r1 (board job) (job_id job)) in
  snd (removeJob r1 (board job) (job_id job)) = true
  ∧ getJob r2 (board job) (job_id job) = None
  ∧ (job_id job ∉ smembers_set r2 (K.boardJobsIdx (board job)))
  ∧ (compositeKey (board job) (job_id job) ∉ smembers_set r2 (K.jobStatusIdx "discovered"))
  ∧ ∀ t, t ∈ extractTags (title job) (department job) →
         compositeKey (board job) (job_id job) ∉ smembers_set r2 (K.tagIdx t).
Proof.
  intros Hid Htags r1 r2.
  pose proof (addJob_job_exists extractTags r now job Hid) as Hex. fold r1 in Hex.
  pose proof (addJob_status extractTags r now job) as Hst. fold r1 in Hst.
  assert (hgetall r1 (K.job (board job) (job_id job)) !! "tags"
          = Some (join "," (extractTags (title job) (department job)))) as Htg.
  { unfold r1. rewrite addJob_hash, lookup_union, lookup_insert_eq.
    by destruct (hgetall r _ !! "tags"). }
  unfold r2. rewrite removeJob_unfold by done. cbn [fst snd]. clear r2.
  set (pipe := _ ++ _).
  assert (Forall removes_only pipe) as Hrem.
  { apply Forall_forall. intros c Hc.
    by destruct (removeJob_cmd_shape _ _ _ _ Hc) as [(key & -> & _)|[-> | ->]]. }
  split; [done|]. split; [|split; [|split]].
  - unfold getJob, parseJobHash. rewrite execPipe_removed_hash; [done..|].
    right. unfold pipe. apply elem_of_app. right. apply elem_of_app. right.
    apply elem_of_cons. right. by left.
  - apply execPipe_removed_member; [done|]. left. unfold pipe.
    apply elem_of_app. right. apply elem_of_app. right. by left.
  - apply execPipe_removed_member; [done|]. left. unfold pipe.
    apply elem_of_app. left. rewrite Hst. by left.
  - intros t Ht. apply execPipe_removed_member; [done|]. left. unfold pipe.
    apply elem_of_app. right. apply elem_of_app. left. rewrite Htg.
    assert (join "," (extractTags (title job) (department job)) ≠ "") as Hne.
    { intros He. apply join_empty in He.
      - rewrite He in Ht. by apply elem_of_nil in Ht.
      - eapply Forall_impl; [exact Htags|]. by intros ? [? _]. }
    unfold when_truthy. rewrite truthy_Some by done.
    rewrite split_join.
    + apply list_elem_of_fmap. eauto.
    + eapply Forall_impl; [exact Htags|]. by intros ? [_ ?].
    + intros He. rewrite He in Ht. by apply elem_of_nil in Ht.
Qed.

Lemma addJob_removeJob_witness :
  let r2 := fst (removeJob st_job "ramp" "42") in
  getJob r2 "ramp" "42" = None
  ∧ (compositeKey "ramp" "42" ∉ smembers_set r2 (K.tagIdx "quant")).
Proof.
  destruct (addJob_removeJob sample_tags st_board "t1" job42)
    as (_ & Hget & _ & _ & Htag).
  - intros H. discriminate H.
  - repeat constructor; try (intros H; discriminate H).
  - split; [exact Hget|]. apply Htag. vm_compute. left.
Defined.

(** ** Moving a job to another status *)

Lemma updateJobStatus_other_hash r now b j st key :
  key ≠ K.job b j →
  hgetall (fst (updateJobStatus r now b j st)) key = hgetall r key.
Proof.
  intros Hkey. unfold updateJobStatus. destruct (negb _); [done|]. cbn [fst].
  apply execPipe_keeps_hash. apply Forall_app. split; [repeat constructor; done|].
  apply Forall_app. split; [|repeat constructor].
  apply when_truthy_Forall. intros s. repeat constructor.
Qed.

(** X12. [updateJobStatus]: on a job without a job id in its hash it
    answers null and changes nothing. On a job that exists it writes the
    status it is given, whatever the status was, and returns the job with
    it; the other fields of the hash but the update time, the other hashes,
    the runs and the locks are as they were; no other composite key moves
    in any index set; and when the composite key of the job was in no status
    index but that of the status in the hash, it is afterwards in the index
    of the new status and in no other. *)
Theorem updateJobStatus_spec r now b j st :
  (¬ job_exists r b j → updateJobStatus r now b j st = (r, None))
  ∧ (job_exists r b j →
     let r' := fst (updateJobStatus r now b j st) in
     (∃ job, snd (updateJobStatus r now b j st) = Some job
             ∧ job_status job = Some (job_status_str st)
             ∧ job_tags job = tags_of (hgetall r (K.job b j)))
     ∧ hgetall r' (K.job b j) !! "status" = Some (job_status_str st)
     ∧ (∀ k, k ≠ "status" → k ≠ "updated_at" →
             hgetall r' (K.job b j) !! k = hgetall r (K.job b j) !! k)
     ∧ (∀ key, key ≠ K.job b j → hgetall r' key = hgetall r key)
     ∧ (∀ key member, member ≠ compositeKey b j →
          member ∈ smembers_set r' key ↔ member ∈ smembers_set r key)
     ∧ ((∀ s, compositeKey b j ∈ smembers_set r (K.jobStatusIdx s) →
              hgetall r (K.job b j) !! "status" = Some s ∧ s ≠ "") →
        ∀ s, compositeKey b j ∈ smembers_set r' (K.jobStatusIdx s)
             ↔ s = job_status_str st)
     ∧ runs r' = runs r
     ∧ locks r' = locks r).
Proof.
  split.
  - unfold job_exists, updateJobStatus. intros He. by destruct (truthy _).
  - intros He r'. split; [|split; [|split; [|split; [|split; [|split; [|split]]]]]].
    + unfold updateJobStatus. unfold job_exists in He. rewrite He. simpl negb.
      cbv iota. cbn [snd]. eexists. split; [reflexivity|].
      split; [|done]. unfold job_status. simpl.
      by rewrite lookup_insert_ne, lookup_insert_eq.
    + by apply updateJobStatus_status.
    + intros k Hs Hu. unfold r'. rewrite updateJobStatus_hash by done.
      rewrite lookup_union.
      assert ((list_to_map [("status", job_status_str st); ("updated_at", now)]
                 : gmap string string) !! k = None) as ->.
      { simpl. rewrite lookup_insert_ne by done. by rewrite lookup_insert_ne. }
      by destruct (hgetall r (K.job b j) !! k).
    + intros key Hkey. by apply updateJobStatus_other_hash.
    + intros key member Hm. unfold r'. rewrite updateJobStatus_member by done.
      split; [|naive_solver]. intros [[_ ->]|[? _]]; done.
    + intros Hone s. unfold r'. rewrite updateJobStatus_member by done. split.
      * intros [[Hk _]|[Hin Hn]]; [by apply jobStatusIdx_inj in Hk|].
        destruct (Hone s Hin) as [Hst Hne]. destruct Hn. by exists s.
      * intros ->. by left.
    + apply updateJobStatus_runs.
    + apply updateJobStatus_locks.
Qed.

Lemma updateJobStatus_spec_witness :
  hgetall (fst (updateJobStatus st_applied "t9" "ramp" "42" discovered)) (K.job "ramp" "42")
  !! "status" = Some "discovered"
  ∧ updateJobStatus st_applied "t9" "ramp" "43" rejected = (st_applied, None).
Proof.
  destruct (updateJobStatus_spec st_applied "t9" "ramp" "42" discovered) as [_ Hyes].
  destruct Hyes as (_ & Hst & _); [vm_compute; reflexivity|].
  destruct (updateJobStatus_spec st_applied "t9" "ramp" "43" rejected) as [Hno _].
  split; [exact Hst|]. apply Hno. unfold job_exists. vm_compute. intros H. discriminate H.
Defined.

(** ** Users and boards *)

Lemma user_key_inj id1 id2 : K.user id1 = K.user id2 → id1 = id2.
Proof. unfold K.user. apply String.app_inj. Qed.

Lemma board_key_inj id1 id2 : K.board id1 = K.board id2 → id1 = id2.
Proof. unfold K.board. apply String.app_inj. Qed.

(** X13. [getUser] after [upsertUser]: for a non-empty id, [getUser] finds
    the very user [upsertUser] returned, whatever was stored under the id
    before, and [listUsers] lists that user; under the empty id nothing is
    found; every other user is as before. *)
Theorem upsertUser_getUser r now id resumes answers tags :
  let r' := fst (upsertUser r now id resumes answers tags) in
  (id ≠ "" →
   getUser r' id = Some (snd (upsertUser r now id resumes answers tags))
   ∧ snd (upsertUser r now id resumes answers tags) ∈ listUsers r')
  ∧ (id = "" → getUser r' id = None)
  ∧ (∀ id', id' ≠ id → getUser r' id' = getUser r id').
Proof.
  intros r'.
  assert (hgetall_user r' (K.user id)
          = mkUserHash (Some id) (Some resumes) (Some answers) (Some tags) (Some now))
    as Hh.
  { unfold r', hgetall_user, upsertUser. simpl. by rewrite lookup_insert_eq. }
  split; [|split].
  - intros Hid.
    assert (getUser r' id = Some (mkUser id resumes answers tags (Some now))) as Hg.
    { unfold getUser. rewrite Hh. simpl uh_id. cbv iota.
      rewrite truthy_Some by done. reflexivity. }
    split; [exact Hg|]. unfold listUsers. apply list_elem_of_omap. exists id.
    split; [|exact Hg]. apply elem_of_smembers. unfold r', upsertUser. cbn [fst].
    rewrite !execPipe_cons. change (execPipe [] ?x) with x. rewrite !elem_of_exec. auto.
  - intros ->. unfold getUser. rewrite Hh. reflexivity.
  - intros id' Hne. unfold getUser, hgetall_user, r', upsertUser. simpl.
    rewrite lookup_insert_ne; [done|]. intros H. by apply user_key_inj in H.
Qed.

Lemma upsertUser_getUser_witness :
  getUser st_quant_user "u2" = Some (mkUser "u2" ["cv.pdf"] ∅ ["quant"; "ml"] (Some "t2")).
Proof.
  apply (upsertUser_getUser st_job "t2" "u2" ["cv.pdf"] ∅ ["quant"; "ml"]).
  intros H. discriminate H.
Defined.

(** X14. [addBoard] on a board that may exist: afterwards the board has a
    hash with the company, the ATS and the time given, its id is in the
    boards index, and [removeBoard] finds it; the job index of every board,
    every other hash, the runs and the locks are as they were, so a board
    registered again keeps its jobs. *)
Theorem addBoard_spec r now id company ats :
  let r' := fst (addBoard r now id company ats) in
  hgetall r' (K.board id) !! "id" = Some id
  ∧ hgetall r' (K.board id) !! "company" = Some company
  ∧ hgetall r' (K.board id) !! "ats" = Some ats
  ∧ hgetall r' (K.board id) !! "created_at" = Some now
  ∧ id ∈ smembers_set r' K.boardsIdx
  ∧ snd (removeBoard r' id) = true
  ∧ (∀ key, key ≠ K.board id → hgetall r' key = hgetall r key)
  ∧ (∀ b, smembers_set r' (K.boardJobsIdx b) = smembers_set r (K.boardJobsIdx b))
  ∧ runs r' = runs r
  ∧ locks r' = locks r.
Proof.
  intros r'.
  assert (∀ k v,
            (list_to_map [("id", id); ("company", company); ("ats", ats);
                          ("created_at", now)] : gmap string string) !! k = Some v →
            hgetall r' (K.board id) !! k = Some v) as Hf.
  { intros k v Hk. unfold r', addBoard. cbn [fst].
    rewrite !execPipe_cons. change (execPipe [] ?x) with x.
    rewrite !hgetall_exec, decide_True by done. simpl created_at.
    rewrite lookup_union, Hk. by destruct (hgetall r (K.board id) !! k). }
  split; [by apply Hf|]. split; [by apply Hf|]. split; [by apply Hf|].
  split; [by apply Hf|]. split.
  { unfold r', addBoard. cbn [fst]. rewrite !execPipe_cons.
    change (execPipe [] ?x) with x. rewrite !elem_of_exec. auto. }
  split.
  { unfold removeBoard.
    assert (exists_ r' (K.board id) = true) as ->; [|done].
    unfold exists_. apply bool_decide_eq_true. intros He.
    specialize (Hf "id" id eq_refl). rewrite He in Hf. discriminate Hf. }
  split.
  { intros key Hkey. unfold r', addBoard. cbn [fst]. apply execPipe_keeps_hash.
    repeat constructor. simpl. by intros <-. }
  split.
  { intros b. unfold r', addBoard. cbn [fst]. apply execPipe_keeps_set.
    repeat constructor. simpl. distinct_keys. }
  split; [|apply execPipe_locks].
  apply execPipe_runs. repeat constructor.
Qed.

(** ** The handler *)

Lemma run_status_of_Some s st :
  run_status_of s = Some st → run_status_str st = s ∧ s ∈ validRunStatuses.
Proof.
  unfold run_status_of, validRunStatuses. intros Hs.
  repeat match type of Hs with
         | context [bool_decide (s = ?x)] =>
             let E := fresh "E" in
             destruct (decide (s = x)) as [E|E];
             [rewrite (bool_decide_eq_true_2 _ E) in Hs
             |rewrite (bool_decide_eq_false_2 _ E) in Hs]
         end.
  all: try discriminate Hs.
  all: injection Hs as <-; subst s; (split; [done|]); repeat (first [by left|right]).
Qed.

Lemma run_status_of_None s : run_status_of s = None → s ∉ validRunStatuses.
Proof.
  unfold run_status_of, validRunStatuses. intros Hs.
  repeat match type of Hs with
         | context [bool_decide (s = ?x)] =>
             let E := fresh "E" in
             destruct (decide (s = x)) as [E|E];
             [rewrite (bool_decide_eq_true_2 _ E) in Hs
             |rewrite (bool_decide_eq_false_2 _ E) in Hs]
         end.
  all: try discriminate Hs.
  intros Hin.
  repeat (apply elem_of_cons in Hin as [Hin|Hin]; [done|]).
  by apply elem_of_nil in Hin.
Qed.

(** The runs after [updateRun]: the hash of the updated run apart, they are
    as they were. *)
Lemma updateRun_other_run r now now2 runId update key :
  key ≠ K.run runId →
  hgetall_run (fst (updateRun r now now2 runId update)) key = hgetall_run r key.
Proof.
  intros Hkey. unfold updateRun.
  destruct (negb (truthy _)); [done|].
  destruct (match upd_artifacts update with Some _ => _ | None => _ end) as [arts|e];
    [|done].
  cbn [fst].
  set (fields := mkRunHash _ _ _ _ _ _ _ _ _).
  set (r1 := exec (HSET_run (K.run runId) fields) r).
  assert (hgetall_run r1 key = hgetall_run r key) as <-.
  { unfold hgetall_run, r1. simpl. by rewrite lookup_insert_ne. }
  apply hgetall_run_ext.
  destruct (upd_status update); try done.
  - apply updateJobStatus_runs.
  - simpl runs. destruct (negb _); [apply updateJobStatus_runs|done].
Qed.

Lemma updateRun_missing r now now2 runId update :
  ¬ run_exists r runId → updateRun r now now2 runId update = (r, Return None).
Proof.
  unfold run_exists, updateRun. intros He. by destruct (truthy _).
Qed.

(** X15. PATCH with a run id. The answer is 400, 404 or 200 and never 500:
    400 exactly when the status is absent or not one of pending, submitted,
    success and failed, and then nothing is written; 404 exactly when the
    status is one of them and the run has no hash, and then nothing is
    written; 200 exactly when the status is one of them and the run exists,
    and then the body is the run with that status. The artifacts of every
    run are as they were. *)
Theorem handle_PATCH_run r now now2 body :
  truthy (b_run_id body) = true →
  let runId := interp (b_run_id body) in
  let valid := ∃ s, b_status body = Some s ∧ s ∈ validRunStatuses in
  let r' := fst (handle_PATCH r now now2 body) in
  let resp := snd (handle_PATCH r now now2 body) in
  (¬ valid → resp_status resp = 400%Z ∧ r' = r)
  ∧ (valid → ¬ run_exists r runId → resp_status resp = 404%Z ∧ r' = r)
  ∧ (valid → run_exists r runId →
     resp_status resp = 200%Z
     ∧ ∃ run, resp_data resp = PRun run ∧ jr_status run = b_status body
              ∧ h_status (hgetall_run r' (K.run runId)) = b_status body)
  ∧ ∀ key, h_artifacts (hgetall_run r' key) = h_artifacts (hgetall_run r key).
Proof.
  intros Hrid runId valid r' resp. unfold r', resp, handle_PATCH. rewrite Hrid.
  clear r' resp. fold runId.
  destruct (b_status body) as [s|] eqn:Hs.
  2: { simpl negb. cbv iota. cbn [fst snd].
       assert (¬ valid) as Hnv by (intros (s & Hsome & _); discriminate Hsome).
       repeat split; try done; intros Hv; by destruct Hnv. }
  destruct (truthy (Some s)) eqn:Ht.
  2: { simpl negb. cbv iota. cbn [fst snd].
       assert (¬ valid) as Hnv.
       { intros (s' & [= <-] & Hin). unfold truthy in Ht.
         apply negb_false_iff, bool_decide_eq_true in Ht. subst s.
         unfold validRunStatuses in Hin.
         repeat (apply elem_of_cons in Hin as [Hin|Hin]; [discriminate Hin|]).
         by apply elem_of_nil in Hin. }
       repeat split; try done; intros Hv; by destruct Hnv. }
  simpl negb. cbv iota. simpl interp.
  destruct (run_status_of s) as [st|] eqn:Hst.
  2: { cbn [fst snd]. apply run_status_of_None in Hst.
       assert (¬ valid) as Hnv by (by intros (s' & [= <-] & Hin)).
       repeat split; try done; intros Hv; by destruct Hnv. }
  apply run_status_of_Some in Hst as [Hstr Hin].
  assert (valid) as Hv by (by exists s).
  set (update := mkRunUpdate st (b_error body) None).
  assert (run_exists r runId ∨ ¬ run_exists r runId) as [He|He].
  { unfold run_exists.
    destruct (truthy (h_run_id (hgetall_run r (K.run runId)))); [left|right]; [done|].
    intros Hf. discriminate Hf. }
  - destruct (updateRun_run_hash r now now2 runId update He I)
      as (fields & Hid & Hfs & _ & _ & Hhash & Hres).
    destruct (updateRun_fields r now now2 runId update He I) as (arts & Hnone & Hexact).
    assert (h_status fields = Some s) as Hfs' by (by rewrite Hfs, <- Hstr).
    assert (∃ run, parseRunHash (hset_run_fields fields (hgetall_run r (K.run runId)))
                   = Some run
                   ∧ jr_status run = Some s) as (run & Hparse & Hrs).
    { unfold parseRunHash. simpl h_run_id. rewrite Hid. simpl over.
      unfold run_exists in He. rewrite He. simpl negb. cbv iota.
      eexists. split; [reflexivity|]. simpl. by rewrite Hfs'. }
    destruct (updateRun r now now2 runId update) as [r1 res] eqn:Hupd.
    cbn [fst snd] in Hhash, Hres, Hexact. subst res. rewrite Hparse. cbn [fst snd].
    split; [by intros Hnv|]. split; [by intros _ Hne|]. split.
    + intros _ _. split; [done|]. eexists. split; [reflexivity|]. split; [done|].
      rewrite Hhash. cbn [h_status hset_run_fields]. rewrite Hfs'. reflexivity.
    + intros key. destruct (decide (key = K.run runId)) as [->|Hkey].
      * rewrite Hexact. simpl. by rewrite (Hnone eq_refl).
      * pose proof (updateRun_other_run r now now2 runId update key Hkey) as Ho.
        rewrite Hupd in Ho. cbn [fst] in Ho. by rewrite Ho.
  - rewrite (updateRun_missing r now now2 runId update He). cbn [fst snd].
    repeat split; done.
Qed.

Lemma handle_PATCH_run_witness :
  resp_status
    (snd (handle_PATCH st_claimed "t4" "t5"
            (mkBody (Some "r1") None None (Some "submitted") None)))
  = 200%Z
  ∧ resp_status
      (snd (handle_PATCH st_claimed "t4" "t5"
              (mkBody (Some "r9") None None (Some "submitted") None)))
    = 404%Z.
Proof.
  split.
  - apply (handle_PATCH_run st_claimed "t4" "t5"
             (mkBody (Some "r1") None None (Some "submitted") None)).
    + reflexivity.
    + exists "submitted". split; [reflexivity|]. right. by left.
    + vm_compute. reflexivity.
  - apply (handle_PATCH_run st_claimed "t4" "t5"
             (mkBody (Some "r9") None None (Some "submitted") None)).
    + reflexivity.
    + exists "submitted". split; [reflexivity|]. right. by left.
    + unfold run_exists. vm_compute. intros H. discriminate H.
Defined.

(** X17. DELETE of a job: the answer is 200 exactly when board and job id
    are given and the job exists; after such an answer [getJob] finds
    nothing, and the same DELETE again answers 404 and writes nothing. *)
Theorem handle_DELETE_twice r body :
  let b := interp (b_board body) in
  let j := interp (b_job_id body) in
  let r' := fst (handle_DELETE r body) in
  (resp_status (snd (handle_DELETE r body)) = 200%Z
   ↔ truthy (b_board body) = true ∧ truthy (b_job_id body) = true ∧ job_exists r b j)
  ∧ (resp_status (snd (handle_DELETE r body)) = 200%Z →
     getJob r' b j = None
     ∧ resp_status (snd (handle_DELETE r' body)) = 404%Z
     ∧ fst (handle_DELETE r' body) = r').
Proof.
  intros b j r'. unfold r'. clear r'.
  assert (∀ x, job_exists x b j → hgetall (fst (removeJob x b j)) (K.job b j) = ∅) as Hgone.
  { intros x Hx. rewrite removeJob_unfold by done. cbn [fst].
    apply execPipe_removed_hash.
    - apply Forall_forall. intros c Hc.
      by destruct (removeJob_cmd_shape _ _ _ _ Hc) as [(key & -> & _)|[-> | ->]].
    - right. apply elem_of_app. right. apply elem_of_app. right. apply elem_of_cons.
      right. by left. }
  unfold handle_DELETE. fold b j.
  destruct (truthy (b_board body)) eqn:Hb; [|simpl; split; [split|]; try done; by intros (? & _)].
  destruct (truthy (b_job_id body)) eqn:Hj;
    [|simpl; split; [split|]; try done; by intros (_ & ? & _)].
  simpl negb. simpl orb. cbv iota.
  destruct (truthy (hgetall r (K.job b j) !! "job_id")) eqn:He.
  - assert (job_exists r b j) as Hex by done.
    specialize (Hgone r Hex). rewrite removeJob_unfold in Hgone |- * by done.
    cbn [fst snd] in Hgone |- *. split; [done|]. intros _.
    set (r1 := execPipe _ r) in *.
    assert (removeJob r1 b j = (r1, false)) as Hno.
    { unfold removeJob. by rewrite Hgone. }
    rewrite Hno. cbn [fst snd]. split; [|done].
    unfold getJob, parseJobHash. by rewrite Hgone.
  - assert (removeJob r b j = (r, false)) as -> by (unfold removeJob; by rewrite He).
    cbn [fst snd]. split; [|done]. split; [done|].
    intros (_ & _ & Hex). unfold job_exists in Hex. congruence.
Qed.

Lemma handle_DELETE_twice_witness :
  let body := mkBody None (Some "42") (Some "ramp") None None in
  resp_status (snd (handle_DELETE (fst (handle_DELETE st_job body)) body)) = 404%Z.
Proof.
  intros body. destruct (handle_DELETE_twice st_job body) as [Hiff Hthen].
  apply Hthen. apply Hiff. repeat split; vm_compute; reflexivity.
Defined.

(** ** The status indexes along the operations *)

Lemma job_exists_hash r b j :
  job_exists r b j ↔ truthy (job_hash r (compositeKey b j) !! "job_id") = true.
Proof. reflexivity. Qed.

Lemma job_key_inj ck1 ck2 : "job:" +:+ ck1 = "job:" +:+ ck2 → ck1 = ck2.
Proof. apply String.app_inj. Qed.

Lemma job_status_str_nonempty st : job_status_str st ≠ "".
Proof. by destruct st. Qed.

(** Consistency is a matter of the hashes and of the status indexes. *)
Lemma consistent_ext r r' :
  (∀ ck, job_hash r' ck = job_hash r ck) →
  (∀ s ck, ck ∈ smembers_set r' (K.jobStatusIdx s) ↔ ck ∈ smembers_set r (K.jobStatusIdx s)) →
  status_index_consistent r → status_index_consistent r'.
Proof.
  intros Hh Hs [H1 H2]. split.
  - intros ck s Hin. rewrite Hh. apply H1. by apply Hs.
  - intros ck He. rewrite Hh in He. destruct (H2 ck He) as (s & Hst & Hne & Hin).
    exists s. rewrite Hh. split; [done|]. split; [done|]. by apply Hs.
Qed.

Lemma consistent_hashes_sets r r' :
  hashes r' = hashes r → sets r' = sets r →
  status_index_consistent r → status_index_consistent r'.
Proof.
  intros Hh Hs. apply consistent_ext.
  - intros ck. unfold job_hash, hgetall. by rewrite Hh.
  - intros s ck. unfold smembers_set. by rewrite Hs.
Qed.

Lemma consistent_updateJobStatus r now b j st :
  status_index_consistent r →
  status_index_consistent (fst (updateJobStatus r now b j st)).
Proof.
  intros [H1 H2].
  destruct (truthy (hgetall r (K.job b j) !! "job_id")) eqn:Hex.
  2: { unfold updateJobStatus. by rewrite Hex. }
  assert (job_exists r b j) as He by done.
  set (r' := fst (updateJobStatus r now b j st)).
  set (ck0 := compositeKey b j).
  assert (job_hash r' ck0
          = list_to_map [("status", job_status_str st); ("updated_at", now)]
            ∪ job_hash r ck0) as Hh0.
  { unfold job_hash, ck0. rewrite <- !job_compositeKey. by apply updateJobStatus_hash. }
  assert (∀ ck, ck ≠ ck0 → job_hash r' ck = job_hash r ck) as Hh.
  { intros ck Hne. unfold job_hash. apply updateJobStatus_other_hash.
    rewrite job_compositeKey. intros H. by apply job_key_inj in H. }
  assert (truthy (job_hash r' ck0 !! "job_id") = true) as He0.
  { rewrite Hh0, lookup_union. simpl. rewrite !lookup_insert_ne by done.
    rewrite lookup_empty.
    assert (truthy (job_hash r ck0 !! "job_id") = true) as He' by exact He.
    by destruct (job_hash r ck0 !! "job_id"). }
  assert (job_hash r' ck0 !! "status" = Some (job_status_str st)) as Hst0.
  { rewrite Hh0, lookup_union. simpl. rewrite lookup_insert_eq.
    by destruct (job_hash r ck0 !! "status"). }
  destruct (H2 ck0 He) as (old & Hold & Holdne & Holdin).
  split.
  - intros ck s Hin. unfold r' in Hin. rewrite updateJobStatus_member in Hin by done.
    destruct Hin as [[Hk ->]|[Hin Hn]].
    + apply jobStatusIdx_inj in Hk as ->. done.
    + destruct (H1 ck s Hin) as [Hex1 Hst1].
      destruct (decide (ck = ck0)) as [->|Hne]; [|by rewrite Hh].
      destruct Hn. exists s.
      assert (s = old) as -> by congruence.
      split; [exact Hold|]. done.
  - intros ck Hexk. destruct (decide (ck = ck0)) as [->|Hne].
    + exists (job_status_str st). split; [done|]. split; [apply job_status_str_nonempty|].
      unfold r'. rewrite updateJobStatus_member by done. by left.
    + rewrite Hh in Hexk by done. destruct (H2 ck Hexk) as (s & Hs & Hsne & Hsin).
      exists s. rewrite Hh by done. split; [done|]. split; [done|].
      unfold r'. rewrite updateJobStatus_member by done. right. split; [done|].
      intros (o & _ & _ & _ & Hck). by apply Hne.
Qed.

(** A pipeline that writes no job hash and no status index. *)
Lemma consistent_execPipe_frame pipe r :
  (∀ ck, Forall (keeps_hash ("job:" +:+ ck)) pipe) →
  (∀ s, Forall (keeps_set (K.jobStatusIdx s)) pipe) →
  status_index_consistent r → status_index_consistent (execPipe pipe r).
Proof.
  intros Hh Hs. apply consistent_ext.
  - intros ck. unfold job_hash. by apply execPipe_keeps_hash.
  - intros s ck. by rewrite execPipe_keeps_set.
Qed.

Lemma consistent_set_locks f r :
  status_index_consistent r → status_index_consistent (set_locks f r).
Proof. by apply consistent_hashes_sets. Qed.

Lemma consistent_set_ex_nx r clock key value ttl :
  status_index_consistent r →
  status_index_consistent (fst (set_ex_nx r clock key value ttl)).
Proof.
  intros H. unfold set_ex_nx. destruct (live_lock r key clock); simpl; [done|].
  by apply consistent_set_locks.
Qed.

Lemma consistent_addBoard r now id company ats :
  status_index_consistent r →
  status_index_consistent (fst (addBoard r now id company ats)).
Proof.
  unfold addBoard. cbn [fst]. apply consistent_execPipe_frame.
  - intros ck. repeat constructor; distinct_keys.
  - intros s. repeat constructor; distinct_keys.
Qed.

Lemma consistent_upsertUser r now id resumes answers tags :
  status_index_consistent r →
  status_index_consistent (fst (upsertUser r now id resumes answers tags)).
Proof.
  unfold upsertUser. cbn [fst]. apply consistent_execPipe_frame.
  - intros ck. repeat constructor; distinct_keys.
  - intros s. repeat constructor; distinct_keys.
Qed.

Lemma consistent_createRun r clock now now2 run a :
  status_index_consistent r →
  status_index_consistent (fst (createRun r clock now now2 run a)).
Proof.
  intros H. unfold createRun.
  pose proof (consistent_set_ex_nx r clock
                (K.applyLock (run_board run) (run_job_id run)) (run_id run)
                LOCK_TTL_SECONDS H) as H1.
  destruct (set_ex_nx r clock (K.applyLock (run_board run) (run_job_id run))
              (run_id run) LOCK_TTL_SECONDS) as [r1 locked].
  cbn [fst] in H1. destruct locked; cbn [negb]; [|done].
  destruct (getJob r1 (run_board run) (run_job_id run)) as [job|].
  2: { cbn [fst]. unfold del_lock. by apply consistent_set_locks. }
  destruct (applicable (job_status job)); cbn [negb].
  2: { cbn [fst]. unfold del_lock. by apply consistent_set_locks. }
  cbn [fst].
  assert (status_index_consistent
            (execPipe
               [ HSET_run (K.run (run_id run))
                   (mkRunHash (Some (run_id run)) (Some (run_job_id run))
                      (Some (run_board run)) (Some (variant_id run)) (Some "pending")
                      (Some now) (Some "") (Some "") (Some a));
                 SADD (K.jobRunsIdx (run_job_id run)) (run_id run);
                 SADD K.runsAll (run_id run) ] r1)) as H2.
  { apply consistent_execPipe_frame; [| |done].
    - intros ck. repeat constructor; distinct_keys.
    - intros s. repeat constructor; distinct_keys. }
  destruct (bool_decide (job_status job = Some "discovered")); [|done].
  by apply consistent_updateJobStatus.
Qed.

Lemma consistent_updateRun r now now2 runId update :
  status_index_consistent r →
  status_index_consistent (fst (updateRun r now now2 runId update)).
Proof.
  intros H. unfold updateRun.
  destruct (truthy (h_run_id (hgetall_run r (K.run runId)))); cbn [negb]; [|done].
  assert (∀ fields, status_index_consistent (exec (HSET_run (K.run runId) fields) r))
    as H1.
  { intros fields. by apply (consistent_hashes_sets r). }
  destruct (match upd_artifacts update with
            | Some ua =>
                match merge_artifacts (h_artifacts (hgetall_run r (K.run runId))) ua with
                | Return m => Return (Some (Some m))
                | Throw e => Throw e
                end
            | None => Return None
            end) as [artifacts|e]; [|done].
  cbn [fst]. destruct (upd_status update).
  - apply H1.
  - apply H1.
  - unfold del_lock. apply consistent_set_locks, consistent_updateJobStatus, H1.
  - unfold del_lock. apply consistent_set_locks.
    destruct (negb _); [apply consistent_updateJobStatus|]; apply H1.
Qed.

(** What a pipeline of removals does to one hash and to one member. *)
Lemma removes_only_hash_cases key pipe :
  Forall removes_only pipe → DEL key ∈ pipe ∨ Forall (keeps_hash key) pipe.
Proof.
  induction 1 as [|c pipe Hc _ IH]; [by right|].
  destruct IH as [IH|IH]; [left; by apply elem_of_cons; right|].
  destruct c as [| | | |k m|k|k]; try done.
  - right. by constructor.
  - destruct (decide (k = key)) as [->|Hne].
    + left. apply elem_of_cons. by left.
    + right. by constructor.
  - right. by constructor.
Qed.

Lemma removes_only_member_cases key m pipe :
  Forall removes_only pipe →
  (SREM key m ∈ pipe ∨ DEL_set key ∈ pipe) ∨ Forall (keeps_member key m) pipe.
Proof.
  induction 1 as [|c pipe Hc _ IH]; [by right|].
  destruct IH as [[IH|IH]|IH].
  - left. left. apply elem_of_cons. by right.
  - left. right. apply elem_of_cons. by right.
  - destruct c as [| | | |k m'|k|k]; try done.
    + destruct (decide (k = key)) as [->|Hne].
      * destruct (decide (m' = m)) as [->|Hne].
        -- left. left. apply elem_of_cons. by left.
        -- right. constructor; [|done]. simpl. by intros [_ ?].
      * right. constructor; [|done]. simpl. by intros [? _].
    + right. by constructor.
    + destruct (decide (k = key)) as [->|Hne].
      * left. right. apply elem_of_cons. by left.
      * right. by constructor.
Qed.

(** A pipeline of removals that deletes a job hash together with the
    entry of its status index, and takes out no other entry. *)
Lemma consistent_removals pipe r :
  Forall removes_only pipe →
  (∀ ck s, DEL ("job:" +:+ ck) ∈ pipe → job_hash r ck !! "status" = Some s → s ≠ "" →
           SREM (K.jobStatusIdx s) ck ∈ pipe) →
  (∀ ck s, SREM (K.jobStatusIdx s) ck ∈ pipe → DEL ("job:" +:+ ck) ∈ pipe) →
  (∀ s, DEL_set (K.jobStatusIdx s) ∉ pipe) →
  status_index_consistent r → status_index_consistent (execPipe pipe r).
Proof.
  intros Hrem HA HB HC [H1 H2]. split.
  - intros ck s Hin.
    assert (ck ∈ smembers_set r (K.jobStatusIdx s)) as Hin0
      by by apply (execPipe_removes_only pipe).
    destruct (H1 ck s Hin0) as [He Hst].
    destruct (H2 ck He) as (s' & Hst' & Hne & _).
    assert (s' = s) as -> by congruence.
    destruct (removes_only_hash_cases ("job:" +:+ ck) pipe Hrem) as [Hdel|Hkeep].
    + exfalso. apply (execPipe_removed_member pipe r (K.jobStatusIdx s) ck Hrem); [|done].
      left. by apply HA.
    + unfold job_hash. rewrite execPipe_keeps_hash by done. done.
  - intros ck He.
    destruct (removes_only_hash_cases ("job:" +:+ ck) pipe Hrem) as [Hdel|Hkeep].
    { unfold job_hash in He. rewrite execPipe_removed_hash in He by auto. done. }
    unfold job_hash in *. rewrite execPipe_keeps_hash in * by done.
    destruct (H2 ck He) as (s & Hst & Hne & Hin). exists s.
    split; [done|]. split; [done|].
    destruct (removes_only_member_cases (K.jobStatusIdx s) ck pipe Hrem)
      as [[Hsrem|Hdset]|Hkeepm].
    + apply HB in Hsrem.
      pose proof (execPipe_removed_hash pipe r ("job:" +:+ ck) Hrem (or_intror Hsrem))
        as Hempty.
      rewrite execPipe_keeps_hash in Hempty by done. rewrite Hempty in He. done.
    + by apply HC in Hdset.
    + by apply execPipe_keeps_member.
Qed.

Lemma when_truthy_elem {A} v s (f : string → list A) x :
  v = Some s → s ≠ "" → x ∈ f s → x ∈ when_truthy v f.
Proof.
  intros -> Hne Hx. unfold when_truthy. by rewrite truthy_Some.
Qed.

Lemma consistent_removeJob r b j :
  status_index_consistent r → status_index_consistent (fst (removeJob r b j)).
Proof.
  intros H. destruct (truthy (hgetall r (K.job b j) !! "job_id")) eqn:Hex.
  2: { unfold removeJob. by rewrite Hex. }
  rewrite removeJob_unfold by done. cbn [fst].
  apply consistent_removals; [| | | |done].
  - apply Forall_forall. intros c Hc.
    apply removeJob_cmd_shape in Hc as [(key & -> & _)|[->| ->]]; done.
  - intros ck s Hdel Hst Hne.
    apply removeJob_cmd_shape in Hdel as [(key & Heq & _)|[Heq|Heq]]; try discriminate.
    assert (ck = compositeKey b j) as ->
      by (apply job_key_inj; rewrite <- job_compositeKey; congruence).
    apply elem_of_app. left. unfold job_hash in Hst. rewrite <- job_compositeKey in Hst.
    apply (when_truthy_elem _ s); [done|done|]. apply elem_of_cons. by left.
  - intros ck s Hsrem.
    apply removeJob_cmd_shape in Hsrem as [(key & Heq & _)|[Heq|Heq]]; try discriminate.
    injection Heq as _ ->. rewrite <- job_compositeKey.
    rewrite !elem_of_app, !elem_of_cons. right. right. right. by left.
  - intros s Hd.
    apply removeJob_cmd_shape in Hd as [(key & Heq & _)|[Heq|Heq]]; discriminate.
Qed.

Lemma consistent_removeBoard r id :
  status_index_consistent r → status_index_consistent (fst (removeBoard r id)).
Proof.
  intros H. destruct (exists_ r (K.board id)) eqn:Hex.
  2: { unfold removeBoard. by rewrite Hex. }
  rewrite removeBoard_unfold by done. cbn [fst].
  apply consistent_removals; [apply removeBoard_pipe_removes_only| | | |done].
  - intros ck s Hdel Hst Hne. apply elem_of_app in Hdel as [Hdel|Hdel].
    + apply list_elem_of_In, in_flat_map in Hdel as (jid & Hjid & Hc).
      apply list_elem_of_In in Hc, Hjid.
      apply removeBoard_job_shape in Hc as [(st & Heq)|[(t & Heq)|Heq]];
        try discriminate.
      assert (ck = compositeKey id jid) as ->
        by (apply job_key_inj; rewrite <- job_compositeKey; congruence).
      apply elem_of_app. left. apply (elem_of_flat_map _ _ jid); [done|].
      unfold removeBoard_job. apply elem_of_app. left.
      unfold job_hash in Hst. rewrite <- job_compositeKey in Hst.
      apply (when_truthy_elem _ s); [done|done|]. apply elem_of_cons. by left.
    + rewrite !elem_of_cons in Hdel. destruct Hdel as [Heq|[Heq|[Heq|Heq]]];
        try discriminate.
      by apply elem_of_nil in Heq.
  - intros ck s Hsrem. apply elem_of_app in Hsrem as [Hsrem|Hsrem].
    + apply list_elem_of_In, in_flat_map in Hsrem as (jid & Hjid & Hc).
      apply list_elem_of_In in Hc, Hjid.
      apply removeBoard_job_shape in Hc as [(st & Heq)|[(t & Heq)|Heq]];
        try discriminate.
      injection Heq as _ ->. rewrite <- job_compositeKey.
      apply elem_of_app. left. apply (elem_of_flat_map _ _ jid); [done|].
      unfold removeBoard_job. rewrite !elem_of_app, !elem_of_cons.
      right. right. by left.
    + rewrite !elem_of_cons in Hsrem. destruct Hsrem as [Heq|[Heq|[Heq|Heq]]];
        try discriminate.
      by apply elem_of_nil in Heq.
  - intros s Hd. apply elem_of_app in Hd as [Hd|Hd].
    + apply list_elem_of_In, in_flat_map in Hd as (jid & Hjid & Hc).
      apply list_elem_of_In in Hc.
      apply removeBoard_job_shape in Hc as [(st & Heq)|[(t & Heq)|Heq]]; discriminate.
    + rewrite !elem_of_cons in Hd. destruct Hd as [Heq|[Heq|[Heq|Heq]]];
        try discriminate.
      by apply elem_of_nil in Heq.
Qed.

(** A member of a set after a pipeline was in it before, or was added. *)
Lemma execPipe_member_inv pipe r key m :
  m ∈ smembers_set (execPipe pipe r) key →
  m ∈ smembers_set r key ∨ SADD key m ∈ pipe.
Proof.
  revert r. induction pipe as [|c pipe IH]; intros r Hin; [by left|].
  rewrite execPipe_cons in Hin. apply IH in Hin as [Hin|Hin].
  2: { right. apply elem_of_cons. by right. }
  apply elem_of_exec in Hin. destruct c as [| | |k m'|k m'|k|k]; try by left.
  - destruct Hin as [[-> ->]|Hin]; [|by left]. right. apply elem_of_cons. by left.
  - destruct Hin as [Hin _]. by left.
  - destruct Hin as [_ Hin]. by left.
Qed.

(** A hash is as before after a pipeline that did not write or delete it. *)
Lemma execPipe_hash_inv pipe r key :
  (∃ f, HSET key f ∈ pipe) ∨ DEL key ∈ pipe
  ∨ hgetall (execPipe pipe r) key = hgetall r key.
Proof.
  revert r. induction pipe as [|c pipe IH]; intros r; [by right; right|].
  rewrite execPipe_cons. destruct (IH (exec c r)) as [[f Hf]|[Hd|Heq]].
  - left. exists f. apply elem_of_cons. by right.
  - right. left. apply elem_of_cons. by right.
  - rewrite Heq, hgetall_exec. destruct c as [k f| | | | |k|]; try by right; right.
    + destruct (decide (k = key)) as [->|Hne]; [|by right; right].
      left. exists f. apply elem_of_cons. by left.
    + destruct (decide (k = key)) as [->|Hne]; [|by right; right].
      right. left. apply elem_of_cons. by left.
Qed.

(** A hash written only with a non-empty [job_id] holds one. *)
Lemma execPipe_writes_job_id key pipe r :
  Forall (λ c, match c with
               | HSET k f => k = key → truthy (f !! "job_id") = true
               | DEL k => k ≠ key
               | _ => True
               end) pipe →
  truthy (hgetall r key !! "job_id") = true ∨ (∃ f, HSET key f ∈ pipe) →
  truthy (hgetall (execPipe pipe r) key !! "job_id") = true.
Proof.
  revert r. induction pipe as [|c pipe IH]; intros r Hp Hs.
  - destruct Hs as [Hs|[f Hf]]; [done|]. by apply elem_of_nil in Hf.
  - inversion Hp as [|? ? Hc Hrest]; subst.
    rewrite execPipe_cons. apply IH; [done|].
    assert (∀ f, c = HSET key f → truthy (hgetall (exec c r) key !! "job_id") = true)
      as Hset.
    { intros f ->. rewrite hgetall_exec, decide_True by done.
      rewrite lookup_union. simpl in Hc. specialize (Hc eq_refl).
      destruct (f !! "job_id"); [|done]. by destruct (hgetall r key !! "job_id"). }
    destruct Hs as [Hs|[f Hf]].
    + left. destruct c as [k f| | | | |k|]; try done.
      * destruct (decide (k = key)) as [->|Hk]; [by apply (Hset f)|].
        by rewrite hgetall_exec, decide_False.
      * simpl in Hc. by rewrite hgetall_exec, decide_False.
    + apply elem_of_cons in Hf as [<-|Hf]; [|right; eauto].
      left. by apply (Hset f).
Qed.

Lemma addJob_cmds_shape extractTags now job c :
  c ∈ addJob_cmds extractTags now job →
  (∃ f, c = HSET (K.job (board job) (job_id job)) f
        ∧ f !! "job_id" = Some (job_id job))
  ∨ c = SADD (K.boardJobsIdx (board job)) (job_id job)
  ∨ c = SADD (K.jobStatusIdx "discovered") (compositeKey (board job) (job_id job))
  ∨ (∃ t, c = SADD (K.tagIdx t) (compositeKey (board job) (job_id job))).
Proof.
  unfold addJob_cmds. rewrite elem_of_app, !elem_of_cons.
  intros [[->|[->|[->|H]]]|H].
  - left. eexists. split; [done|]. by rewrite lookup_insert_ne.
  - right. by left.
  - right. right. by left.
  - by apply elem_of_nil in H.
  - right. right. right. apply list_elem_of_fmap in H as (t & -> & _). by exists t.
Qed.

(** The pipeline of [addJob] and of [addJobsBulk], run on jobs that have no
    hash and carry a non-empty id. *)
Lemma consistent_add_jobs extractTags now jobs r :
  Forall (λ job, job_id job ≠ ""
                 ∧ exists_ r (K.job (board job) (job_id job)) = false) jobs →
  status_index_consistent r →
  status_index_consistent (execPipe (flat_map (addJob_cmds extractTags now) jobs) r).
Proof.
  intros Hjobs [H1 H2]. set (pipe := flat_map (addJob_cmds extractTags now) jobs).
  assert (∀ c, c ∈ pipe → ∃ job, job ∈ jobs ∧ c ∈ addJob_cmds extractTags now job)
    as Hpipe.
  { intros c Hc. apply list_elem_of_In, in_flat_map in Hc as (job & Hjob & Hc).
    exists job. by rewrite !list_elem_of_In. }
  assert (Forall adds_only pipe) as Hadds.
  { apply Forall_flat_map_elem. intros job _. apply addJob_cmds_adds_only. }
  assert (∀ key, DEL key ∉ pipe) as Hnodel.
  { intros key Hd. by apply (proj1 (Forall_forall _ _) Hadds) in Hd. }
  assert (∀ ck f, HSET ("job:" +:+ ck) f ∈ pipe →
            ∃ job, job ∈ jobs ∧ ck = compositeKey (board job) (job_id job)) as Hhset.
  { intros ck f Hc. destruct (Hpipe _ Hc) as (job & Hjob & Hcj). exists job.
    split; [done|].
    apply addJob_cmds_shape in Hcj as [(f' & Heq & _)|[Heq|[Heq|(t & Heq)]]];
      try discriminate.
    apply job_key_inj. rewrite <- job_compositeKey. congruence. }
  assert (∀ job, job ∈ jobs →
            truthy (job_hash (execPipe pipe r) (compositeKey (board job) (job_id job))
                      !! "job_id") = true
            ∧ job_hash (execPipe pipe r) (compositeKey (board job) (job_id job))
                !! "status" = Some "discovered"
            ∧ compositeKey (board job) (job_id job)
                ∈ smembers_set (execPipe pipe r) (K.jobStatusIdx "discovered"))
    as Htouched.
  { intros job Hjob. unfold job_hash. rewrite <- job_compositeKey.
    assert (∃ f, HSET (K.job (board job) (job_id job)) f ∈ pipe) as Hf.
    { eexists. apply (elem_of_flat_map _ _ job); [done|].
      unfold addJob_cmds. apply elem_of_app. left. apply elem_of_cons. by left. }
    split; [|split].
    - apply execPipe_writes_job_id; [|by right].
      apply Forall_forall. intros c Hc. destruct (Hpipe _ Hc) as (job' & Hjob' & Hcj).
      apply addJob_cmds_shape in Hcj as [(f' & -> & Hid)|[->|[->|(t & ->)]]]; try done.
      intros _. rewrite Hid. apply truthy_Some.
      by apply (proj1 (Forall_forall _ _) Hjobs) in Hjob' as [? _].
    - apply execPipe_writes_status; [|by right].
      apply Forall_flat_map_elem. intros job' _. apply addJob_cmds_writes_status.
    - apply execPipe_adds_only; [done|]. right.
      apply (elem_of_flat_map _ _ job); [done|].
      unfold addJob_cmds. rewrite elem_of_app, !elem_of_cons. left. right. right. by left. }
  assert (∀ ck, truthy (job_hash r ck !! "job_id") = true →
            hgetall (execPipe pipe r) ("job:" +:+ ck) = hgetall r ("job:" +:+ ck))
    as Hkept.
  { intros ck He. destruct (execPipe_hash_inv pipe r ("job:" +:+ ck))
      as [[f Hf]|[Hd|Heq]]; [|by apply Hnodel in Hd|done].
    apply Hhset in Hf as (job & Hjob & ->).
    apply (proj1 (Forall_forall _ _) Hjobs) in Hjob as [_ Hfresh].
    apply not_exists_empty in Hfresh. unfold job_hash in He.
    rewrite <- job_compositeKey, Hfresh in He. done. }
  split.
  - intros ck s Hin. apply execPipe_member_inv in Hin as [Hin|Hsadd].
    + destruct (H1 ck s Hin) as [He Hst]. unfold job_hash. by rewrite Hkept.
    + destruct (Hpipe _ Hsadd) as (job & Hjob & Hcj).
      apply addJob_cmds_shape in Hcj as [(f' & Heq & _)|[Heq|[Heq|(t & Heq)]]];
        try discriminate.
      injection Heq as Hs ->. change (s = "discovered") in Hs. subst s.
      destruct (Htouched job Hjob) as (? & ? & _). done.
  - intros ck He.
    destruct (execPipe_hash_inv pipe r ("job:" +:+ ck)) as [[f Hf]|[Hd|Heq]].
    + apply Hhset in Hf as (job & Hjob & ->).
      destruct (Htouched job Hjob) as (? & ? & ?). by exists "discovered".
    + by apply Hnodel in Hd.
    + unfold job_hash in *. rewrite Heq in *.
      destruct (H2 ck He) as (s & Hst & Hne & Hin). exists s.
      split; [done|]. split; [done|]. apply execPipe_adds_only; [done|]. by left.
Qed.

Lemma consistent_addJob extractTags r now job :
  job_id job ≠ "" → exists_ r (K.job (board job) (job_id job)) = false →
  status_index_consistent r →
  status_index_consistent (fst (addJob extractTags r now job)).
Proof.
  intros Hid Hfresh H. unfold addJob. cbn [fst].
  rewrite <- (app_nil_r (addJob_cmds extractTags now job)).
  apply (consistent_add_jobs extractTags now [job]); [|done].
  by repeat constructor.
Qed.

Lemma consistent_addJobsBulk extractTags r now jobs :
  Forall (λ job, job_id job ≠ "") jobs →
  status_index_consistent r →
  status_index_consistent (fst (addJobsBulk extractTags r now jobs)).
Proof.
  intros Hids H. rewrite addJobsBulk_eq. cbn [fst].
  apply consistent_add_jobs; [|done].
  apply Forall_forall. intros job Hjob.
  apply list_elem_of_In, filter_In in Hjob as [Hjob Hnew].
  apply list_elem_of_In in Hjob. split.
  - by apply (proj1 (Forall_forall _ _) Hids).
  - by apply negb_true_iff in Hnew.
Qed.

Lemma consistent_empty : status_index_consistent empty_store.
Proof.
  split.
  - intros ck s Hin. unfold smembers_set in Hin. simpl in Hin.
    rewrite lookup_empty in Hin. simpl in Hin. by apply elem_of_empty in Hin.
  - intros ck He. unfold job_hash, hgetall in He. simpl in He.
    rewrite lookup_empty in He. simpl in He. by rewrite lookup_empty in He.
Qed.

Lemma reachable_consistent extractTags r :
  reachable extractTags r → status_index_consistent r.
Proof.
  induction 1.
  - apply consistent_empty.
  - by apply consistent_addBoard.
  - by apply consistent_removeBoard.
  - by apply consistent_addJob.
  - by apply consistent_addJobsBulk.
  - by apply consistent_removeJob.
  - by apply consistent_updateJobStatus.
  - by apply consistent_createRun.
  - by apply consistent_updateRun.
  - by apply consistent_upsertUser.
Qed.

(** X18. The status indexes agree with the hashes in every store the
    operations lead to from the empty one, when [addJob] is used on jobs
    without a hash and jobs are added with a non-empty id: a composite key
    is in the index of a status exactly when the job of this key has a hash
    with this status, and every job with a hash has a non-empty status;
    so every job is in the index of its status and in no other. *)
Theorem reachable_status_index extractTags r ck :
  reachable extractTags r →
  (∀ s, ck ∈ smembers_set r (K.jobStatusIdx s) ↔
        truthy (job_hash r ck !! "job_id") = true ∧ job_hash r ck !! "status" = Some s)
  ∧ (truthy (job_hash r ck !! "job_id") = true →
     ∃ s, s ≠ "" ∧ job_hash r ck !! "status" = Some s).
Proof.
  intros Hr. destruct (reachable_consistent extractTags r Hr) as [H1 H2]. split.
  - intros s. split; [apply H1|]. intros [He Hst].
    destruct (H2 ck He) as (s' & Hst' & _ & Hin). congruence.
  - intros He. destruct (H2 ck He) as (s & Hst & Hne & _). by exists s.
Qed.

Lemma reachable_status_index_witness :
  reachable sample_tags st_claimed
  ∧ (∀ s, "ramp:42" ∈ smembers_set st_claimed (K.jobStatusIdx s) ↔
          truthy (job_hash st_claimed "ramp:42" !! "job_id") = true
          ∧ job_hash st_claimed "ramp:42" !! "status" = Some s).
Proof.
  assert (reachable sample_tags st_claimed) as Hr.
  { apply reach_createRun, reach_addJob; [apply reach_addBoard, reach_empty|done|].
    vm_compute. reflexivity. }
  split; [exact Hr|]. apply (reachable_status_index sample_tags st_claimed "ramp:42" Hr).
Defined.

(** ** Runs are never lost *)

Lemma run_key_inj a b : K.run a = K.run b → a = b.
Proof. apply String.app_inj. Qed.

Lemma hgetall_run_exec c r k :
  hgetall_run (exec c r) k
  = match c with
    | HSET_run k' f =>
        if decide (k' = k) then hset_run_fields f (hgetall_run r k) else hgetall_run r k
    | _ => hgetall_run r k
    end.
Proof.
  destruct c as [|k' f| | | | |]; try done.
  unfold hgetall_run. simpl. destruct (decide (k' = k)) as [->|Hne].
  - by rewrite lookup_insert_eq.
  - by rewrite lookup_insert_ne.
Qed.

Lemma runs_kept_refl r : runs_kept r r.
Proof. by intros H. Qed.

Lemma runs_kept_trans r1 r2 r3 : runs_kept r1 r2 → runs_kept r2 r3 → runs_kept r1 r3.
Proof.
  intros H12 H23 H1. destruct (H12 H1) as [H2 Hp12]. destruct (H23 H2) as [H3 Hp23].
  split; [done|]. intros rid He. by apply Hp23, Hp12.
Qed.

(** A step that leaves the run id and the job id of every run hash and
    takes nothing out of the run indexes. *)
Lemma runs_kept_frame r r' :
  (∀ rid, h_run_id (hgetall_run r' (K.run rid)) = h_run_id (hgetall_run r (K.run rid))
          ∧ h_job_id (hgetall_run r' (K.run rid)) = h_job_id (hgetall_run r (K.run rid))) →
  (∀ k m, k = K.runsAll ∨ (∃ j, k = K.jobRunsIdx j) →
          m ∈ smembers_set r k → m ∈ smembers_set r' k) →
  runs_kept r r'.
Proof.
  intros Hh Hs H. split.
  - intros rid He. destruct (Hh rid) as [Hid Hjob]. rewrite Hid in He |- *.
    destruct (H rid He) as (Hrid & Hall & j & Hj & Hin).
    split; [done|]. split; [by apply Hs; [left|]|].
    exists j. rewrite Hjob. split; [done|]. apply Hs; [|done]. right. by exists j.
  - intros rid He. destruct (Hh rid) as [Hid _]. by rewrite Hid.
Qed.

Lemma runs_kept_set_locks f r : runs_kept r (set_locks f r).
Proof. by apply runs_kept_frame. Qed.

Lemma runs_kept_execPipe pipe r : Forall keeps_runs pipe → runs_kept r (execPipe pipe r).
Proof.
  revert r. induction pipe as [|c pipe IH]; intros r Hp; [apply runs_kept_refl|].
  inversion Hp as [|? ? Hc Hrest]; subst. rewrite execPipe_cons.
  apply (runs_kept_trans _ (exec c r)); [|by apply IH].
  apply runs_kept_frame.
  - intros rid. rewrite hgetall_run_exec. by destruct c.
  - intros k m Hk Hin. apply elem_of_exec.
    destruct c as [| | |k' m'|k' m'|k'|k']; try done.
    + by right.
    + split; [done|]. intros [-> _]. destruct Hc as [Hall Hjobs].
      destruct Hk as [->|[j ->]]; [done|by apply (Hjobs j)].
    + split; [|done]. intros ->. destruct Hc as [Hall Hjobs].
      destruct Hk as [->|[j ->]]; [done|by apply (Hjobs j)].
Qed.

Lemma keeps_runs_status_srem status ck : keeps_runs (SREM (K.jobStatusIdx status) ck).
Proof. split; [|intros j]; distinct_keys. Qed.

Lemma keeps_runs_tag_srems tags ck :
  Forall keeps_runs (map (λ tag, SREM (K.tagIdx tag) ck) tags).
Proof.
  apply Forall_forall. intros c Hc. apply list_elem_of_fmap in Hc as (t & -> & _).
  split; [|intros j]; distinct_keys.
Qed.

Lemma runs_kept_addBoard r now id company ats :
  runs_kept r (fst (addBoard r now id company ats)).
Proof. apply runs_kept_execPipe. by repeat constructor. Qed.

Lemma runs_kept_upsertUser r now id resumes answers tags :
  runs_kept r (fst (upsertUser r now id resumes answers tags)).
Proof. apply runs_kept_execPipe. by repeat constructor. Qed.

Lemma addJob_cmds_keeps_runs extractTags now job :
  Forall keeps_runs (addJob_cmds extractTags now job).
Proof.
  apply Forall_forall. intros c Hc.
  by apply addJob_cmds_shape in Hc as [(f & -> & _)|[->|[->|(t & ->)]]].
Qed.

Lemma runs_kept_addJob extractTags r now job :
  runs_kept r (fst (addJob extractTags r now job)).
Proof. apply runs_kept_execPipe, addJob_cmds_keeps_runs. Qed.

Lemma runs_kept_addJobsBulk extractTags r now jobs :
  runs_kept r (fst (addJobsBulk extractTags r now jobs)).
Proof.
  rewrite addJobsBulk_eq. apply runs_kept_execPipe, Forall_flat_map_elem.
  intros job _. apply addJob_cmds_keeps_runs.
Qed.

Lemma runs_kept_removeJob r b j : runs_kept r (fst (removeJob r b j)).
Proof.
  unfold removeJob. destruct (negb _); [apply runs_kept_refl|].
  apply runs_kept_execPipe. rewrite !Forall_app. split; [|split].
  - apply when_truthy_Forall. intros s. constructor; [|done].
    apply keeps_runs_status_srem.
  - apply when_truthy_Forall. intros s. apply keeps_runs_tag_srems.
  - repeat constructor; try intros j'; distinct_keys.
Qed.

Lemma runs_kept_removeBoard r id : runs_kept r (fst (removeBoard r id)).
Proof.
  unfold removeBoard. destruct (negb _); [apply runs_kept_refl|].
  apply runs_kept_execPipe. rewrite Forall_app. split.
  - apply Forall_flat_map_elem. intros jid _. unfold removeBoard_job.
    rewrite !Forall_app. split; [|split].
    + apply when_truthy_Forall. intros s. constructor; [|done].
      apply keeps_runs_status_srem.
    + apply when_truthy_Forall. intros s. apply keeps_runs_tag_srems.
    + by repeat constructor.
  - repeat constructor; try intros j'; distinct_keys.
Qed.

Lemma runs_kept_updateJobStatus r now b j st :
  runs_kept r (fst (updateJobStatus r now b j st)).
Proof.
  unfold updateJobStatus. destruct (negb _); [apply runs_kept_refl|].
  apply runs_kept_execPipe. rewrite !Forall_app. split; [|split].
  - by repeat constructor.
  - apply when_truthy_Forall. intros s. constructor; [|done].
    apply keeps_runs_status_srem.
  - by repeat constructor.
Qed.

(** The three commands [createRun] queues for the run. *)
Lemma runs_kept_run_cmds r rid0 f j0 :
  h_run_id f = Some rid0 → h_job_id f = Some j0 →
  runs_kept r
    (execPipe [HSET_run (K.run rid0) f; SADD (K.jobRunsIdx j0) rid0; SADD K.runsAll rid0] r).
Proof.
  intros Hid Hjob H. rewrite !execPipe_cons. change (execPipe [] ?x) with x.
  set (r' := exec (SADD K.runsAll rid0)
               (exec (SADD (K.jobRunsIdx j0) rid0) (exec (HSET_run (K.run rid0) f) r))).
  assert (∀ rid, hgetall_run r' (K.run rid)
                 = if decide (rid0 = rid)
                   then hset_run_fields f (hgetall_run r (K.run rid))
                   else hgetall_run r (K.run rid)) as Hh.
  { intros rid. unfold r'. rewrite !hgetall_run_exec.
    destruct (decide (rid0 = rid)) as [->|Hne]; [by rewrite decide_True|].
    rewrite decide_False; [done|]. intros Hk. by apply run_key_inj in Hk. }
  assert (∀ k m, m ∈ smembers_set r k → m ∈ smembers_set r' k) as Hs.
  { intros k m Hin. unfold r'. rewrite !elem_of_exec. auto. }
  assert (rid0 ∈ smembers_set r' K.runsAll) as Hall.
  { unfold r'. rewrite !elem_of_exec. auto. }
  assert (rid0 ∈ smembers_set r' (K.jobRunsIdx j0)) as Hjobs.
  { unfold r'. rewrite !elem_of_exec. auto. }
  split.
  - intros rid He. rewrite Hh in He |- *. destruct (decide (rid0 = rid)) as [->|Hne].
    + simpl. rewrite Hid, Hjob. simpl. split; [done|]. split; [done|]. by exists j0.
    + destruct (H rid He) as (Hrid & Hin & j & Hj & Hinj).
      split; [done|]. split; [by apply Hs|]. exists j. split; [done|]. by apply Hs.
  - intros rid He. rewrite Hh. destruct (decide (rid0 = rid)) as [->|Hne]; [|done].
    simpl. rewrite Hid. simpl. destruct (H rid He) as (Hrid & _). by rewrite Hrid in He.
Qed.

Lemma runs_kept_createRun r clock now now2 run a :
  runs_kept r (fst (createRun r clock now now2 run a)).
Proof.
  unfold createRun.
  assert (runs_kept r (fst (set_ex_nx r clock
                              (K.applyLock (run_board run) (run_job_id run))
                              (run_id run) LOCK_TTL_SECONDS))) as H1.
  { unfold set_ex_nx. destruct (live_lock _ _ _); [apply runs_kept_refl|].
    apply runs_kept_set_locks. }
  destruct (set_ex_nx r clock (K.applyLock (run_board run) (run_job_id run))
              (run_id run) LOCK_TTL_SECONDS) as [r1 locked].
  cbn [fst] in H1. destruct locked; cbn [negb]; [|done].
  destruct (getJob r1 (run_board run) (run_job_id run)) as [job|].
  2: { cbn [fst]. apply (runs_kept_trans _ r1); [done|]. apply runs_kept_set_locks. }
  destruct (applicable (job_status job)); cbn [negb].
  2: { cbn [fst]. apply (runs_kept_trans _ r1); [done|]. apply runs_kept_set_locks. }
  cbn [fst]. apply (runs_kept_trans _ r1); [done|].
  apply (runs_kept_trans _
           (execPipe
              [ HSET_run (K.run (run_id run))
                  (mkRunHash (Some (run_id run)) (Some (run_job_id run))
                     (Some (run_board run)) (Some (variant_id run)) (Some "pending")
                     (Some now) (Some "") (Some "") (Some a));
                SADD (K.jobRunsIdx (run_job_id run)) (run_id run);
                SADD K.runsAll (run_id run) ] r1)).
  { by apply runs_kept_run_cmds. }
  destruct (bool_decide (job_status job = Some "discovered")).
  - apply runs_kept_updateJobStatus.
  - apply runs_kept_refl.
Qed.

Lemma runs_kept_updateRun r now now2 runId update :
  runs_kept r (fst (updateRun r now now2 runId update)).
Proof.
  unfold updateRun.
  destruct (truthy (h_run_id (hgetall_run r (K.run runId)))); cbn [negb];
    [|apply runs_kept_refl].
  destruct (match upd_artifacts update with
            | Some ua =>
                match merge_artifacts (h_artifacts (hgetall_run r (K.run runId))) ua with
                | Return m => Return (Some (Some m))
                | Throw e => Throw e
                end
            | None => Return None
            end) as [artifacts|e]; [|apply runs_kept_refl].
  cbn [fst].
  assert (∀ fields, h_run_id fields = None → h_job_id fields = None →
            runs_kept r (exec (HSET_run (K.run runId) fields) r)) as H1.
  { intros fields Hid Hjob. apply runs_kept_frame; [|done].
    intros rid. rewrite hgetall_run_exec.
    destruct (decide (K.run runId = K.run rid)); [|done]. simpl. by rewrite Hid, Hjob. }
  set (fields := mkRunHash _ _ _ _ _ _ _ _ _).
  apply (runs_kept_trans _ (exec (HSET_run (K.run runId) fields) r)); [by apply H1|].
  destruct (upd_status update).
  - apply runs_kept_refl.
  - apply runs_kept_refl.
  - unfold del_lock. eapply runs_kept_trans; [apply runs_kept_updateJobStatus|].
    apply runs_kept_set_locks.
  - unfold del_lock. eapply runs_kept_trans; [|apply runs_kept_set_locks].
    destruct (negb _); [apply runs_kept_updateJobStatus|apply runs_kept_refl].
Qed.

Lemma runs_kept_apply_op extractTags o r : runs_kept r (apply_op extractTags o r).
Proof.
  destruct o; simpl.
  - apply runs_kept_addBoard.
  - apply runs_kept_removeBoard.
  - apply runs_kept_addJob.
  - apply runs_kept_addJobsBulk.
  - apply runs_kept_removeJob.
  - apply runs_kept_updateJobStatus.
  - apply runs_kept_createRun.
  - apply runs_kept_updateRun.
  - apply runs_kept_upsertUser.
Qed.

Lemma run_ops_snoc extractTags ops o r :
  run_ops extractTags (ops ++ [o]) r = apply_op extractTags o (run_ops extractTags ops r).
Proof. unfold run_ops. by rewrite foldl_app. Qed.

Lemma runs_kept_run_ops extractTags ops r : runs_kept r (run_ops extractTags ops r).
Proof.
  revert r. induction ops as [|o ops IH]; intros r; [apply runs_kept_refl|].
  simpl. eapply runs_kept_trans; [apply (runs_kept_apply_op extractTags o)|apply IH].
Qed.

Lemma runs_indexed_empty : runs_indexed empty_store.
Proof. intros rid He. done. Qed.

Lemma runs_indexed_run_ops extractTags ops :
  runs_indexed (run_ops extractTags ops empty_store).
Proof. by apply (runs_kept_run_ops extractTags ops empty_store), runs_indexed_empty. Qed.

(** X19. Every run is listed, whatever happened since: in the store that
    any sequence of operations leaves from the empty store, a run with a
    hash is parsed to a run with its own id, [listRuns] without a job id
    lists it, and it carries a job id for which [listRuns] lists it when
    that job id is not empty; this also after the job or the board of the
    run was removed. *)
Theorem run_ops_run_listed extractTags ops rid :
  let r := run_ops extractTags ops empty_store in
  run_exists r rid →
  ∃ jr, parseRunHash (hgetall_run r (K.run rid)) = Some jr
        ∧ jr_run_id jr = Some rid
        ∧ jr ∈ listRuns r None
        ∧ ∃ j, jr_job_id jr = Some j ∧ (j ≠ "" → jr ∈ listRuns r (Some j)).
Proof.
  intros r He. unfold run_exists in He.
  destruct (runs_indexed_run_ops extractTags ops rid He) as (Hid & Hall & j & Hj & Hin).
  fold r in Hid, Hall, Hj, Hin.
  assert (∃ jr, parseRunHash (hgetall_run r (K.run rid)) = Some jr) as [jr Hjr].
  { unfold parseRunHash. rewrite He. eauto. }
  exists jr. split; [done|].
  assert (jr_run_id jr = Some rid ∧ jr_job_id jr = Some j) as [Hjid Hjjob].
  { unfold parseRunHash in Hjr. rewrite He in Hjr. simpl in Hjr.
    injection Hjr as <-. done. }
  split; [done|]. split.
  - unfold listRuns. simpl. apply list_elem_of_omap. exists rid.
    split; [|done]. by apply elem_of_elements.
  - exists j. split; [done|]. intros Hne. unfold listRuns.
    rewrite truthy_Some by done. simpl. apply list_elem_of_omap. exists rid.
    split; [|done]. by apply elem_of_elements.
Qed.

Lemma run_ops_run_listed_witness :
  ∃ jr, parseRunHash
          (hgetall_run (run_ops sample_tags ops_board_removed empty_store) (K.run "r1"))
        = Some jr
        ∧ jr_run_id jr = Some "r1"
        ∧ jr ∈ listRuns (run_ops sample_tags ops_board_removed empty_store) None
        ∧ ∃ j, jr_job_id jr = Some j
               ∧ (j ≠ "" →
                  jr ∈ listRuns (run_ops sample_tags ops_board_removed empty_store)
                         (Some j)).
Proof.
  apply (run_ops_run_listed sample_tags ops_board_removed "r1").
  vm_compute. reflexivity.
Defined.

(** X20. No operation deletes a run: a run that has a hash after a sequence
    of operations from the empty store has one after any further operations,
    under the same run id. *)
Theorem run_ops_run_persists extractTags ops more rid :
  let r := run_ops extractTags ops empty_store in
  run_exists r rid →
  run_exists (run_ops extractTags more r) rid
  ∧ h_run_id (hgetall_run (run_ops extractTags more r) (K.run rid)) = Some rid.
Proof.
  intros r He.
  destruct (runs_kept_run_ops extractTags more r (runs_indexed_run_ops extractTags ops))
    as [Hinv Hkeep].
  pose proof (Hkeep rid He) as He'. split; [done|]. by apply Hinv.
Qed.

Lemma run_ops_run_persists_witness :
  run_exists
    (run_ops sample_tags [OpRemoveJob "ramp" "42"; OpRemoveBoard "ramp"]
       (run_ops sample_tags ops_claimed empty_store)) "r1"
  ∧ h_run_id
      (hgetall_run
         (run_ops sample_tags [OpRemoveJob "ramp" "42"; OpRemoveBoard "ramp"]
            (run_ops sample_tags ops_claimed empty_store)) (K.run "r1"))
    = Some "r1".
Proof.
  apply (run_ops_run_persists sample_tags ops_claimed
           [OpRemoveJob "ramp" "42"; OpRemoveBoard "ramp"] "r1").
  vm_compute. reflexivity.
Defined.

(** ** Reading boards back *)

Lemma addBoard_hash r now id company ats :
  hgetall (fst (addBoard r now id company ats)) (K.board id)
  = list_to_map [("id", id); ("company", company); ("ats", ats); ("created_at", now)]
    ∪ hgetall r (K.board id).
Proof.
  unfold addBoard. cbn [fst]. rewrite !execPipe_cons. change (execPipe [] ?x) with x.
  by rewrite !hgetall_exec, decide_True.
Qed.

Lemma addBoard_other_hash r now id company ats key :
  key ≠ K.board id → hgetall (fst (addBoard r now id company ats)) key = hgetall r key.
Proof.
  intros Hkey. unfold addBoard. cbn [fst]. apply execPipe_keeps_hash.
  repeat constructor. simpl. by intros <-.
Qed.

(** X21. [getBoard] and [listBoards] after [addBoard]: for a non-empty id,
    [getBoard] finds a board with the id, company and ATS given and with the
    time of this call as its creation time, also when the board was
    registered before, and [listBoards] lists it; a board registered under
    the empty id is not found; every other board is read as before; and
    after [removeBoard] of the id [getBoard] finds nothing. *)
Theorem addBoard_getBoard r now id company ats :
  let r' := fst (addBoard r now id company ats) in
  (id ≠ "" →
   ∃ data, getBoard r' id = Some data
           ∧ data !! "id" = Some id
           ∧ data !! "company" = Some company
           ∧ data !! "ats" = Some ats
           ∧ data !! "created_at" = Some now
           ∧ data ∈ listBoards r')
  ∧ (id = "" → getBoard r' id = None)
  ∧ (∀ id', id' ≠ id → getBoard r' id' = getBoard r id')
  ∧ getBoard (fst (removeBoard r' id)) id = None.
Proof.
  intros r'.
  assert (∀ k v,
            (list_to_map [("id", id); ("company", company); ("ats", ats);
                          ("created_at", now)] : gmap string string) !! k = Some v →
            hgetall r' (K.board id) !! k = Some v) as Hf.
  { intros k v Hk. unfold r'. rewrite addBoard_hash, lookup_union, Hk.
    by destruct (hgetall r (K.board id) !! k). }
  assert (id ∈ smembers_set r' K.boardsIdx) as Hin.
  { unfold r', addBoard. cbn [fst]. rewrite !execPipe_cons.
    change (execPipe [] ?x) with x. rewrite !elem_of_exec. auto. }
  split; [|split; [|split]].
  - intros Hne. exists (hgetall r' (K.board id)).
    assert (getBoard r' id = Some (hgetall r' (K.board id))) as Hget.
    { unfold getBoard. cbv zeta. rewrite (Hf "id" id eq_refl). by rewrite truthy_Some. }
    split; [done|]. split; [by apply Hf|]. split; [by apply Hf|].
    split; [by apply Hf|]. split; [by apply Hf|].
    unfold listBoards. cbv zeta.
    assert (id ∈ smembers r' K.boardsIdx) as Hl by by apply elem_of_elements.
    destruct (smembers r' K.boardsIdx) as [|i l] eqn:Hids; [by apply elem_of_nil in Hl|].
    apply list_elem_of_omap. exists id. split; [done|]. exact Hget.
  - intros ->. unfold getBoard. cbv zeta. by rewrite (Hf "id" "" eq_refl).
  - intros id' Hne. unfold getBoard, r'. rewrite addBoard_other_hash; [done|].
    intros Hk. by apply board_key_inj in Hk.
  - unfold getBoard. cbv zeta.
    assert (exists_ r' (K.board id) = true) as Hex.
    { unfold exists_. apply bool_decide_eq_true. intros He.
      specialize (Hf "id" id eq_refl). rewrite He in Hf. discriminate Hf. }
    rewrite removeBoard_unfold by done. cbn [fst].
    rewrite execPipe_removed_hash; [done|apply removeBoard_pipe_removes_only|].
    right. rewrite elem_of_app, !elem_of_cons. right. right. by left.
Qed.

Lemma addBoard_getBoard_witness :
  ∃ data, getBoard st_board "ramp" = Some data
          ∧ data !! "id" = Some "ramp"
          ∧ data !! "company" = Some "Ramp"
          ∧ data !! "ats" = Some "ashby"
          ∧ data !! "created_at" = Some "t0"
          ∧ data ∈ listBoards st_board.
Proof.
  destruct (addBoard_getBoard empty_store "t0" "ramp" "Ramp" "ashby") as [H _].
  by apply H.
Defined.

(** ** PATCH on a job *)

Lemma job_status_of_Some s st :
  job_status_of s = Some st → job_status_str st = s ∧ s ∈ validStatuses.
Proof.
  unfold job_status_of, validStatuses. intros Hs.
  repeat match type of Hs with
         | context [bool_decide (s = ?x)] =>
             let E := fresh "E" in
             destruct (decide (s = x)) as [E|E];
             [rewrite (bool_decide_eq_true_2 _ E) in Hs
             |rewrite (bool_decide_eq_false_2 _ E) in Hs]
         end.
  all: try discriminate Hs.
  all: injection Hs as <-; subst s; (split; [done|]); repeat (first [by left|right]).
Qed.

Lemma job_status_of_None s : job_status_of s = None → s ∉ validStatuses.
Proof.
  unfold job_status_of, validStatuses. intros Hs.
  repeat match type of Hs with
         | context [bool_decide (s = ?x)] =>
             let E := fresh "E" in
             destruct (decide (s = x)) as [E|E];
             [rewrite (bool_decide_eq_true_2 _ E) in Hs
             |rewrite (bool_decide_eq_false_2 _ E) in Hs]
         end.
  all: try discriminate Hs.
  intros Hin.
  repeat (apply elem_of_cons in Hin as [Hin|Hin]; [done|]).
  by apply elem_of_nil in Hin.
Qed.

Lemma truthy_interp v : truthy v = true → v = Some (interp v).
Proof. by destruct v. Qed.

(** X22. PATCH without a run id. The answer is 400 exactly when board, job
    id or status is absent or empty or the status is not one of the six job
    statuses, and 404 exactly when they are given and the job has no hash;
    in both cases nothing is written. It is 200 exactly when they are given
    and the job exists, and then the body is the job with that status,
    which is also the status in the hash, whatever the status was before.
    No run and no lock is touched. *)
Theorem handle_PATCH_job r now now2 body :
  truthy (b_run_id body) = false →
  let b := interp (b_board body) in
  let j := interp (b_job_id body) in
  let valid :=
    truthy (b_board body) = true ∧ truthy (b_job_id body) = true
    ∧ ∃ s, b_status body = Some s ∧ s ∈ validStatuses in
  let r' := fst (handle_PATCH r now now2 body) in
  let resp := snd (handle_PATCH r now now2 body) in
  (¬ valid → resp_status resp = 400%Z ∧ r' = r)
  ∧ (valid → ¬ job_exists r b j → resp_status resp = 404%Z ∧ r' = r)
  ∧ (valid → job_exists r b j →
     resp_status resp = 200%Z
     ∧ ∃ job, resp_data resp = PJob job ∧ job_status job = b_status body
              ∧ hgetall r' (K.job b j) !! "status" = b_status body)
  ∧ runs r' = runs r
  ∧ locks r' = locks r.
Proof.
  intros Hrid b j valid r' resp. unfold r', resp, handle_PATCH. rewrite Hrid.
  clear r' resp. fold b j.
  destruct (truthy (b_board body)) eqn:Hb.
  2: { cbn [negb orb fst snd].
       assert (¬ valid) as Hnv by (by intros (? & _)).
       repeat split; try done; intros Hv; by destruct Hnv. }
  destruct (truthy (b_job_id body)) eqn:Hj.
  2: { cbn [negb orb fst snd].
       assert (¬ valid) as Hnv by (by intros (_ & ? & _)).
       repeat split; try done; intros Hv; by destruct Hnv. }
  destruct (truthy (b_status body)) eqn:Hs.
  2: { cbn [negb orb fst snd].
       assert (¬ valid) as Hnv.
       { intros (_ & _ & s & Hsome & Hin). rewrite Hsome in Hs. unfold truthy in Hs.
         apply negb_false_iff, bool_decide_eq_true in Hs. subst s.
         unfold validStatuses in Hin.
         repeat (apply elem_of_cons in Hin as [Hin|Hin]; [discriminate Hin|]).
         by apply elem_of_nil in Hin. }
       repeat split; try done; intros Hv; by destruct Hnv. }
  cbn [negb orb]. apply truthy_interp in Hs.
  destruct (job_status_of (interp (b_status body))) as [st|] eqn:Hst.
  2: { cbn [fst snd]. apply job_status_of_None in Hst.
       assert (¬ valid) as Hnv.
       { intros (_ & _ & s & Hsome & Hin). rewrite Hsome in Hst. by apply Hst. }
       repeat split; try done; intros Hv; by destruct Hnv. }
  apply job_status_of_Some in Hst as [Hstr Hin].
  assert (valid) as Hv.
  { split; [done|]. split; [done|]. by exists (interp (b_status body)). }
  pose proof (updateJobStatus_runs r now b j st) as Hruns.
  pose proof (updateJobStatus_locks r now b j st) as Hlocks.
  destruct (truthy (hgetall r (K.job b j) !! "job_id")) eqn:He.
  - pose proof (updateJobStatus_status r now b j st He) as Hstatus.
    unfold updateJobStatus in *. rewrite He in *. cbn [negb fst snd] in *.
    split; [by intros Hnv|]. split; [intros _ Hne; by destruct Hne|].
    split; [|done]. intros _ _. split; [done|]. eexists. split; [reflexivity|].
    rewrite Hs, <- Hstr. split; [|done].
    unfold job_status. simpl. rewrite lookup_insert_ne by done.
    by rewrite lookup_insert_eq.
  - unfold updateJobStatus in *. rewrite He in *. cbn [negb fst snd] in *.
    split; [by intros Hnv|]. split; [done|]. split; [|done].
    intros _ Hex. unfold job_exists in Hex. congruence.
Qed.

Lemma handle_PATCH_job_witness :
  resp_status
    (snd (handle_PATCH st_applied "t8" "t9"
            (mkBody None (Some "42") (Some "ramp") (Some "discovered") None)))
  = 200%Z
  ∧ resp_status
      (snd (handle_PATCH st_applied "t8" "t9"
              (mkBody None (Some "43") (Some "ramp") (Some "discovered") None)))
    = 404%Z.
Proof.
  split.
  - apply (handle_PATCH_job st_applied "t8" "t9"
             (mkBody None (Some "42") (Some "ramp") (Some "discovered") None));
      [done| |vm_compute; reflexivity].
    split; [done|]. split; [done|]. exists "discovered". split; [done|].
    apply elem_of_cons. by left.
  - apply (handle_PATCH_job st_applied "t8" "t9"
             (mkBody None (Some "43") (Some "ramp") (Some "discovered") None));
      [done| |vm_compute; intros H; discriminate H].
    split; [done|]. split; [done|]. exists "discovered". split; [done|].
    apply elem_of_cons. by left.
Defined.

(** ** Listing by status *)

(** With a status given, the keys [listJobs] hydrates are in its index. *)
Lemma listJobs_status_key r opts job :
  truthy (opt_status opts) = true →
  job ∈ listJobs r opts →
  ∃ ck, ck ∈ smembers_set r (K.jobStatusIdx (interp (opt_status opts)))
        ∧ hydrate r ck = Some job.
Proof.
  intros Hs. unfold listJobs. rewrite list_elem_of_omap.
  intros (ck & Hin & Hhy). exists ck. split; [|done]. revert Hin.
  rewrite !when_truthy_interp, Hs.
  set (b := interp (opt_board opts)). set (s := interp (opt_status opts)).
  set (t := interp (opt_tag opts)).
  destruct (truthy (opt_board opts)), (truthy (opt_tag opts)); listed_keys;
    naive_solver.
Qed.

Lemma listJobsForUser_status_key r userId opts job :
  job ∈ listJobsForUser r userId opts →
  ∃ ck, ck ∈ smembers_set r
               (K.jobStatusIdx
                  (if truthy (uopt_status opts) then interp (uopt_status opts)
                   else "discovered"))
        ∧ hydrate r ck = Some job.
Proof.
  unfold listJobsForUser.
  destruct (getUser r userId) as [user|]; [|by intros H; apply elem_of_nil in H].
  destruct (user_tags user) as [|t0 tl]; [by intros H; apply elem_of_nil in H|].
  cbv beta iota zeta. rewrite list_elem_of_omap.
  intros (ck & Hin & Hhy). exists ck. split; [|done]. revert Hin.
  destruct (truthy (uopt_board opts));
    rewrite ?elem_of_filter_bool, ?bool_decide_eq_true, ?elem_of_smembers;
    naive_solver.
Qed.

(** A key of a status index is hydrated to a job of that status, when the
    indexes agree with the hashes and the keys hold one colon. *)
Lemma status_key_sound r ck s job :
  status_index_consistent r → plain_keys r →
  ck ∈ smembers_set r (K.jobStatusIdx s) → hydrate r ck = Some job →
  job_status job = Some s.
Proof.
  intros [H1 _] Hplain Hin Hhy. destruct (H1 ck s Hin) as [He Hst].
  destruct (Hplain ck He) as (b & j & -> & Hb & Hj).
  rewrite hydrate_compositeKey in Hhy by done.
  apply job_status_hash in Hhy as [_ ->].
  unfold job_hash in Hst. by rewrite <- job_compositeKey in Hst.
Qed.

Lemma plain_keys_st_job : plain_keys st_job.
Proof.
  intros ck He. unfold job_hash, st_job, addJob in He. cbn [fst] in He.
  destruct (execPipe_hash_inv (addJob_cmds sample_tags "t1" job42) st_board
              ("job:" +:+ ck)) as [[f Hf]|[Hd|Heq]].
  - apply addJob_cmds_shape in Hf as [(f' & Heq & _)|[Heq|[Heq|(t & Heq)]]];
      try discriminate.
    exists "ramp", "42". split; [|done].
    injection Heq as Hk _. exact Hk.
  - by apply addJob_cmds_shape in Hd as [(f' & Heq & _)|[Heq|[Heq|(t & Heq)]]].
  - rewrite Heq in He. unfold st_board, addBoard in He. cbn [fst] in He.
    rewrite execPipe_keeps_hash in He; [done|].
    repeat constructor. distinct_keys.
Qed.

Lemma reachable_st_job : reachable sample_tags st_job.
Proof.
  apply reach_addJob; [apply reach_addBoard, reach_empty|done|].
  vm_compute. reflexivity.
Qed.

(** X23. Listing by status finds jobs of that status only: in a store the
    operations lead to, with [addJob] used on jobs without a hash, where
    every job is stored under a board and a job id without colons, every job
    that [listJobs] returns for a non-empty status has this status,
    whatever the other filters are. *)
Theorem listJobs_status_sound extractTags r opts job :
  reachable extractTags r → plain_keys r →
  truthy (opt_status opts) = true →
  job ∈ listJobs r opts →
  job_status job = opt_status opts.
Proof.
  intros Hr Hplain Hs Hin.
  apply (listJobs_status_key r opts job Hs) in Hin as (ck & Hck & Hhy).
  pose proof (reachable_consistent extractTags r Hr) as Hc.
  rewrite (truthy_interp _ Hs) at 1.
  exact (status_key_sound r ck _ job Hc Hplain Hck Hhy).
Qed.

Lemma listJobs_status_sound_witness :
  ∃ job, job ∈ listJobs st_job (mkListOpts None (Some "discovered") None)
         ∧ job_status job = Some "discovered".
Proof.
  assert (∃ job, listJobs st_job (mkListOpts None (Some "discovered") None) = [job])
    as [job Hl] by (vm_compute; eexists; reflexivity).
  assert (job ∈ listJobs st_job (mkListOpts None (Some "discovered") None)) as Hin.
  { rewrite Hl. apply elem_of_cons. by left. }
  exists job. split; [exact Hin|].
  apply (listJobs_status_sound sample_tags st_job
           (mkListOpts None (Some "discovered") None) job
           reachable_st_job plain_keys_st_job eq_refl Hin).
Defined.

(** X24. [listJobsForUser] finds jobs of the status asked for only, and
    discovered jobs when none is asked for: in a store the operations lead
    to, with [addJob] used on jobs without a hash, where every job is stored
    under a board and a job id without colons, every job returned has that
    status. *)
Theorem listJobsForUser_status_sound extractTags r userId opts job :
  reachable extractTags r → plain_keys r →
  job ∈ listJobsForUser r userId opts →
  job_status job
  = Some (if truthy (uopt_status opts) then interp (uopt_status opts) else "discovered").
Proof.
  intros Hr Hplain Hin.
  apply listJobsForUser_status_key in Hin as (ck & Hck & Hhy).
  pose proof (reachable_consistent extractTags r Hr) as Hc.
  exact (status_key_sound r ck _ job Hc Hplain Hck Hhy).
Qed.

Lemma listJobsForUser_status_sound_witness :
  ∃ job, job ∈ listJobsForUser st_quant_user "u2" (mkUserListOpts None None)
         ∧ job_status job = Some "discovered".
Proof.
  assert (∃ job, listJobsForUser st_quant_user "u2" (mkUserListOpts None None) = [job])
    as [job Hl] by (vm_compute; eexists; reflexivity).
  assert (job ∈ listJobsForUser st_quant_user "u2" (mkUserListOpts None None)) as Hin.
  { rewrite Hl. apply elem_of_cons. by left. }
  exists job. split; [exact Hin|].
  apply (listJobsForUser_status_sound sample_tags st_quant_user "u2"
           (mkUserListOpts None None) job); [| |exact Hin].
  - apply reach_upsertUser, reachable_st_job.
  - intros ck He. by apply plain_keys_st_job.
Defined.

(** X25. Every job is found under its status: in a store the operations
    lead to, with [addJob] used on jobs without a hash, a job that [getJob]
    finds under a board and a job id without colons has a non-empty status,
    and [listJobs] for this status returns it. *)
Theorem listJobs_status_complete extractTags r b j job :
  reachable extractTags r →
  contains colon b = false → contains colon j = false →
  getJob r b j = Some job →
  ∃ s, job_status job = Some s ∧ s ≠ ""
       ∧ job ∈ listJobs r (mkListOpts None (Some s) None).
Proof.
  intros Hr Hb Hj Hget.
  destruct (reachable_consistent extractTags r Hr) as [_ H2].
  pose proof Hget as Hjob. apply job_status_hash in Hjob as [He Hst].
  destruct (H2 (compositeKey b j) He) as (s & Hs & Hne & Hin).
  unfold job_hash in Hs. rewrite <- job_compositeKey in Hs.
  exists s. split; [by rewrite Hst|]. split; [done|].
  unfold listJobs. cbn [opt_board opt_status opt_tag when_truthy app].
  rewrite truthy_Some by done. cbn [app truthy].
  apply list_elem_of_omap. exists (compositeKey b j). split.
  - by apply elem_of_smembers.
  - by rewrite hydrate_compositeKey.
Qed.

Lemma listJobs_status_complete_witness :
  ∃ job s, getJob st_claimed "ramp" "42" = Some job
           ∧ job_status job = Some s ∧ s ≠ ""
           ∧ job ∈ listJobs st_claimed (mkListOpts None (Some s) None).
Proof.
  assert (∃ job, getJob st_claimed "ramp" "42" = Some job) as [job Hget]
    by (vm_compute; eexists; reflexivity).
  destruct (listJobs_status_complete sample_tags st_claimed "ramp" "42" job)
    as (s & Hs & Hne & Hin); [|reflexivity|reflexivity|exact Hget|].
  - apply reach_createRun, reachable_st_job.
  - exists job, s. by repeat split.
Defined.

(** ** What removing a job takes away *)

Lemma removeJob_removes_only r b j :
  Forall removes_only
    (when_truthy (hgetall r (K.job b j) !! "status")
       (λ status, [SREM (K.jobStatusIdx status) (compositeKey b j)])
     ++ when_truthy (hgetall r (K.job b j) !! "tags")
          (λ tags, map (λ tag, SREM (K.tagIdx tag) (compositeKey b j)) (split comma tags))
     ++ [SREM (K.boardJobsIdx b) j; DEL (K.job b j)]).
Proof.
  apply Forall_forall. intros c Hc.
  apply removeJob_cmd_shape in Hc as [(key & -> & _)|[->| ->]]; done.
Qed.

(** [removeJob] only takes away: a hash is as before or gone, no set gains
    a member, and the job asked for has no job id in its hash afterwards. *)
Lemma removeJob_shrinks r b j :
  let r' := fst (removeJob r b j) in
  (∀ key, hgetall r' key = hgetall r key ∨ hgetall r' key = ∅)
  ∧ (∀ key m, m ∈ smembers_set r' key → m ∈ smembers_set r key)
  ∧ truthy (hgetall r' (K.job b j) !! "job_id") = false
  ∧ runs r' = runs r
  ∧ locks r' = locks r.
Proof.
  intros r'. unfold r'. clear r'.
  destruct (truthy (hgetall r (K.job b j) !! "job_id")) eqn:He.
  2: { unfold removeJob. rewrite He. cbn [negb fst]. repeat split; auto. }
  rewrite removeJob_unfold by done. cbn [fst].
  pose proof (removeJob_removes_only r b j) as Hrem.
  split; [|split; [|split; [|split]]].
  - intros key. destruct (removes_only_hash_cases key _ Hrem) as [Hd|Hk].
    + right. apply execPipe_removed_hash; auto.
    + left. by apply execPipe_keeps_hash.
  - intros key m. by apply execPipe_removes_only.
  - rewrite execPipe_removed_hash; [done|done|]. right.
    rewrite !elem_of_app, !elem_of_cons. right. right. right. by left.
  - apply execPipe_runs. eapply Forall_impl; [exact Hrem|]. apply removes_only_not_run.
  - apply execPipe_locks.
Qed.

(** ** The board and the job id in a job hash *)

Lemma same_job_ids_refl r : same_job_ids r r.
Proof. by intros ck. Qed.

Lemma same_job_ids_trans r1 r2 r3 :
  same_job_ids r1 r2 → same_job_ids r2 r3 → same_job_ids r1 r3.
Proof.
  intros H12 H23 ck. destruct (H12 ck) as [Hb1 Hj1]. destruct (H23 ck) as [Hb2 Hj2].
  split; congruence.
Qed.

Lemma same_job_ids_hashes r r' : hashes r' = hashes r → same_job_ids r r'.
Proof. intros Hh ck. unfold job_hash, hgetall. by rewrite Hh. Qed.

Lemma same_job_ids_set_locks f r0 r : same_job_ids r0 r → same_job_ids r0 (set_locks f r).
Proof. intros H. apply (same_job_ids_trans _ r); [done|]. by apply same_job_ids_hashes. Qed.

Lemma same_job_ids_execPipe pipe r :
  (∀ ck, Forall (keeps_hash ("job:" +:+ ck)) pipe) → same_job_ids r (execPipe pipe r).
Proof. intros Hk ck. unfold job_hash. by rewrite execPipe_keeps_hash. Qed.

Lemma same_job_ids_updateJobStatus r now b j st :
  same_job_ids r (fst (updateJobStatus r now b j st)).
Proof.
  destruct (truthy (hgetall r (K.job b j) !! "job_id")) eqn:He.
  2: { unfold updateJobStatus. rewrite He. apply same_job_ids_refl. }
  intros ck. unfold job_hash.
  destruct (decide ("job:" +:+ ck = K.job b j)) as [->|Hne].
  - rewrite updateJobStatus_hash by done. rewrite !lookup_union. simpl.
    rewrite !lookup_insert_ne by done. rewrite lookup_empty.
    split.
    + by destruct (hgetall r (K.job b j) !! "board").
    + by destruct (hgetall r (K.job b j) !! "job_id").
  - by rewrite updateJobStatus_other_hash.
Qed.

Lemma same_job_ids_createRun r clock now now2 run a :
  same_job_ids r (fst (createRun r clock now now2 run a)).
Proof.
  unfold createRun.
  assert (same_job_ids r (fst (set_ex_nx r clock
                                 (K.applyLock (run_board run) (run_job_id run))
                                 (run_id run) LOCK_TTL_SECONDS))) as H1.
  { unfold set_ex_nx. destruct (live_lock _ _ _); [apply same_job_ids_refl|].
    by apply same_job_ids_hashes. }
  destruct (set_ex_nx r clock (K.applyLock (run_board run) (run_job_id run))
              (run_id run) LOCK_TTL_SECONDS) as [r1 locked].
  cbn [fst] in H1. destruct locked; cbn [negb]; [|done].
  destruct (getJob r1 (run_board run) (run_job_id run)) as [job|].
  2: { cbn [fst]. apply (same_job_ids_trans _ r1); [done|]. by apply same_job_ids_hashes. }
  destruct (applicable (job_status job)); cbn [negb].
  2: { cbn [fst]. apply (same_job_ids_trans _ r1); [done|]. by apply same_job_ids_hashes. }
  cbn [fst]. apply (same_job_ids_trans _ r1); [done|].
  set (pipe := [HSET_run _ _; SADD _ _; SADD _ _]).
  apply (same_job_ids_trans _ (execPipe pipe r1)).
  { apply same_job_ids_execPipe. intros ck. unfold pipe.
    repeat constructor; distinct_keys. }
  destruct (bool_decide (job_status job = Some "discovered")).
  - apply same_job_ids_updateJobStatus.
  - apply same_job_ids_refl.
Qed.

Lemma same_job_ids_updateRun r now now2 runId update :
  same_job_ids r (fst (updateRun r now now2 runId update)).
Proof.
  unfold updateRun.
  destruct (truthy (h_run_id (hgetall_run r (K.run runId)))); cbn [negb];
    [|apply same_job_ids_refl].
  destruct (match upd_artifacts update with
            | Some ua =>
                match merge_artifacts (h_artifacts (hgetall_run r (K.run runId))) ua with
                | Return m => Return (Some (Some m))
                | Throw e => Throw e
                end
            | None => Return None
            end) as [artifacts|e]; [|apply same_job_ids_refl].
  cbn [fst]. set (fields := mkRunHash _ _ _ _ _ _ _ _ _).
  apply (same_job_ids_trans _ (exec (HSET_run (K.run runId) fields) r));
    [by apply same_job_ids_hashes|].
  destruct (upd_status update).
  - apply same_job_ids_refl.
  - apply same_job_ids_refl.
  - unfold del_lock. apply same_job_ids_set_locks, same_job_ids_updateJobStatus.
  - unfold del_lock. apply same_job_ids_set_locks.
    destruct (negb _); [apply same_job_ids_updateJobStatus|apply same_job_ids_refl].
Qed.

Lemma fields_match_same r r' : same_job_ids r r' → fields_match r → fields_match r'.
Proof.
  intros Hs H ck He. destruct (Hs ck) as [Hb Hj]. rewrite Hb, Hj in *. by apply H.
Qed.

Lemma fields_match_shrink r r' :
  (∀ key, hgetall r' key = hgetall r key ∨ hgetall r' key = ∅) →
  fields_match r → fields_match r'.
Proof.
  intros Hs H ck He. unfold job_hash in *.
  destruct (Hs ("job:" +:+ ck)) as [Heq|Heq]; rewrite Heq in *; [by apply H|done].
Qed.

Lemma execPipe_removes_hash_cases pipe r key :
  Forall removes_only pipe →
  hgetall (execPipe pipe r) key = hgetall r key ∨ hgetall (execPipe pipe r) key = ∅.
Proof.
  intros Hrem. destruct (removes_only_hash_cases key pipe Hrem) as [Hd|Hk].
  - right. apply execPipe_removed_hash; auto.
  - left. by apply execPipe_keeps_hash.
Qed.

(** A hash written only with fields that establish [P] satisfies it. *)
Lemma execPipe_writes_prop key (P : gmap string string → Prop) pipe r :
  Forall (λ c, match c with
               | HSET k f => k = key → ∀ old, P (f ∪ old)
               | DEL k => k ≠ key
               | _ => True
               end) pipe →
  P (hgetall r key) ∨ (∃ f, HSET key f ∈ pipe) →
  P (hgetall (execPipe pipe r) key).
Proof.
  revert r. induction pipe as [|c pipe IH]; intros r Hp Hs.
  - destruct Hs as [Hs|[f Hf]]; [done|]. by apply elem_of_nil in Hf.
  - inversion Hp as [|? ? Hc Hrest]; subst.
    rewrite execPipe_cons. apply IH; [done|].
    assert (∀ f, c = HSET key f → P (hgetall (exec c r) key)) as Hset.
    { intros f ->. rewrite hgetall_exec, decide_True by done. by apply Hc. }
    destruct Hs as [Hs|[f Hf]].
    + left. destruct c as [k f| | | | |k|]; try done.
      * destruct (decide (k = key)) as [->|Hk]; [by apply (Hset f)|].
        by rewrite hgetall_exec, decide_False.
      * simpl in Hc. by rewrite hgetall_exec, decide_False.
    + apply elem_of_cons in Hf as [<-|Hf]; [|right; eauto].
      left. by apply (Hset f).
Qed.

Lemma addJob_cmds_fields extractTags now job c :
  c ∈ addJob_cmds extractTags now job →
  match c with
  | HSET k f =>
      k = K.job (board job) (job_id job)
      ∧ f !! "board" = Some (board job) ∧ f !! "job_id" = Some (job_id job)
  | SADD _ _ => True
  | _ => False
  end.
Proof.
  unfold addJob_cmds. rewrite elem_of_app, !elem_of_cons.
  intros [[->|[->|[->|H]]]|H]; try done.
  - by apply elem_of_nil in H.
  - by apply list_elem_of_fmap in H as (t & -> & _).
Qed.

Lemma fields_match_add_jobs extractTags now jobs r :
  fields_match r →
  fields_match (execPipe (flat_map (addJob_cmds extractTags now) jobs) r).
Proof.
  intros H ck He. set (pipe := flat_map (addJob_cmds extractTags now) jobs) in *.
  assert (∀ c, c ∈ pipe → ∃ job, job ∈ jobs ∧ c ∈ addJob_cmds extractTags now job)
    as Hpipe.
  { intros c Hc. apply list_elem_of_In, in_flat_map in Hc as (job & Hjob & Hc).
    exists job. by rewrite !list_elem_of_In. }
  unfold job_hash in *.
  destruct (execPipe_hash_inv pipe r ("job:" +:+ ck)) as [[f Hf]|[Hd|Heq]].
  - apply (execPipe_writes_prop ("job:" +:+ ck)
             (λ h, ∃ b j, ck = compositeKey b j ∧ h !! "board" = Some b
                          ∧ h !! "job_id" = Some j)); [|right; eauto].
    apply Forall_forall. intros c Hc. destruct (Hpipe c Hc) as (job & _ & Hcj).
    apply addJob_cmds_fields in Hcj. destruct c as [k f'| | | | | |]; try done.
    destruct Hcj as (-> & Hb & Hj). intros Hk old.
    exists (board job), (job_id job). split.
    { apply job_key_inj. by rewrite <- job_compositeKey. }
    rewrite !lookup_union, Hb, Hj. split.
    + by destruct (old !! "board").
    + by destruct (old !! "job_id").
  - destruct (Hpipe _ Hd) as (job & _ & Hcj). by apply addJob_cmds_fields in Hcj.
  - rewrite Heq in *. by apply H.
Qed.

Lemma fields_match_apply_op extractTags o r :
  fields_match r → fields_match (apply_op extractTags o r).
Proof.
  destruct o; cbn [apply_op].
  - apply fields_match_same. unfold addBoard. cbn [fst].
    apply same_job_ids_execPipe. intros ck. repeat constructor; distinct_keys.
  - apply fields_match_shrink. intros key. unfold removeBoard.
    destruct (negb _); [by left|]. cbn [fst].
    apply execPipe_removes_hash_cases, removeBoard_pipe_removes_only.
  - unfold addJob. cbn [fst].
    rewrite <- (app_nil_r (addJob_cmds extractTags now job)).
    apply (fields_match_add_jobs extractTags now [job]).
  - rewrite addJobsBulk_eq. apply fields_match_add_jobs.
  - apply fields_match_shrink. apply removeJob_shrinks.
  - apply fields_match_same, same_job_ids_updateJobStatus.
  - apply fields_match_same, same_job_ids_createRun.
  - apply fields_match_same, same_job_ids_updateRun.
  - apply fields_match_same. unfold upsertUser. cbn [fst].
    apply same_job_ids_execPipe. intros ck. repeat constructor; distinct_keys.
Qed.

Lemma fields_match_run_ops extractTags ops r :
  fields_match r → fields_match (run_ops extractTags ops r).
Proof.
  revert r. induction ops as [|o ops IH]; intros r H; [done|].
  simpl. by apply IH, fields_match_apply_op.
Qed.

Lemma fields_match_empty : fields_match empty_store.
Proof. intros ck He. done. Qed.

Lemma contains_app_sep sep x y : contains sep (x +:+ String sep y) = true.
Proof.
  induction x as [|c x IH]; simpl.
  - by rewrite bool_decide_eq_true_2.
  - by rewrite IH, orb_true_r.
Qed.

(** A composite key of a board and a job id without colons is the key of
    no other pair. *)
Lemma compositeKey_inj_plain b j b' j' :
  contains colon b = false → contains colon j = false →
  compositeKey b' j' = compositeKey b j → b' = b ∧ j' = j.
Proof.
  unfold compositeKey.
  change (b' +:+ ":" +:+ j') with (b' +:+ String colon j').
  change (b +:+ ":" +:+ j) with (b +:+ String colon j).
  revert b'. induction b as [|c b IH]; intros b' Hb Hj Heq.
  - destruct b' as [|c' b']; simpl in Heq.
    + by injection Heq as ->.
    + injection Heq as -> Heq. rewrite <- Heq, contains_app_sep in Hj. done.
  - simpl in Hb. apply orb_false_iff in Hb as [Hc Hb].
    destruct b' as [|c' b']; simpl in Heq.
    + injection Heq as <- _. by rewrite bool_decide_eq_true_2 in Hc.
    + injection Heq as -> Heq. by destruct (IH b' Hb Hj Heq) as [-> ->].
Qed.

(** X27. A job carries the key it is stored under: in the store any
    sequence of operations leaves from the empty store, the job that
    [getJob] finds under a board and a job id has a board and a job id in
    its fields whose composite key is the one asked for; they are the board
    and the job id asked for when these hold no colon. *)
Theorem run_ops_job_fields extractTags ops b j job :
  let r := run_ops extractTags ops empty_store in
  getJob r b j = Some job →
  ∃ b' j', compositeKey b' j' = compositeKey b j
           ∧ job_fields job !! "board" = Some b'
           ∧ job_fields job !! "job_id" = Some j'
           ∧ (contains colon b = false → contains colon j = false → b' = b ∧ j' = j).
Proof.
  intros r Hget.
  pose proof (fields_match_run_ops extractTags ops empty_store fields_match_empty) as Hfm.
  fold r in Hfm. unfold getJob, parseJobHash in Hget.
  destruct (truthy (hgetall r (K.job b j) !! "job_id")) eqn:He; [|done].
  simpl in Hget. injection Hget as <-. simpl.
  destruct (Hfm (compositeKey b j)) as (b' & j' & Hck & Hb & Hj).
  { unfold job_hash. by rewrite <- job_compositeKey. }
  unfold job_hash in Hb, Hj. rewrite <- job_compositeKey in Hb, Hj.
  exists b', j'. split; [done|]. rewrite !lookup_delete_ne by done.
  split; [done|]. split; [done|]. intros Hcb Hcj.
  by apply compositeKey_inj_plain.
Qed.

Lemma run_ops_job_fields_witness :
  ∃ job b' j', getJob (run_ops sample_tags ops_claimed empty_store) "ramp" "42" = Some job
               ∧ job_fields job !! "board" = Some b'
               ∧ job_fields job !! "job_id" = Some j'
               ∧ b' = "ramp" ∧ j' = "42".
Proof.
  assert (∃ job, getJob (run_ops sample_tags ops_claimed empty_store) "ramp" "42"
                 = Some job) as [job Hget] by (vm_compute; eexists; reflexivity).
  destruct (run_ops_job_fields sample_tags ops_claimed "ramp" "42" job Hget)
    as (b' & j' & _ & Hb & Hj & Hplain).
  exists job, b', j'. split; [exact Hget|]. split; [exact Hb|]. split; [exact Hj|].
  by apply Hplain.
Defined.

(** ** POST of a single job *)

Lemma truthy_interp_nonempty v : truthy v = true → interp v ≠ "".
Proof.
  destruct v as [s|]; [|done]. simpl. intros H Hs. subst s. done.
Qed.

(** X29. POST of a single job answers 400 and writes nothing exactly when
    the job id or the board is absent or empty; otherwise it answers 201
    with the job [addJob] returns, without asking whether the job exists:
    the job has a non-empty id and board, its hash has the status
    discovered whatever the status was, and a [createRun] for it creates a
    run at any time the lock is not held. *)
Theorem handle_POST_job_spec extractTags r now body :
  let given := truthy (jb_job_id body) && truthy (jb_board body) in
  let job := posted_job body in
  let r' := fst (handle_POST_job extractTags r now body) in
  let resp := snd (handle_POST_job extractTags r now body) in
  (given = false → resp_status resp = 400%Z ∧ r' = r)
  ∧ (given = true →
     resp_status resp = 201%Z
     ∧ resp_data resp = PJob (full_job extractTags now job)
     ∧ r' = fst (addJob extractTags r now job)
     ∧ job_id job ≠ "" ∧ board job ≠ ""
     ∧ hgetall r' (K.job (board job) (job_id job)) !! "status" = Some "discovered"
     ∧ ∀ clock now1 now2 run a,
         run_board run = board job → run_job_id run = job_id job →
         live_lock r (K.applyLock (board job) (job_id job)) clock = None →
         ∃ r2 full, createRun r' clock now1 now2 run a = (r2, RunCreated full)).
Proof.
  intros given job r' resp. unfold r', resp, handle_POST_job, given. clear r' resp given.
  destruct (truthy (jb_job_id body)) eqn:Hj; [|by split].
  destruct (truthy (jb_board body)) eqn:Hb; [|by split].
  cbn [negb orb andb]. fold job. split; [done|]. intros _.
  assert (job_id job ≠ "") as Hid by by apply truthy_interp_nonempty.
  assert (board job ≠ "") as Hbd by by apply truthy_interp_nonempty.
  unfold addJob. cbn [fst snd].
  change (execPipe (addJob_cmds extractTags now job) r)
    with (fst (addJob extractTags r now job)).
  split; [done|]. split; [done|]. split; [done|]. split; [done|]. split; [done|].
  split; [apply addJob_status|].
  intros clock now1 now2 run a Hrb Hrj Hlock. apply createRun_succeeds.
  - rewrite Hrb, Hrj. unfold live_lock in *. unfold addJob. cbn [fst].
    by rewrite execPipe_locks.
  - rewrite Hrb, Hrj. by apply addJob_job_exists.
  - left. rewrite Hrb, Hrj. apply addJob_status.
Qed.

Lemma handle_POST_job_spec_witness :
  rejection_code (snd (createRun st_applied 500 "t9" "t10" run_r2 None)) = Some 400%Z
  ∧ ∃ r2 full,
      createRun
        (fst (handle_POST_job sample_tags st_applied "t8"
                (mkJobBody (Some "42") (Some "ramp") (Some "Quant Trader") None None None)))
        500 "t9" "t10" run_r2 None
      = (r2, RunCreated full).
Proof.
  split; [vm_compute; reflexivity|].
  destruct (handle_POST_job_spec sample_tags st_applied "t8"
              (mkJobBody (Some "42") (Some "ramp") (Some "Quant Trader") None None None))
    as [_ H].
  destruct (H eq_refl) as (_ & _ & _ & _ & _ & _ & Hrun).
  apply Hrun; [reflexivity|reflexivity|]. vm_compute. reflexivity.
Defined.

(** ** Answers for a run created without artifacts *)

(** C6. The merge of artifacts is not additive on a run created without
    artifacts. [createRun] stores the text [null] for the artifacts of such
    a run, which is not the absent field the merge starts from [{}] for;
    the first [updateRun] that carries answers then reads [answers] of
    [null] and throws, whatever its status and its other fields: nothing is
    written, the answers are not recorded and the run keeps no artifacts. *)
Theorem updateRun_answers_after_createRun_throws r clock now now2 run r1 full
    now' now2' update ua ans :
  createRun r clock now now2 run None = (r1, RunCreated full) →
  run_id run ≠ "" →
  upd_artifacts update = Some ua →
  answers ua = Some ans →
  jr_artifacts full = None
  ∧ h_artifacts (hgetall_run r1 (K.run (run_id run))) = Some None
  ∧ updateRun r1 now' now2' (run_id run) update
    = (r1, Throw "TypeError: Cannot read properties of null (reading 'answers')").
Proof.
  intros Hc Hid Hua Hans.
  destruct (createRun_created_facts r clock now now2 run None r1 full Hc)
    as (-> & Hhash & _).
  split; [done|]. split; [by rewrite Hhash|].
  unfold updateRun. rewrite Hhash. cbn [h_run_id h_artifacts].
  rewrite truthy_Some by done. cbn [negb]. rewrite Hua.
  unfold merge_artifacts. by rewrite Hans.
Qed.

Lemma updateRun_answers_after_createRun_throws_witness :
  h_artifacts (hgetall_run st_claimed (K.run "r1")) = Some None
  ∧ updateRun st_claimed "t4" "t5" "r1" (mkRunUpdate submitted None (Some art_answer_x))
    = (st_claimed, Throw "TypeError: Cannot read properties of null (reading 'answers')").
Proof.
  assert (createRun st_job 100 "t2" "t3" run_r1 None
          = (st_claimed,
             RunCreated (mkJobRun (Some "r1") (Some "42") (Some "ramp") (Some "v1")
                           (Some "pending") (Some "t2") None None None))) as Hc
    by (vm_compute; reflexivity).
  destruct (updateRun_answers_after_createRun_throws st_job 100 "t2" "t3" run_r1
              st_claimed _ "t4" "t5" (mkRunUpdate submitted None (Some art_answer_x))
              art_answer_x {["x" := "1"]} Hc)
    as (_ & Hnull & Hthrow); [done|reflexivity|reflexivity|].
  split; [exact Hnull|exact Hthrow].
Defined.

(** ** The siblings of a failed run *)

Lemma updateRun_other_sets r now now2 runId update k :
  (∀ s, k ≠ K.jobStatusIdx s) →
  smembers_set (fst (updateRun r now now2 runId update)) k = smembers_set r k.
Proof.
  intros Hk. unfold updateRun.
  destruct (negb (truthy _)); [done|].
  destruct (match upd_artifacts update with Some _ => _ | None => _ end) as [arts|e];
    [|done].
  cbn [fst].
  set (fields := mkRunHash _ _ _ _ _ _ _ _ _).
  set (r1 := exec (HSET_run (K.run runId) fields) r).
  assert (smembers_set r1 k = smembers_set r k) as <- by done.
  destruct (upd_status update); try done.
  - change (smembers_set (del_lock ?x _)) with (smembers_set x).
    by apply updateJobStatus_other_sets.
  - change (smembers_set (del_lock ?x _)) with (smembers_set x).
    destruct (negb _); [by apply updateJobStatus_other_sets|done].
Qed.

(** A run listed before [updateRun], other than the updated one, is listed
    after it as it was. *)
Lemma updateRun_keeps_listed r now now2 runId update jobId sr :
  h_run_id (hgetall_run r (K.run runId)) = Some runId →
  sr ∈ listRuns r jobId → jr_run_id sr ≠ Some runId →
  sr ∈ listRuns (fst (updateRun r now now2 runId update)) jobId.
Proof.
  intros Hid Hin Hne. unfold listRuns in *. apply list_elem_of_omap in Hin
    as (rid & Hrid & Hparse).
  apply list_elem_of_omap. exists rid.
  assert (rid ≠ runId) as Hrne.
  { intros ->. unfold parseRunHash in Hparse. rewrite Hid in Hparse.
    destruct (negb (truthy (Some runId))); [done|]. injection Hparse as <-.
    by apply Hne. }
  split.
  - destruct (truthy jobId); unfold smembers in *;
      by rewrite updateRun_other_sets by distinct_keys.
  - rewrite updateRun_other_run; [done|]. intros Hk. by apply run_key_inj in Hk.
Qed.

(** C3. The test that keeps the job of a failed run from going back to
    discovered is made on the runs listed under the job id alone, so a run
    of another board whose job has the same id counts as a sibling. When a
    run fails whose job is not discovered, and no other run of its board
    and job id is pending or submitted, but a run of another board with the
    same job id is, the job is not put back to discovered: its hash and the
    index sets are left as they were, and the apply lock is deleted. *)
Theorem updateRun_failed_foreign_run r now now2 runId update foreign s :
  run_exists r runId →
  merge_defined r runId update →
  upd_status update = failed →
  let data := hgetall_run r (K.run runId) in
  let b := interp (h_board data) in
  let j := interp (h_job_id data) in
  let r' := fst (updateRun r now now2 runId update) in
  h_run_id data = Some runId →
  foreign ∈ listRuns r (h_job_id data) →
  jr_run_id foreign ≠ Some runId →
  jr_board foreign ≠ h_board data →
  jr_status foreign = Some "pending" ∨ jr_status foreign = Some "submitted" →
  ¬ sibling_active_run r (h_board data) (h_job_id data) runId →
  hgetall r (K.job b j) !! "status" = Some s →
  s ≠ "discovered" →
  hgetall r' (K.job b j) !! "status" = Some s
  ∧ hashes r' = hashes r
  ∧ sets r' = sets r
  ∧ locks r' !! K.applyLock b j = None.
Proof.
  intros He Hm Hst data b j r' Hid Hin Hne _ Hact _ Hs _.
  pose proof (updateRun_job_side_effects r now now2 runId update He Hm) as H.
  cbv zeta in H. fold data b j r' in H. rewrite Hst in H.
  destruct H as (_ & Hlock & _ & Hkeep).
  destruct Hkeep as [Hh Hsets].
  { exists foreign. split; [|done]. by apply updateRun_keeps_listed. }
  split; [|done]. unfold hgetall. by rewrite Hh.
Qed.

Lemma updateRun_failed_foreign_run_witness :
  hgetall st_two_boards (K.job "ramp" "42") !! "status" = Some "queued"
  ∧ ¬ sibling_active_run st_two_boards (Some "ramp") (Some "42") "r1"
  ∧ hgetall (fst (updateRun st_two_boards "t8" "t9" "r1"
                    (mkRunUpdate failed (Some "timeout") None)))
      (K.job "ramp" "42") !! "status" = Some "queued"
  ∧ locks (fst (updateRun st_two_boards "t8" "t9" "r1"
                  (mkRunUpdate failed (Some "timeout") None)))
      !! K.applyLock "ramp" "42" = None.
Proof.
  assert (¬ sibling_active_run st_two_boards (Some "ramp") (Some "42") "r1") as Hno.
  { intros (sr & Hin & Hid & Hb & _). unfold listRuns in Hin.
    apply list_elem_of_omap in Hin as (rid & Hrid & Hparse).
    assert (rid = "r1" ∨ rid = "v1") as [-> | ->].
    { vm_compute in Hrid.
      repeat (apply elem_of_cons in Hrid as [->|Hrid]; [by auto|]).
      by apply elem_of_nil in Hrid. }
    - vm_compute in Hparse. injection Hparse as <-. by apply Hid.
    - vm_compute in Hparse. injection Hparse as <-. discriminate Hb. }
  split; [vm_compute; reflexivity|]. split; [exact Hno|].
  destruct (updateRun_failed_foreign_run st_two_boards "t8" "t9" "r1"
              (mkRunUpdate failed (Some "timeout") None)
              (mkJobRun (Some "v1") (Some "42") (Some "vercel") (Some "v1")
                 (Some "pending") (Some "t6") None None None) "queued")
    as (Hstatus & _ & _ & Hlock).
  - vm_compute. reflexivity.
  - exact I.
  - reflexivity.
  - vm_compute. reflexivity.
  - unfold listRuns. apply list_elem_of_omap. exists "v1". split.
    + apply elem_of_elements. apply (bool_decide_unpack _). vm_compute. exact I.
    + vm_compute. reflexivity.
  - intros H. discriminate H.
  - intros H. vm_compute in H. discriminate H.
  - by left.
  - exact Hno.
  - vm_compute. reflexivity.
  - intros H. discriminate H.
  - split; [exact Hstatus|exact Hlock].
Defined.

(** ** Removing the board of a claimed job *)




